(** * El-Bayan retrieval-augmented generation core: a shallow embedding

    The development follows the Python sources:
    - [rag_system/chunking/text_chunker.py]        (module [TextChunker])
    - [rag_system/retrieval/retriever.py]          (module [Retriever])
    - [rag_system/vector_store/faiss_store.py]     (module [FaissStore])
    - [rag_system/llm/gemini_llm.py]               (module [GeminiLLM])
    - [rag_system/pipeline/rag_pipeline.py]        (module [RAGPipeline])

    Part I holds the definitions, Part II the theorems. *)

From Stdlib Require Import ZArith NArith Lia Sorting.Sorted Strings.String Strings.Ascii.
From stdpp Require Import base option list gmap.

#[local] Open Scope Z_scope.

(* ===================================================================== *)
(** * Part I: definitions                                                 *)
(* ===================================================================== *)

(** ** Python strings

    A Python [str] is a sequence of Unicode code points; [len] counts code
    points, so a string is a list of code points and not of bytes. *)
Module PyStr.

Abbreviation pystr := (list N) (only parsing).

(** ASCII literals of the sources are written as Rocq strings. *)
Definition lit (s : String.string) : pystr :=
  map Ascii.N_of_ascii (String.list_ascii_of_string s).

(** [len(s)] *)
Definition len (s : pystr) : Z := Z.of_nat (length s).

(** [bool(s)]: a string is truthy when it is not empty. *)
Definition truthy (s : pystr) : bool :=
  match s with [] => false | _ :: _ => true end.

(** [s == t] *)
Definition eqb (s t : pystr) : bool := bool_decide (s = t).

(** [c.isspace()], which is also the class [\s] of [re] on [str] patterns:
    U+0009-000D, U+001C-0020, U+0085, U+00A0, U+1680, U+2000-200A,
    U+2028, U+2029, U+202F, U+205F, U+3000. *)
Definition isspace (c : N) : bool :=
  ((9 <=? c) && (c <=? 13) || (28 <=? c) && (c <=? 32)
   || (c =? 133) || (c =? 160) || (c =? 5760)
   || (8192 <=? c) && (c <=? 8202)
   || (c =? 8232) || (c =? 8233) || (c =? 8239) || (c =? 8287)
   || (c =? 12288))%N.

Fixpoint lstrip (s : pystr) : pystr :=
  match s with
  | [] => []
  | c :: rest => if isspace c then lstrip rest else s
  end.

Definition rstrip (s : pystr) : pystr := rev (lstrip (rev s)).

(** [s.strip()] *)
Definition strip (s : pystr) : pystr := rstrip (lstrip s).

(** [s.startswith(prefix)] *)
Fixpoint startswith (s prefix : pystr) : bool :=
  match prefix, s with
  | [], _ => true
  | p :: prefix', c :: s' => (p =? c)%N && startswith s' prefix'
  | _ :: _, [] => false
  end.

(** [s.replace(c, by)] for a one-character pattern [c]. *)
Definition replace_char (c : N) (by_ : pystr) (s : pystr) : pystr :=
  flat_map (fun x => if (x =? c)%N then by_ else [x]) s.

(** [sep.join(parts)] *)
Fixpoint join (sep : pystr) (parts : list pystr) : pystr :=
  match parts with
  | [] => []
  | [p] => p
  | p :: rest => p ++ sep ++ join sep rest
  end.

Definition space : pystr := [32%N].
Definition newline : pystr := [10%N].

End PyStr.
Import PyStr.

(** ** rag_system/chunking/text_chunker.py *)
Module TextChunker.

(** The attributes set by [TextChunker.__init__]. *)
Record t := {
  chunk_size : Z;
  overlap : Z;
  min_chunk_size : Z
}.

(** The dictionaries appended to [chunks]. *)
Record chunk := {
  text : pystr;
  source : pystr;
  chunk_id : Z;
  sentences : list pystr
}.

(** The class [[.؟!؛]] of the sentence pattern. *)
Definition is_terminator (c : N) : bool :=
  ((c =? 46) || (c =? 1567) || (c =? 33) || (c =? 1563))%N.

(** [re.split(r'[.؟!؛]\s+', text)]: the text is cut at every terminator
    that is followed by white space, and the terminator and the whole run
    of white space after it are dropped.  [skipping] is set while the run
    of white space of a match is being consumed; [piece] is the piece read
    so far. *)
Fixpoint re_split (skipping : bool) (piece : pystr) (s : pystr) : list pystr :=
  match s with
  | [] => [piece]
  | c :: rest =>
      if skipping && isspace c then re_split true piece rest
      else if is_terminator c && match rest with
                                 | d :: _ => isspace d
                                 | [] => false
                                 end
           then piece :: re_split true [] rest
           else re_split false (piece ++ [c]) rest
  end.

(** [TextChunker._split_into_sentences] *)
Definition _split_into_sentences (text : pystr) : list pystr :=
  let text := replace_char 10 (lit " . "%string) text in
  let sentences := re_split false [] text in
  let sentences :=
    map strip (filter (fun s => truthy (strip s) = true) sentences) in
  filter (fun s => 10 <= len s) sentences.

(** The loop of [_get_overlap_text] over [reversed(sentences)], with its
    [break]. *)
Fixpoint overlap_loop (self : t) (reversed : list pystr) (overlap_text : pystr)
  : pystr :=
  match reversed with
  | [] => overlap_text
  | sentence :: rest =>
      if len overlap_text + len sentence <=? overlap self
      then overlap_loop self rest (sentence ++ space ++ overlap_text)
      else overlap_text
  end.

(** [TextChunker._get_overlap_text] *)
Definition _get_overlap_text (self : t) (sentences : list pystr) : pystr :=
  strip (overlap_loop self (rev sentences) []).

(** The local variables of the loop of [chunk_text]. *)
Record loop_state := {
  chunks : list chunk;
  current_chunk : pystr;
  current_chunk_sentences : list pystr
}.

(** One iteration of [for sentence in sentences]. *)
Definition chunk_step (self : t) (src : pystr) (st : loop_state) (sentence : pystr)
  : loop_state :=
  if (chunk_size self <? len (current_chunk st) + len sentence)
     && truthy (current_chunk st)
  then
    let closed := {| text := strip (current_chunk st);
                     source := src;
                     chunk_id := Z.of_nat (length (chunks st));
                     sentences := current_chunk_sentences st |} in
    let overlap_text := _get_overlap_text self (current_chunk_sentences st) in
    {| chunks := chunks st ++ [closed];
       current_chunk := overlap_text ++ space ++ sentence;
       current_chunk_sentences := [sentence] |}
  else
    {| chunks := chunks st;
       current_chunk := current_chunk st ++ space ++ sentence;
       current_chunk_sentences := current_chunk_sentences st ++ [sentence] |}.

Definition chunk_loop (self : t) (src : pystr) (sentences : list pystr)
  : loop_state :=
  fold_left (chunk_step self src) sentences
    {| chunks := []; current_chunk := []; current_chunk_sentences := [] |}.

(** The final chunk is kept when its trimmed text is not empty and at
    least [min_chunk_size] long. *)
Definition final_kept (self : t) (st : loop_state) : bool :=
  truthy (strip (current_chunk st))
  && (min_chunk_size self <=? len (strip (current_chunk st))).

(** [TextChunker.chunk_text] *)
Definition chunk_text (self : t) (text_in : pystr) (src : pystr) : list chunk :=
  if negb (truthy text_in) || (len (strip text_in) <? min_chunk_size self)
  then []
  else
    let st := chunk_loop self src (_split_into_sentences text_in) in
    if final_kept self st
    then chunks st ++ [{| text := strip (current_chunk st);
                          source := src;
                          chunk_id := Z.of_nat (length (chunks st));
                          sentences := current_chunk_sentences st |}]
    else chunks st.

(** The trimmed length of a chunk, as the specification measures it. *)
Definition trimmed_len (c : chunk) : Z := len (strip (text c)).

(** The chunks closed inside the loop, before the final chunk is added. *)
Definition closed_in_loop (self : t) (text_in src : pystr) : list chunk :=
  chunks (chunk_loop self src (_split_into_sentences text_in)).

(** The bounds of the specification: the trimmed length of a chunk lies in
    [[min_chunk_size, chunk_size]]. *)
Definition within_bounds (self : t) (c : chunk) : Prop :=
  min_chunk_size self <= trimmed_len c <= chunk_size self.

(** Every chunk but the last is within the bounds. *)
Definition all_but_last_within (self : t) (cs : list chunk) : Prop :=
  forall (i : nat) (c : chunk),
    cs !! i = Some c -> (S i < length cs)%nat -> within_bounds self c.

(** A text that [strip] leaves as it is. *)
Definition trimmed (s : pystr) : Prop := strip s = s.

(** The sentences are trimmed and at least 10 characters long. *)
Definition sentence_ok (s : pystr) : Prop := trimmed s /\ 10 <= len s.

(** The bound on the length of a running chunk. *)
Definition bound (self : t) (L : Z) : Z :=
  Z.max (chunk_size self + 1) (Z.max (overlap self) 0 + 1 + L).

Definition chunk_ok (self : t) (L : Z) (c : chunk) : Prop :=
  len (text c) <= bound self L /\ 10 <= len (text c) /\ trimmed (text c).

(** The invariant of the loop of [chunk_text]. *)
Definition loop_inv (self : t) (L : Z) (st : loop_state) : Prop :=
  (current_chunk st = []
   \/ (len (current_chunk st) <= bound self L /\ 10 <= len (strip (current_chunk st))))
  /\ Forall (chunk_ok self L) (chunks st).

(** The chunks of a list are numbered from 0, carry the source [src] and
    hold trimmed texts. *)
Definition numbered (src : pystr) (cs : list chunk) : Prop :=
  forall (i : nat) c, cs !! i = Some c ->
    chunk_id c = Z.of_nat i /\ source c = src /\ strip (text c) = text c.

End TextChunker.

(** ** Exceptions and results

    A call either returns a value or raises; the exceptions are those the
    sources and the libraries under them raise. *)
Inductive exn :=
| ValueError
| IndexError
| AssertionError
| TypeError
| KeyError
| HTTPError (status : Z)      (* requests.exceptions.HTTPError *)
| Timeout                     (* requests.exceptions.Timeout *)
| ConnectionError             (* any other requests exception *)
| RetryError                  (* tenacity.RetryError *)
| ModelError.                 (* raised inside SentenceTransformer.encode *)

Inductive result (A : Type) :=
| Ok (a : A)
| Raise (e : exn).
Arguments Ok {A} a.
Arguments Raise {A} e.

#[global] Instance exn_eq_dec : EqDecision exn.
Proof. solve_decision. Defined.

(** ** The libraries under the sources

    What the sources take from [unicodedata], from [numpy]/[faiss] float
    arithmetic, from [json] and [str.format], and from the embedding model
    is kept as interfaces; everything the repository itself computes is
    defined over them. *)

(** [unicodedata.normalize('NFKC', s)] *)
Class Unicodedata := { nfkc : pystr -> pystr }.

(** float32 arithmetic of numpy and faiss: comparison [a >= b], the float
    [0.0], row normalisation [faiss.normalize_L2], the inner product of an
    [IndexFlatIP], and the format [{x:.2f}]. *)
Class Floats := {
  float : Type;
  float_geb : float -> float -> bool;
  float_zero : float;
  normalize_L2 : list float -> list float;
  inner_product : list float -> list float -> float;
  format_2f : float -> pystr
}.

(** [SentenceTransformer.encode(text).tolist()] *)
Class Embedder `{Floats} := { encode : pystr -> result (list float) }.

(** ** rag_system/retrieval/retriever.py: text normalisation *)
Module Normalize.
Section WithUnicode.
Context {U : Unicodedata}.

(** [re.sub(r' +', ' ', s)]: every maximal run of U+0020 becomes one
    space; [in_run] is set while a run is being read. *)
Fixpoint sub_spaces (in_run : bool) (s : pystr) : pystr :=
  match s with
  | [] => []
  | c :: rest =>
      if (c =? 32)%N
      then if in_run then sub_spaces true rest else c :: sub_spaces true rest
      else c :: sub_spaces false rest
  end.

(** [normalize_arabic_text] of retriever.py *)
Definition normalize_arabic_text (text : pystr) : pystr :=
  if negb (truthy text) then text
  else
    let normalized := nfkc text in
    let normalized := sub_spaces false normalized in
    strip normalized.

(** Whether a run of spaces is open after reading [s]. *)
Definition after (b : bool) (s : pystr) : bool :=
  match last s with
  | Some c => (c =? 32)%N
  | None => b
  end.

End WithUnicode.
End Normalize.

(** ** rag_system/vector_store/faiss_store.py *)
Module FaissStore.
Section WithFloats.
Context {FL : Floats}.

(** *** The Python heap

    Metadata records are [dict] objects; the caller and the store hold
    references to them, so the dictionaries live in a heap and are named by
    their locations. *)
Inductive value :=
| VInt (z : Z)
| VStr (s : pystr)
| VFloat (x : float).

Abbreviation dict := (gmap (list N) value) (only parsing).
Abbreviation loc := positive (only parsing).
Abbreviation heap := (gmap positive (gmap (list N) value)) (only parsing).

Definition key_id : pystr := lit "id".
Definition key_text : pystr := lit "text".
Definition key_score : pystr := lit "score".
Definition key_source : pystr := lit "source".

(** [h[l][k] = v], the assignment [meta[k] = v] through a reference. *)
Definition setitem (l : loc) (k : pystr) (v : value) (h : heap) : heap :=
  alter (insert k v) l h.

(** The dictionary a reference points to. *)
Definition deref (h : heap) (l : loc) : dict := default ∅ (h !! l).

(** *** faiss.IndexFlatIP

    An exact inner-product index: the rows added so far, of width [d]. *)
Record index_flat_ip := {
  d : Z;
  rows : list (list float)
}.

(** [faiss.IndexFlatIP(dimension)] *)
Definition IndexFlatIP (dimension : Z) : index_flat_ip :=
  {| d := dimension; rows := [] |}.

(** [index.ntotal] *)
Definition ntotal (idx : index_flat_ip) : Z := Z.of_nat (length (rows idx)).

(** [np.array(embeddings).astype('float32')] followed by
    [faiss.normalize_L2]: the rows must form a matrix.  An empty list gives
    a one-dimensional array, on which [normalize_L2] fails reading
    [shape[1]]; rows of different lengths are refused by numpy. *)
Definition as_matrix (embeddings : list (list float))
  : result (Z * list (list float)) :=
  match embeddings with
  | [] => Raise IndexError
  | row :: _ =>
      if forallb (fun r => Nat.eqb (length r) (length row)) embeddings
      then Ok (Z.of_nat (length row), map normalize_L2 embeddings)
      else Raise ValueError
  end.

(** [index.add(vectors)]: faiss asserts that the width of the matrix is
    the dimension of the index. *)
Definition index_add (idx : index_flat_ip) (width : Z) (vectors : list (list float))
  : result index_flat_ip :=
  if width =? d idx
  then Ok {| d := d idx; rows := rows idx ++ vectors |}
  else Raise AssertionError.

(** Insertion of a scored row into a list kept best first; among equal
    scores the earlier row stays first. *)
Fixpoint insert_desc (x : float * Z) (l : list (float * Z)) : list (float * Z) :=
  match l with
  | [] => [x]
  | y :: l' =>
      if float_geb (fst x) (fst y) then x :: l else y :: insert_desc x l'
  end.

Definition sort_desc (l : list (float * Z)) : list (float * Z) :=
  foldr insert_desc [] l.

(** The inner product of the query with every row, with the row number. *)
Definition score_rows (q : list float) (rs : list (list float)) : list (float * Z) :=
  imap (fun i row => (inner_product q row, Z.of_nat i)) rs.

(** [index.search(query_vector, k)] for one query row: faiss asserts the
    width of the query and [k > 0], and returns the [k] best rows by inner
    product, best first, as (score, row number).  ([search] below never
    asks for more rows than the index holds, so no padding entry with row
    number [-1] is produced.) *)
Definition index_search (idx : index_flat_ip) (q : list float) (k : Z)
  : result (list (float * Z)) :=
  if negb (Z.of_nat (length q) =? d idx) then Raise AssertionError
  else if k <=? 0 then Raise AssertionError
  else Ok (take (Z.to_nat k) (sort_desc (score_rows (normalize_L2 q) (rows idx)))).

(** *** FAISSVectorStore *)

(** The sidecar written by [save]: the metadata list and the
    [id_to_metadata] table, as [json.load] returns them. *)
Record sidecar := {
  sc_metadata : list (gmap (list N) value);
  sc_id_to_metadata : list (Z * gmap (list N) value)
}.

(** The two artifacts on disk, by path. *)
Record disk := {
  index_files : gmap (list N) index_flat_ip;
  metadata_files : gmap (list N) sidecar
}.

Record t := {
  dimension : Z;
  index_path : option pystr;
  metadata_path : option pystr;
  index : index_flat_ip;
  texts : list pystr;
  metadata : list loc;
  id_to_metadata : gmap Z loc
}.

(** [FAISSVectorStore.__init__] *)
Definition __init__ (dimension : Z) (index_path metadata_path : option pystr) : t :=
  {| dimension := dimension;
     index_path := index_path;
     metadata_path := metadata_path;
     index := IndexFlatIP dimension;
     texts := [];
     metadata := [];
     id_to_metadata := ∅ |}.

(** The loop [for i, (text, meta) in enumerate(zip(texts, metadata))] of
    [add_vectors]; [i] is the counter of [enumerate]. *)
Fixpoint add_loop (start_id : Z) (i : nat) (pairs : list (pystr * loc))
    (self : t) (h : heap) : t * heap :=
  match pairs with
  | [] => (self, h)
  | (text, meta) :: rest =>
      let doc_id := start_id + Z.of_nat i in
      let h := setitem meta key_id (VInt doc_id) h in
      let h := setitem meta key_text (VStr text) h in
      let self := {| dimension := dimension self;
                     index_path := index_path self;
                     metadata_path := metadata_path self;
                     index := index self;
                     texts := texts self ++ [text];
                     metadata := metadata self ++ [meta];
                     id_to_metadata := <[doc_id := meta]> (id_to_metadata self) |} in
      add_loop start_id (S i) rest self h
  end.

Definition set_index (self : t) (idx : index_flat_ip) : t :=
  {| dimension := dimension self;
     index_path := index_path self;
     metadata_path := metadata_path self;
     index := idx;
     texts := texts self;
     metadata := metadata self;
     id_to_metadata := id_to_metadata self |}.

(** [FAISSVectorStore.add_vectors]: the outcome, and the store and heap
    the call leaves behind. *)
Definition add_vectors (self : t) (h : heap)
    (embeddings : list (list float)) (texts_in : list pystr) (metadata_in : list loc)
  : result unit * (t * heap) :=
  if negb (Nat.eqb (length embeddings) (length metadata_in))
     || negb (Nat.eqb (length embeddings) (length texts_in))
  then (Raise ValueError, (self, h))
  else
    match as_matrix embeddings with
    | Raise e => (Raise e, (self, h))
    | Ok (width, vectors) =>
        let start_id := ntotal (index self) in
        match index_add (index self) width vectors with
        | Raise e => (Raise e, (self, h))
        | Ok idx =>
            (Ok tt, add_loop start_id 0 (zip texts_in metadata_in)
                      (set_index self idx) h)
        end
    end.

(** The loop of [search] over [zip(scores[0], indices[0])]. *)
Fixpoint gather (self : t) (h : heap) (found : list (float * Z))
  : list (gmap (list N) value) :=
  match found with
  | [] => []
  | (score, idx) :: rest =>
      if (idx <? 0) || (Z.of_nat (length (metadata self)) <=? idx)
      then gather self h rest
      else
        let result := match metadata self !! Z.to_nat idx with
                      | Some l => deref h l
                      | None => ∅
                      end in
        <[key_score := VFloat score]> result :: gather self h rest
  end.

(** [FAISSVectorStore.search]; it changes neither the store nor the
    heap. *)
Definition search (self : t) (h : heap) (query_embedding : list float) (top_k : Z)
  : result (list (gmap (list N) value)) :=
  if ntotal (index self) =? 0 then Ok []
  else
    match index_search (index self) query_embedding
            (Z.min top_k (ntotal (index self))) with
    | Raise e => Raise e
    | Ok found => Ok (gather self h found)
    end.

(** [FAISSVectorStore.clear] *)
Definition clear (self : t) : t :=
  {| dimension := dimension self;
     index_path := index_path self;
     metadata_path := metadata_path self;
     index := IndexFlatIP (dimension self);
     texts := texts self;
     metadata := [];
     id_to_metadata := ∅ |}.

(** Allocation of the dictionaries [json.load] builds. *)
Fixpoint alloc_all (ds : list (gmap (list N) value)) (h : heap) : list loc * heap :=
  match ds with
  | [] => ([], h)
  | dct :: rest =>
      let l := fresh (dom h) in
      let '(ls, h') := alloc_all rest (<[l := dct]> h) in
      (l :: ls, h')
  end.

Fixpoint alloc_table (kvs : list (Z * gmap (list N) value)) (h : heap)
  : gmap Z loc * heap :=
  match kvs with
  | [] => (∅, h)
  | (k, dct) :: rest =>
      let l := fresh (dom h) in
      let '(m, h') := alloc_table rest (<[l := dct]> h) in
      (<[k := l]> m, h')
  end.

(** [m.get('text', '')] *)
Definition get_text (dct : gmap (list N) value) : pystr :=
  match dct !! key_text with
  | Some (VStr s) => s
  | _ => []
  end.

(** [FAISSVectorStore.load] *)
Definition load (self : t) (h : heap) (fs : disk) : t * heap :=
  let self :=
    match index_path self with
    | Some p => match index_files fs !! p with
                | Some idx => set_index self idx
                | None => self
                end
    | None => self
    end in
  match metadata_path self with
  | Some p =>
      match metadata_files fs !! p with
      | Some data =>
          let '(ls, h) := alloc_all (sc_metadata data) h in
          let '(tbl, h) := alloc_table (sc_id_to_metadata data) h in
          ({| dimension := dimension self;
              index_path := index_path self;
              metadata_path := metadata_path self;
              index := index self;
              texts := map get_text (sc_metadata data);
              metadata := ls;
              id_to_metadata := tbl |}, h)
      | None => (self, h)
      end
  | None => (self, h)
  end.

(** The invariant of the data model: as many indexed vectors as texts as
    metadata records. *)
Definition counts_agree (self : t) : Prop :=
  ntotal (index self) = Z.of_nat (length (texts self))
  /\ length (texts self) = length (metadata self).

(** The score a result of [search] carries. *)
Definition score_of (r : gmap (list N) value) : option float :=
  match r !! key_score with
  | Some (VFloat x) => Some x
  | _ => None
  end.

(** The order of the scores, and of the scored rows. *)
Definition geb_rel (a b : float) : Prop := float_geb a b = true.
Definition row_rel (x y : float * Z) : Prop := geb_rel x.1 y.1.

(** The rows [gather] keeps: those whose number names a record. *)
Definition kept (self : t) (found : list (float * Z)) : list (float * Z) :=
  List.filter (fun p => negb ((p.2 <? 0) || (Z.of_nat (length (metadata self)) <=? p.2)))
    found.

(** The identifier table and the metadata list name the same records, under
    the identifiers 0, 1, ... in the order of insertion, and the counts
    agree. *)
Definition well_formed (self : t) : Prop :=
  counts_agree self
  /\ (forall i : nat, id_to_metadata self !! Z.of_nat i = metadata self !! i)
  /\ (forall k : Z, k < 0 -> id_to_metadata self !! k = None).

(** [FAISSVectorStore.save]: when both paths are set, the index is written
    to [index_path] and the records to [metadata_path], by value as
    [json.dump] writes them; the keys of [id_to_metadata] are written as
    strings and read back by [int], which is kept as the identity on the
    integers.  The two artifacts are kept apart, as they are for two paths
    that differ. *)
Definition save (self : t) (h : heap) (fs : disk) : disk :=
  match index_path self, metadata_path self with
  | Some ip, Some mp =>
      {| index_files := <[ip := index self]> (index_files fs);
         metadata_files :=
           <[mp := {| sc_metadata := map (deref h) (metadata self);
                      sc_id_to_metadata :=
                        map_to_list (deref h <$> id_to_metadata self) |}]>
             (metadata_files fs) |}
  | _, _ => fs
  end.

End WithFloats.
End FaissStore.

(** ** rag_system/llm/gemini_llm.py *)
Module GeminiLLM.

(** *** The network

    A response of the service, as the client reads it. *)
Record response := {
  status_code : Z;
  (** what [response.json()['choices'][0]['message']['content']]
      evaluates to: the text, or the exception of a malformed body *)
  message_content : result pystr;
  (** the lines [response.iter_lines()] delivers *)
  iter_lines : list pystr;
  (** the exception [iter_lines] raises after its last line, when the
      connection breaks *)
  broken : option exn
}.

(** What [requests.post] does: a response arrives, or the call raises. *)
Inductive reply :=
| Responds (r : response)
| Throws (e : exn).

(** What the client does to the outside, in order. *)
Inductive event :=
| Post (stream : bool)     (* requests.post(..., stream=stream) *)
| Sleep (secs : Z)         (* time.sleep, or the wait of tenacity *)
| Generate.                (* a call of self.generate *)

#[global] Instance event_eq_dec : EqDecision event.
Proof. solve_decision. Defined.

(** The service answers the n-th request of a run with [server n]. *)
Record world := {
  server : nat -> reply;
  posts : nat;
  trace : list event
}.

(** What one decoded payload of the stream gives the loop body:
    [json.loads(data)] and the lookups
    [chunk['choices'][0].get('delta', {}).get('content', '')]. *)
Inductive delta :=
| DecodeError              (* json.JSONDecodeError *)
| Content (c : pystr)      (* the content, '' when there is none *)
| Malformed (e : exn).     (* a payload on which the lookups raise *)

(** The text tools of the client: the clean-up steps of
    [postprocess_arabic_output] after its guard (NFKC, the regular
    expressions on quoted text, white space), [json.loads] with the look-ups
    of the streaming loop, and [template.format(context=, question=)]. *)
Class TextTools := {
  cleanup : pystr -> pystr;
  decode_delta : pystr -> delta;
  str_format : pystr -> pystr -> pystr -> pystr
}.

(** *** A state and exception monad over the world *)
Definition M (A : Type) : Type := world -> result A * world.

Definition ret {A} (a : A) : M A := fun w => (Ok a, w).
Definition raise {A} (e : exn) : M A := fun w => (Raise e, w).
Definition bind {A B} (m : M A) (k : A -> M B) : M B :=
  fun w => match m w with
           | (Ok a, w') => k a w'
           | (Raise e, w') => (Raise e, w')
           end.
(** [try: m  except Exception as e: handler e] *)
Definition try_except {A} (m : M A) (handler : exn -> M A) : M A :=
  fun w => match m w with
           | (Ok a, w') => (Ok a, w')
           | (Raise e, w') => handler e w'
           end.

Notation "x <- m ;; k" := (bind m (fun x => k))
  (at level 100, m at next level, right associativity).
Notation "m ;;; k" := (bind m (fun _ => k))
  (at level 100, right associativity).

Definition log (ev : event) : M unit :=
  fun w => (Ok tt, {| server := server w; posts := posts w;
                      trace := trace w ++ [ev] |}).

(** [time.sleep(secs)] *)
Definition sleep (secs : Z) : M unit := log (Sleep secs).

(** [requests.post(self.generate_url, ..., stream=stream)] *)
Definition post (stream : bool) : M response :=
  fun w =>
    let w' := {| server := server w; posts := S (posts w);
                 trace := trace w ++ [Post stream] |} in
    match server w (posts w) with
    | Responds r => (Ok r, w')
    | Throws e => (Raise e, w')
    end.

(** [response.raise_for_status()] *)
Definition raise_for_status (r : response) : M unit :=
  if (400 <=? status_code r) && (status_code r <? 600)
  then raise (HTTPError (status_code r))
  else ret tt.

Definition lift {A} (r : result A) : M A :=
  match r with Ok a => ret a | Raise e => raise e end.

Section WithTools.
Context {TT : TextTools}.

(** [postprocess_arabic_output] *)
Definition postprocess_arabic_output (text : pystr) : pystr :=
  if negb (truthy text) then text else cleanup text.

(** The body of [generate], under the decorator. *)
Definition generate_body : M pystr :=
  try_except
    (response <- post false ;;
     (if status_code response =? 429
      then sleep 2 ;;; raise_for_status response
      else ret tt) ;;;
     raise_for_status response ;;;
     content <- lift (message_content response) ;;
     ret (postprocess_arabic_output content))
    (fun e => raise e).

(** [retry_if_exception_type((HTTPError, Timeout))] *)
Definition retry_if_exception_type (e : exn) : bool :=
  match e with
  | HTTPError _ | Timeout => true
  | _ => false
  end.

(** [wait_exponential(multiplier=1, min=2, max=30)] after the attempt
    numbered [attempt_number] (from 1). *)
Definition wait_exponential (attempt_number : nat) : Z :=
  Z.max (Z.max 0 2) (Z.min (1 * 2 ^ (Z.of_nat attempt_number - 1)) 30).

(** The loop of tenacity's [retry]: [remaining] is the number of attempts
    [stop_after_attempt] still allows after the one numbered
    [attempt_number]. *)
Fixpoint retrying {A} (remaining : nat) (attempt_number : nat) (body : M A) : M A :=
  fun w =>
    match body w with
    | (Ok a, w') => (Ok a, w')
    | (Raise e, w') =>
        if retry_if_exception_type e
        then match remaining with
             | O => (Raise RetryError, w')
             | S remaining' =>
                 (sleep (wait_exponential attempt_number) ;;;
                  retrying remaining' (S attempt_number) body) w'
             end
        else (Raise e, w')
    end.

(** [stop_after_attempt(5)] *)
Definition max_attempt_number : nat := 5.

(** [GeminiLLM.generate], decorated *)
Definition generate (prompt : pystr) : M pystr :=
  log Generate ;;; retrying (max_attempt_number - 1) 1 generate_body.

(** [GeminiLLM.answer_question] *)
Definition answer_question (question context system_prompt_template : pystr)
  : M pystr :=
  let prompt := str_format system_prompt_template context question in
  answer <- generate prompt ;;
  ret (postprocess_arabic_output answer).

(** *** Streaming

    A generator run to its end: the fragments it yielded, and the
    exception it ended with, if any. *)
Record stream := {
  yielded : list pystr;
  raised : option exn
}.

(** The fallback of [stream_generate]:
    [try: r = self.generate(prompt); if r: yield r  except Exception: log] *)
Definition fallback (prompt : pystr) (w : world) : list pystr * world :=
  match generate prompt w with
  | (Ok non_stream_response, w') =>
      (if truthy non_stream_response then [non_stream_response] else [], w')
  | (Raise _, w') => ([], w')
  end.

(** How the loop over the lines ends. *)
Inductive lines_exit :=
| Returned                       (* [return] at the [DONE] marker *)
| Exhausted (chunks_yielded : nat) (* the lines ran out *)
| Failed (e : exn).              (* an exception left the loop *)

(** [for line in response.iter_lines()]: the fragments yielded and the
    way the loop ends. *)
Fixpoint read_lines (prompt : pystr) (lines : list pystr) (chunks_yielded : nat)
    (w : world) : list pystr * lines_exit * world :=
  match lines with
  | [] => ([], Exhausted chunks_yielded, w)
  | line :: rest =>
      if truthy line && startswith line (lit "data: ")
      then
        let data := drop 6 line in
        if eqb (strip data) (lit "[DONE]")
        then
          if Nat.eqb chunks_yielded 0
          then let '(out, w') := fallback prompt w in (out, Returned, w')
          else ([], Returned, w)
        else
          match decode_delta data with
          | DecodeError => read_lines prompt rest chunks_yielded w
          | Malformed e => ([], Failed e, w)
          | Content content =>
              if truthy content
              then let '(out, ex, w') :=
                     read_lines prompt rest (S chunks_yielded) w in
                   (content :: out, ex, w')
              else read_lines prompt rest chunks_yielded w
          end
      else read_lines prompt rest chunks_yielded w
  end.

(** The statements of one attempt after [raise_for_status]: the loop over
    the lines, then the code after it. *)
Definition consume (prompt : pystr) (r : response) (w : world)
  : list pystr * option exn * world :=
  match read_lines prompt (iter_lines r) 0 w with
  | (out, Returned, w') => (out, None, w')
  | (out, Failed e, w') => (out, Some e, w')
  | (out, Exhausted chunks_yielded, w') =>
      match broken r with
      | Some e => (out, Some e, w')
      | None =>
          if Nat.eqb chunks_yielded 0
          then let '(out', w'') := fallback prompt w' in (out ++ out', None, w'')
          else (out, None, w')
      end
  end.

(** [min(2 ** attempt, 30)] *)
Definition wait_time (attempt : nat) : Z := Z.min (2 ^ Z.of_nat attempt) 30.

Definition run {A} (m : M A) (w : world) : world := snd (m w).

(** The [except] clauses of one attempt, for an exception [e] raised after
    the fragments [out] were yielded: a rate-limit [HTTPError] is kept as
    [last_error] and the loop continues after a pause ([continue] is the rest
    of the loop); any other exception is raised again. *)
Definition on_error (attempt : nat)
    (continue : option exn -> world -> stream * world)
    (out : list pystr) (e : exn) (w : world) : stream * world :=
  match e with
  | HTTPError 429 =>
      let w := run (sleep (wait_time attempt)) w in
      let '(s, w) := continue (Some e) w in
      ({| yielded := out ++ yielded s; raised := raised s |}, w)
  | _ => ({| yielded := out; raised := Some e |}, w)
  end.

(** [for attempt in range(max_retries)] of [stream_generate], from
    [attempt] on with [remaining] iterations left, and the code after the
    loop. *)
Fixpoint attempts (prompt : pystr) (remaining : nat) (attempt : nat)
    (last_error : option exn) (w : world) : stream * world :=
  match remaining with
  | O =>
      match last_error with
      | Some e => ({| yielded := []; raised := Some e |}, w)
      | None => ({| yielded := []; raised := None |}, w)
      end
  | S remaining' =>
      let handler := on_error attempt (attempts prompt remaining' (S attempt)) in
      match post true w with
      | (Raise e, w) => handler [] e w
      | (Ok response, w) =>
          if status_code response =? 429
          then
            let w := run (sleep (wait_time attempt)) w in
            attempts prompt remaining' (S attempt) last_error w
          else
            match raise_for_status response w with
            | (Raise e, w) => handler [] e w
            | (Ok _, w) =>
                match consume prompt response w with
                | (out, None, w) => ({| yielded := out; raised := None |}, w)
                | (out, Some e, w) => handler out e w
                end
            end
      end
  end.

(** [GeminiLLM.stream_generate] *)
Definition stream_generate (prompt : pystr) (max_retries : Z) (w : world)
  : stream * world :=
  attempts prompt (Z.to_nat max_retries) 0 None w.

(** *** The ends of a stream

    A line on which the loop yields nothing and goes on to the next. *)
Definition silent_line (line : pystr) : bool :=
  if truthy line && startswith line (lit "data: ")
  then
    let data := drop 6 line in
    if eqb (strip data) (lit "[DONE]") then false
    else match decode_delta data with
         | DecodeError => true
         | Content content => negb (truthy content)
         | Malformed _ => false
         end
  else true.

(** The end-of-stream marker. *)
Definition done_line (line : pystr) : bool :=
  truthy line && startswith line (lit "data: ")
  && eqb (strip (drop 6 line)) (lit "[DONE]").

(** A response whose stream ends with no fragment: (a) at a marker before
    which every line is silent, or (b) by the connection closing after
    silent lines only. *)
Definition ends_empty (r : response) : Prop :=
  (exists pre line rest,
     iter_lines r = pre ++ line :: rest
     /\ forallb silent_line pre = true /\ done_line line = true)
  \/ (forallb silent_line (iter_lines r) = true /\ broken r = None).

(** The lines of a stream before its end marker. *)
Fixpoint before_marker (lines : list pystr) : list pystr :=
  match lines with
  | [] => []
  | line :: rest => if done_line line then [] else line :: before_marker rest
  end.

(** The fragment a line carries: the non-empty content of a data line whose
    payload decodes. *)
Definition fragment_of (line : pystr) : option pystr :=
  if truthy line && startswith line (lit "data: ")
  then match decode_delta (drop 6 line) with
       | Content content => if truthy content then Some content else None
       | _ => None
       end
  else None.

(** A data line whose payload decodes to a shape the look-ups reject. *)
Definition malformed_line (line : pystr) : bool :=
  truthy line && startswith line (lit "data: ")
  && match decode_delta (drop 6 line) with Malformed _ => true | _ => false end.

(** The fragments of a stream: those of its lines before the marker, in
    order. *)
Definition fragments (lines : list pystr) : list pystr :=
  omap fragment_of (before_marker lines).

(** The events of [generate] when its first [k] requests are rate limited:
    after the request numbered i the body pauses 2 seconds and tenacity waits
    [wait_exponential i]. *)
Fixpoint rate_limited_events (attempt_number : nat) (k : nat) : list event :=
  match k with
  | O => []
  | S k' => [Post false; Sleep 2; Sleep (wait_exponential attempt_number)]
            ++ rate_limited_events (S attempt_number) k'
  end.

(** The fallback as the specification words it: a stream whose response
    ends with no fragment yields the result of the one call of [generate]
    as its only fragment. *)
Definition yields_fallback_result (prompt : pystr) (max_retries : Z) (w : world)
  : Prop :=
  forall r text w2,
    server w (posts w) = Responds r ->
    status_code r <> 429 ->
    (status_code r < 400 \/ 600 <= status_code r) ->
    ends_empty r ->
    generate prompt (run (post true) w) = (Ok text, w2) ->
    yielded (stream_generate prompt max_retries w).1 = [text].

(** What the fallback yields for an outcome of [generate]. *)
Definition fallback_fragments (out : result pystr) : list pystr :=
  match out with
  | Ok text => if truthy text then [text] else []
  | Raise _ => []
  end.

End WithTools.

(** The number of calls of [generate] in a trace. *)
Definition is_generate (ev : event) : bool :=
  match ev with Generate => true | _ => false end.
Definition generate_calls (tr : list event) : nat :=
  length (List.filter is_generate tr).

(** The number of requests in a trace. *)
Definition is_post (ev : event) : bool :=
  match ev with Post _ => true | _ => false end.
Definition requests (tr : list event) : nat :=
  length (List.filter is_post tr).

(** The longest pause a trace holds is at most [secs]. *)
Definition pauses_within (secs : Z) (tr : list event) : Prop :=
  Forall (fun ev => match ev with Sleep n => n <= secs | _ => True end) tr.

(** The world [w'] is [w] after the events [evs]: the service is the same,
    the trace and the count of requests have grown by [evs]. *)
Definition extends (w w' : world) (evs : list event) : Prop :=
  server w' = server w
  /\ trace w' = trace w ++ evs
  /\ posts w' = (posts w + requests evs)%nat.

End GeminiLLM.

(** ** rag_system/retrieval/retriever.py: the retrieval engine *)
Module Retriever.
Section WithLibraries.
Context {U : Unicodedata} {FL : Floats} {E : Embedder}.
Import FaissStore.

(** The attributes set by [RetrievalEngine.__init__]; the embedder is the
    instance [E], the vector store is passed to the methods. *)
Record t := {
  top_k : Z;
  min_score : float
}.

(** [embedder.embed_query(query)], which is [embed_text]. *)
Definition embed_query (query : pystr) : result (list float) := encode query.

(** The fields of a result.  In every record [search] returns from a store
    filled by [add_vectors], 'text' and 'source' hold strings and 'score' a
    float; a field of another type is read as absent. *)
Definition get_score (r : gmap (list N) value) : float :=
  match r !! key_score with Some (VFloat x) => x | _ => float_zero end.
Definition get_source (r : gmap (list N) value) : pystr :=
  match r !! key_source with Some (VStr s) => s | _ => lit "unknown" end.

(** [RetrievalEngine.retrieve] *)
Definition retrieve (self : t) (store : FaissStore.t) (h : gmap positive (gmap (list N) value))
    (query : pystr) (top_k_arg : option Z) (min_score_arg : option float)
  : result (list (gmap (list N) value)) :=
  let top_k := default (top_k self) top_k_arg in
  let min_score := default (min_score self) min_score_arg in
  match embed_query query with
  | Raise e => Raise e
  | Ok query_embedding =>
      match search store h query_embedding top_k with
      | Raise e => Raise e
      | Ok results =>
          Ok (List.filter (fun r => float_geb (get_score r) min_score) results)
      end
  end.

(** "لا توجد معلومات متاحة." (no information available), the string
    [format_context] returns for an empty list. *)
Definition no_information_available : pystr :=
  [1604; 1575; 32; 1578; 1608; 1580; 1583; 32; 1605; 1593; 1604; 1608; 1605;
   1575; 1578; 32; 1605; 1578; 1575; 1581; 1577; 46]%N.

(** "[مصدر " and " (درجة التشابه: " of the source label. *)
Definition label_open : pystr := [91; 1605; 1589; 1583; 1585; 32]%N.
Definition label_score : pystr :=
  [32; 40; 1583; 1585; 1580; 1577; 32; 1575; 1604; 1578; 1588; 1575; 1576;
   1607; 58; 32]%N.

(** [str(i)] for the counter of [enumerate(results, 1)]. *)
Definition str_of_nat (i : nat) : pystr := lit (pretty.pretty i).

(** The f-string appended for the [i]-th result. *)
Definition context_part (i : nat) (r : gmap (list N) value) : pystr :=
  let text := Normalize.normalize_arabic_text (get_text r) in
  label_open ++ str_of_nat i ++ lit ": " ++ get_source r
    ++ label_score ++ format_2f (get_score r) ++ lit ")]" ++ newline
    ++ text ++ newline.

(** [RetrievalEngine.format_context] *)
Definition format_context (results : list (gmap (list N) value)) : pystr :=
  match results with
  | [] => no_information_available
  | _ :: _ => join newline (imap (fun i r => context_part (S i) r) results)
  end.

(** [RetrievalEngine.retrieve_and_format] *)
Definition retrieve_and_format (self : t) (store : FaissStore.t)
    (h : gmap positive (gmap (list N) value)) (query : pystr) (top_k : Z)
  : result (pystr * list (gmap (list N) value)) :=
  match retrieve self store h query (Some top_k) None with
  | Raise e => Raise e
  | Ok results => Ok (format_context results, results)
  end.

End WithLibraries.
End Retriever.

(** ** rag_system/pipeline/rag_pipeline.py *)
Module RAGPipeline.
Section WithLibraries.
Context {U : Unicodedata} {FL : Floats} {E : Embedder} {TT : GeminiLLM.TextTools}.
Import FaissStore GeminiLLM.

(** The components [RAGPipeline.__init__] builds that [query] uses. *)
Record t := {
  system_prompt : pystr;            (* self.config.system_prompt *)
  vector_store : FaissStore.t;
  retriever : Retriever.t
}.

(** One entry of [response["sources"]]. *)
Record source := {
  src_text : pystr;
  src_score : float;
  src_metadata : gmap (list N) value
}.

(** The dictionary [query] returns; 'context' and 'sources' are present
    only when asked for. *)
Record answer_dict := {
  question : pystr;
  answer : pystr;
  context : option pystr;
  sources : option (list source)
}.

(** "لا توجد معلومات ذات صلة." (no relevant information), the string
    [query] compares the context with. *)
Definition no_relevant_information : pystr :=
  [1604; 1575; 32; 1578; 1608; 1580; 1583; 32; 1605; 1593; 1604; 1608; 1605;
   1575; 1578; 32; 1584; 1575; 1578; 32; 1589; 1604; 1577; 46]%N.

(** "عذراً، لم أجد معلومات كافية للإجابة على هذا السؤال في المراجع المتاحة."
    the answer given without a generation call. *)
Definition insufficient_information : pystr :=
  [1593; 1584; 1585; 1575; 1611; 1548; 32; 1604; 1605; 32; 1571; 1580; 1583;
   32; 1605; 1593; 1604; 1608; 1605; 1575; 1578; 32; 1603; 1575; 1601; 1610;
   1577; 32; 1604; 1604; 1573; 1580; 1575; 1576; 1577; 32; 1593; 1604; 1609;
   32; 1607; 1584; 1575; 32; 1575; 1604; 1587; 1572; 1575; 1604; 32; 1601;
   1610; 32; 1575; 1604; 1605; 1585; 1575; 1580; 1593; 32; 1575; 1604; 1605;
   1578; 1575; 1581; 1577; 46]%N.

Definition make_source (r : gmap (list N) value) : source :=
  {| src_text := get_text r;
     src_score := Retriever.get_score r;
     src_metadata := delete key_score (delete key_text r) |}.

(** [RAGPipeline.query] *)
Definition query (self : t) (h : gmap positive (gmap (list N) value))
    (question_in : pystr) (return_context : bool) : M answer_dict :=
  cr <- lift (Retriever.retrieve_and_format (retriever self) (vector_store self)
                h question_in 5) ;;
  let '(context_str, results) := cr in
  answer_str <-
    (if negb (truthy context_str) || eqb context_str no_relevant_information
     then ret insufficient_information
     else answer_question question_in context_str (system_prompt self)) ;;
  ret {| question := question_in;
         answer := answer_str;
         context := if return_context then Some context_str else None;
         sources := if return_context then Some (map make_source results)
                    else None |}.

End WithLibraries.
End RAGPipeline.

(** ** rag_system/chunking/text_chunker.py: documents and directories *)
Module Documents.
Import TextChunker.

(** The values the dictionaries of the chunker hold: strings, integers and
    lists of strings. *)
Inductive pyobj :=
| PStr (s : pystr)
| PInt (z : Z)
| PList (items : list pystr).

(** A file the pattern matches: the stem of its name, [str(file_path)], and
    what [open(doc_path).read()] gives, the text or an exception. *)
Record file := {
  stem : pystr;
  path_str : pystr;
  read : result pystr
}.

Definition key_text : pystr := lit "text".
Definition key_source : pystr := lit "source".
Definition key_chunk_id : pystr := lit "chunk_id".
Definition key_sentences : pystr := lit "sentences".
Definition key_chunk_index : pystr := lit "chunk_index".

(** The dictionary [chunk_text] appends for a chunk. *)
Definition as_dict (c : chunk) : gmap (list N) pyobj :=
  {[ key_text := PStr (text c);
     key_source := PStr (source c);
     key_chunk_id := PInt (chunk_id c);
     key_sentences := PList (sentences c) ]}.

(** [TextChunker.chunk_document]: any exception of the [try] block gives
    the empty list. *)
Definition chunk_document (self : t) (doc_path : file)
  : list (gmap (list N) pyobj) :=
  match read doc_path with
  | Ok text => map as_dict (chunk_text self text (stem doc_path))
  | Raise _ => []
  end.

(** [chunk['text']]; the 'text' of a chunk is a string. *)
Definition subscript_text (chunk : gmap (list N) pyobj) : result pystr :=
  match chunk !! key_text with
  | Some (PStr s) => Ok s
  | _ => Raise KeyError
  end.

(** [chunk.get(key, default)] *)
Definition get (chunk : gmap (list N) pyobj) (key : pystr) (default : pyobj)
  : pyobj :=
  match chunk !! key with
  | Some v => v
  | None => default
  end.

(** The three lists [chunk_directory] fills. *)
Record lists := {
  all_chunks : list (gmap (list N) pyobj);
  all_texts : list pystr;
  all_metadata : list (gmap (list N) pyobj)
}.

(** [for chunk in chunks] *)
Fixpoint chunks_loop (file_path : file) (chunks : list (gmap (list N) pyobj))
    (st : lists) : result lists :=
  match chunks with
  | [] => Ok st
  | chunk :: rest =>
      match subscript_text chunk with
      | Raise e => Raise e
      | Ok chunk_text =>
          chunks_loop file_path rest
            {| all_chunks := all_chunks st;
               all_texts := all_texts st ++ [chunk_text];
               all_metadata :=
                 all_metadata st
                 ++ [{[ key_source :=
                          get chunk key_source (PStr (path_str file_path));
                        key_chunk_index := get chunk key_chunk_index (PInt 0) ]}] |}
      end
  end.

(** [for file_path in files] *)
Fixpoint files_loop (self : t) (files : list file) (st : lists) : result lists :=
  match files with
  | [] => Ok st
  | file_path :: rest =>
      if startswith (stem file_path) (lit ".") then files_loop self rest st
      else
        let chunks := chunk_document self file_path in
        match chunks_loop file_path chunks st with
        | Raise e => Raise e
        | Ok st =>
            files_loop self rest
              {| all_chunks := all_chunks st ++ chunks;
                 all_texts := all_texts st;
                 all_metadata := all_metadata st |}
        end
  end.

(** [TextChunker.chunk_directory], on the files
    [list(dir_path.glob(pattern))]. *)
Definition chunk_directory (self : t) (files : list file)
  : result (list pystr * list (gmap (list N) pyobj)) :=
  match files_loop self files
          {| all_chunks := []; all_texts := []; all_metadata := [] |} with
  | Ok st => Ok (all_texts st, all_metadata st)
  | Raise e => Raise e
  end.

(** The files [chunk_directory] reads: those whose stem does not start
    with a dot. *)
Definition visible (files : list file) : list file :=
  List.filter (fun f => negb (startswith (stem f) (lit "."))) files.

(** The texts of the chunks of one file, none for a file that cannot be
    read. *)
Definition texts_of (self : t) (f : file) : list pystr :=
  match read f with
  | Ok content => map text (chunk_text self content (stem f))
  | Raise _ => []
  end.

(** The record kept for every chunk of the file of stem [s]. *)
Definition record_of (s : pystr) : gmap (list N) pyobj :=
  {[ key_source := PStr s; key_chunk_index := PInt 0 ]}.

(** The texts of the chunks of a directory, file after file, and the stem
    of the file of each. *)
Definition new_texts (self : t) (files : list file) : list pystr :=
  flat_map (texts_of self) (visible files).
Definition new_sources (self : t) (files : list file) : list pystr :=
  flat_map (fun f => replicate (length (texts_of self f)) (stem f))
    (visible files).

End Documents.

(** ** rag_system/embeddings/gemini_embeddings.py *)
Module Embeddings.

(** [SentenceTransformer.encode(batch)] on a list of texts, with
    [tolist()] on every row. *)
Class BatchEmbedder `{Floats} := {
  encode_batch : list pystr -> result (list (list float))
}.

Section WithModel.
Context {FL : Floats} {E : Embedder} {BE : BatchEmbedder}.

(** [GeminiEmbeddings.embed_text]: the exception is logged and raised
    again. *)
Definition embed_text (text : pystr) : result (list float) := encode text.

(** [range(0, total, step)] for a positive [step]: the multiples of [step]
    below [total], of which there are [(total + step - 1) // step]. *)
Definition range_by (total step : nat) : list nat :=
  map (fun k => k * step)%nat (seq 0 ((total + step - 1) / step)).

(** [texts[i:i + n]] *)
Definition slice (texts : list pystr) (i n : nat) : list pystr :=
  take n (drop i texts).

(** [[0.0] * 768] *)
Definition zero_vector : list float := replicate 768 float_zero.

(** The fallback of a batch: every text on its own, and the zero vector
    for a text that fails again. *)
Definition embed_one_by_one (batch : list pystr) : list (list float) :=
  map (fun text => match embed_text text with
                   | Ok embedding => embedding
                   | Raise _ => zero_vector
                   end) batch.

(** The body of the loop over the batches: what it appends. *)
Definition embed_batch (batch : list pystr) : list (list float) :=
  match encode_batch batch with
  | Ok batch_embeddings => batch_embeddings
  | Raise _ => embed_one_by_one batch
  end.

(** [GeminiEmbeddings.embed_texts]; [range] refuses a step of 0 and is
    empty for a negative one. *)
Definition embed_texts (texts : list pystr) (batch_size : Z)
  : result (list (list float)) :=
  if batch_size =? 0 then Raise ValueError
  else if batch_size <? 0 then Ok []
  else
    let n := Z.to_nat batch_size in
    Ok (flat_map (fun i => embed_batch (slice texts i n))
          (range_by (length texts) n)).

(** [GeminiEmbeddings.embed_query] *)
Definition embed_query (query : pystr) : result (list float) := embed_text query.

(** The model returns one row for every text of a batch. *)
Definition one_row_per_text : Prop :=
  forall batch rows, encode_batch batch = Ok rows -> length rows = length batch.

End WithModel.
End Embeddings.

(** ** rag_system/pipeline/rag_pipeline.py: indexing *)
Module Indexing.
Section WithLibraries.
Context {U : Unicodedata} {FL : Floats} {E : Embedder}
        {BE : Embeddings.BatchEmbedder} {TT : GeminiLLM.TextTools}.
Import FaissStore Documents.

(** How a call of [index_documents] ends. *)
Inductive outcome :=
| Completed                   (* the call returns *)
| FileNotFoundError           (* the directory does not exist *)
| Failed (e : exn).           (* another exception leaves the call *)

(** A record of the chunker as the store holds it; its values are strings
    and integers. *)
Definition stored (record : gmap (list N) pyobj) : gmap (list N) value :=
  omap (fun v => match v with
                 | PStr s => Some (VStr s)
                 | PInt z => Some (VInt z)
                 | PList _ => None
                 end) record.

(** [RAGPipeline.index_documents]: [dir_exists] is [text_path.exists()],
    [files] the files of the directory that match the pattern; the records
    [chunk_directory] built are new objects of the heap. *)
Definition index_documents (self : RAGPipeline.t) (chunker : TextChunker.t)
    (h : gmap positive (gmap (list N) value)) (dir_exists : bool)
    (files : list file)
  : outcome * (FaissStore.t * gmap positive (gmap (list N) value)) :=
  let store := RAGPipeline.vector_store self in
  if negb dir_exists then (FileNotFoundError, (store, h))
  else
    match chunk_directory chunker files with
    | Raise e => (Failed e, (store, h))
    | Ok (chunks, metadata) =>
        match chunks with
        | [] => (Completed, (store, h))
        | _ :: _ =>
            match Embeddings.embed_texts chunks 32 with
            | Raise e => (Failed e, (store, h))
            | Ok vectors =>
                let '(records, h) := alloc_all (map stored metadata) h in
                match add_vectors store h vectors chunks records with
                | (Ok _, sh) => (Completed, sh)
                | (Raise e, sh) => (Failed e, sh)
                end
            end
        end
    end.

End WithLibraries.
End Indexing.

(** ** rag_system/llm/gemini_llm.py: presentation forms *)
Module LLMText.
Section WithUnicode.
Context {U : Unicodedata}.

(** Arabic Presentation Forms-A and -B: U+FB50-FDFF and U+FE70-FEFF. *)
Definition presentation_form (code : N) : bool :=
  ((64336 <=? code) && (code <=? 65023)
   || (65136 <=? code) && (code <=? 65279))%N.

(** The class of [arabic_pattern]: U+0600-06FF and the presentation
    forms. *)
Definition arabic (code : N) : bool :=
  ((1536 <=? code) && (code <=? 1791))%N || presentation_form code.

(** The [while] loop over the characters and [''.join(result)]. *)
Definition fix_chars (normalized : pystr) : pystr :=
  flat_map (fun char => if presentation_form char then nfkc [char] else [char])
    normalized.

(** [fix_reversed_arabic], on the text of a match. *)
Definition fix_reversed_arabic (segment : pystr) : pystr :=
  if existsb presentation_form segment then nfkc segment else segment.

(** What is written for the run read so far when it ends; an empty run is
    no match. *)
Definition close_run (segment : pystr) : pystr :=
  match segment with
  | [] => []
  | _ :: _ => fix_reversed_arabic segment
  end.

(** [re.sub(arabic_pattern, fix_reversed_arabic, text)]: every maximal run
    of the class is replaced; [segment] is the run being read. *)
Fixpoint sub_arabic (segment : pystr) (s : pystr) : pystr :=
  match s with
  | [] => close_run segment
  | c :: rest =>
      if arabic c then sub_arabic (segment ++ [c]) rest
      else close_run segment ++ c :: sub_arabic [] rest
  end.

(** [normalize_arabic_text] of gemini_llm.py *)
Definition normalize_arabic_text (text : pystr) : pystr :=
  if negb (truthy text) then text
  else
    let normalized := nfkc text in
    let text := fix_chars normalized in
    sub_arabic [] text.

End WithUnicode.
End LLMText.

(** ** Streaming and batch answers: gemini_llm.py and rag_pipeline.py *)
Module Answers.
Section WithLibraries.
Context {U : Unicodedata} {FL : Floats} {E : Embedder} {TT : GeminiLLM.TextTools}.
Import FaissStore GeminiLLM RAGPipeline.

(** [GeminiLLM.stream_answer_question], with the template it is given;
    [stream_generate] runs with its default of 5 attempts. *)
Definition stream_answer_question (question context system_prompt_template : pystr)
    (w : world) : stream * world :=
  let prompt := str_format system_prompt_template context question in
  let '(s, w) := stream_generate prompt 5 w in
  ({| yielded := map LLMText.normalize_arabic_text (yielded s);
      raised := raised s |}, w).

(** [RAGPipeline.stream_query] *)
Definition stream_query (self : RAGPipeline.t)
    (h : gmap positive (gmap (list N) value)) (question_in : pystr) (w : world)
  : stream * world :=
  match Retriever.retrieve_and_format (retriever self) (vector_store self)
          h question_in 5 with
  | Raise e => ({| yielded := []; raised := Some e |}, w)
  | Ok (context_str, results) =>
      if negb (truthy context_str) || eqb context_str no_relevant_information
      then ({| yielded := [insufficient_information]; raised := None |}, w)
      else stream_answer_question question_in context_str (system_prompt self) w
  end.

(** [RAGPipeline.batch_query]: [[self.query(q) for q in questions]] *)
Fixpoint batch_query (self : RAGPipeline.t)
    (h : gmap positive (gmap (list N) value)) (questions : list pystr)
  : M (list answer_dict) :=
  match questions with
  | [] => ret []
  | q :: rest =>
      d <- query self h q false ;;
      ds <- batch_query self h rest ;;
      ret (d :: ds)
  end.

End WithLibraries.
End Answers.

(** ** backend/api.py *)
Module Api.

(** What an endpoint gives: its response, or an [HTTPException] with a
    status code. *)
Inductive http_reply (A : Type) :=
| Response (a : A)
| HTTPException (status_code : Z).
Arguments Response {A} a.
Arguments HTTPException {A} status_code.

Section WithLibraries.
Context {U : Unicodedata} {FL : Floats} {E : Embedder} {TT : GeminiLLM.TextTools}.
Import FaissStore GeminiLLM RAGPipeline Answers.

(** [ChatRequest] *)
Record ChatRequest := {
  request_question : pystr;
  return_context : bool
}.

(** The pipeline whose vector store is [store]. *)
Definition with_store (pipeline : RAGPipeline.t) (store : FaissStore.t)
  : RAGPipeline.t :=
  {| system_prompt := system_prompt pipeline;
     vector_store := store;
     retriever := retriever pipeline |}.

(** The checks [chat] and [chat_stream] make before they answer: the
    status they refuse the request with, if any. *)
Definition refused (pipeline : option RAGPipeline.t) (request : ChatRequest)
  : option Z :=
  match pipeline with
  | None => Some 503
  | Some pipeline =>
      if negb (truthy (request_question request))
         || negb (truthy (strip (request_question request)))
      then Some 400
      else if Z.of_nat (length (texts (vector_store pipeline))) =? 0 then Some 400
      else None
  end.

(** [chat] *)
Definition chat (pipeline : option RAGPipeline.t)
    (h : gmap positive (gmap (list N) value)) (request : ChatRequest) (w : world)
  : http_reply answer_dict * world :=
  match pipeline, refused pipeline request with
  | _, Some status => (HTTPException status, w)
  | None, None => (HTTPException 503, w)
  | Some pipeline, None =>
      match query pipeline h (request_question request) (return_context request) w with
      | (Ok result, w) => (Response result, w)
      | (Raise _, w) => (HTTPException 500, w)
      end
  end.

(** The events of a streamed answer: a content event, the error event,
    and the end marker. *)
Inductive frame :=
| Data (content : pystr)
| Error
| Done.

(** The local variables of [generate]. *)
Record flags := {
  has_content : bool;
  chunk_count : nat;
  error_sent : bool
}.

(** [for chunk in pipeline.stream_query(request.question)], over the
    chunks the stream yields. *)
Fixpoint chunks_loop (chunks : list pystr) (fl : flags) : list frame * flags :=
  match chunks with
  | [] => ([], fl)
  | chunk :: rest =>
      if negb (truthy chunk) then chunks_loop rest fl
      else
        let '(frames, fl) :=
          chunks_loop rest {| has_content := true;
                              chunk_count := S (chunk_count fl);
                              error_sent := error_sent fl |} in
        (Data chunk :: frames, fl)
  end.

(** [if not error_sent: yield the error event; error_sent = True] *)
Definition send_error (fl : flags) : list frame * flags :=
  if error_sent fl then ([], fl)
  else ([Error], {| has_content := has_content fl;
                    chunk_count := chunk_count fl;
                    error_sent := true |}).

(** The fallback to [pipeline.query] of a stream without content. *)
Definition fallback_query (pipeline : RAGPipeline.t)
    (h : gmap positive (gmap (list N) value)) (request : ChatRequest)
    (fl : flags) (w : world) : list frame * flags * world :=
  match query pipeline h (request_question request) false w with
  | (Ok result, w) =>
      if truthy (answer result)
      then ([Data (answer result)],
            {| has_content := true; chunk_count := chunk_count fl;
               error_sent := error_sent fl |}, w)
      else ([], fl, w)
  | (Raise _, w) => let '(frames, fl) := send_error fl in (frames, fl, w)
  end.

(** The generator [generate] of [chat_stream], run to its end. *)
Definition generate_events (pipeline : RAGPipeline.t)
    (h : gmap positive (gmap (list N) value)) (request : ChatRequest) (w : world)
  : list frame * world :=
  let fl := {| has_content := false; chunk_count := 0; error_sent := false |} in
  let '(s, w) := stream_query pipeline h (request_question request) w in
  let '(frames, fl) := chunks_loop (yielded s) fl in
  match raised s with
  | Some _ =>
      let '(error_frames, fl) := send_error fl in
      (frames ++ error_frames ++ [Done], w)
  | None =>
      let '(more, fl, w) :=
        if negb (has_content fl) then fallback_query pipeline h request fl w
        else ([], fl, w) in
      (frames ++ more ++ [Done], w)
  end.

(** [chat_stream] *)
Definition chat_stream (pipeline : option RAGPipeline.t)
    (h : gmap positive (gmap (list N) value)) (request : ChatRequest) (w : world)
  : http_reply (list frame) * world :=
  match pipeline, refused pipeline request with
  | _, Some status => (HTTPException status, w)
  | None, None => (HTTPException 503, w)
  | Some pipeline, None =>
      let '(frames, w) := generate_events pipeline h request w in
      (Response frames, w)
  end.

(** The shape of a streamed answer: content events with content, then at
    most one error event, then the end marker. *)
Definition is_content (f : frame) : bool :=
  match f with Data content => truthy content | _ => false end.
Definition well_shaped (frames : list frame) : Prop :=
  exists contents tail,
    frames = contents ++ tail
    /\ forallb is_content contents = true
    /\ (tail = [Done] \/ tail = [Error; Done]).

End WithLibraries.
End Api.

(** ** backend/api.py: the index endpoint *)
Module ApiIndex.
Section WithLibraries.
Context {U : Unicodedata} {FL : Floats} {E : Embedder}
        {BE : Embeddings.BatchEmbedder} {TT : GeminiLLM.TextTools}.
Import FaissStore Documents Indexing Api.

(** What leaves the [try] block of the endpoint: the [HTTPException] the
    block raises itself, or any other exception. *)
Inductive raised_in_try :=
| HTTP (status_code : Z)
| Other.

(** What the endpoint reads and changes: the pipeline, the heap of the
    records and the disk. *)
Record state := {
  pipeline : option RAGPipeline.t;
  records : gmap positive (gmap (list N) value);
  files_on_disk : disk
}.

(** [RAGPipeline.save_index]: [mkdir] is what [path_obj.mkdir(...)] gives,
    [index_file] and [metadata_file] are [path_obj / "index.faiss"] and
    [path_obj / "metadata.json"]. *)
Definition save_index (store : FaissStore.t)
    (h : gmap positive (gmap (list N) value)) (fs : disk) (mkdir : result unit)
    (index_file metadata_file : pystr) : result (FaissStore.t * disk) :=
  match mkdir with
  | Raise e => Raise e
  | Ok _ =>
      let store := {| dimension := dimension store;
                      index_path := Some index_file;
                      metadata_path := Some metadata_file;
                      index := index store;
                      texts := texts store;
                      metadata := metadata store;
                      id_to_metadata := id_to_metadata store |} in
      Ok (store, save store h fs)
  end.

(** The [try] block of [index_documents], for a pipeline that is set:
    [dir_exists] is [Path(text_dir).exists()], [files] the files the
    chunker finds there. *)
Definition try_block (p : RAGPipeline.t) (chunker : TextChunker.t) (st : state)
    (dir_exists : bool) (files : list file) (mkdir : result unit)
    (index_file metadata_file : pystr) : (Z + raised_in_try) * state :=
  if negb dir_exists then (inr (HTTP 400), st)
  else
    match index_documents p chunker (records st) dir_exists files with
    | (Completed, (store, h)) =>
        let st := {| pipeline := Some (with_store p store);
                     records := h;
                     files_on_disk := files_on_disk st |} in
        match save_index store h (files_on_disk st) mkdir index_file metadata_file with
        | Raise _ => (inr Other, st)
        | Ok (store, fs) =>
            let num_docs := Z.of_nat (length (texts store)) in
            (inl num_docs,
             {| pipeline := Some (with_store p store);
                records := h;
                files_on_disk := fs |})
        end
    | (_, (store, h)) =>
        (inr Other, {| pipeline := Some (with_store p store);
                       records := h;
                       files_on_disk := files_on_disk st |})
    end.

(** The endpoint [index_documents]: its answer is the number of documents
    of the [IndexResponse]; [except Exception] turns whatever leaves the
    [try] block into the status 500. *)
Definition index_endpoint (chunker : TextChunker.t) (st : state)
    (dir_exists : bool) (files : list file) (mkdir : result unit)
    (index_file metadata_file : pystr) : http_reply Z * state :=
  match pipeline st with
  | None => (HTTPException 503, st)
  | Some p =>
      match try_block p chunker st dir_exists files mkdir
              index_file metadata_file with
      | (inl num_docs, st) => (Response num_docs, st)
      | (inr _, st) => (HTTPException 500, st)
      end
  end.

End WithLibraries.
End ApiIndex.

(** ** Small instances of the library interfaces

    Used to run the definitions on concrete inputs. *)
Module Instances.

(** NFKC on text whose only compatibility character is the no-break
    space U+00A0, which it folds to U+0020. *)
Definition fold_compat (c : N) : N := if (c =? 160)%N then 32%N else c.
#[export] Instance unicode_nbsp : Unicodedata := {| nfkc := map fold_compat |}.

(** Integer "floats": exact arithmetic, no normalisation. *)
Fixpoint dot (a b : list Z) : Z :=
  match a, b with
  | x :: a', y :: b' => x * y + dot a' b'
  | _, _ => 0
  end.
#[export] Instance floats_Z : Floats :=
  {| float := Z;
     float_geb := Z.geb;
     float_zero := 0;
     normalize_L2 := fun v => v;
     inner_product := dot;
     format_2f := fun x => lit (pretty.pretty x) ++ lit ".00" |}.

(** An embedding model that maps a text to its length. *)
#[export] Instance embedder_len : Embedder := {| encode := fun s => Ok [len s] |}.

(** A stream whose payloads are the fragments themselves; the payload "?"
    does not decode and "!" decodes to a shape the look-ups reject. *)
#[export] Instance tools_plain : GeminiLLM.TextTools :=
  {| GeminiLLM.cleanup := strip;
     GeminiLLM.decode_delta := fun data =>
       if eqb data (lit "?") then GeminiLLM.DecodeError
       else if eqb data (lit "!") then GeminiLLM.Malformed TypeError
       else GeminiLLM.Content data;
     GeminiLLM.str_format := fun template context question =>
       template ++ context ++ question |}.

(** Two empty metadata dictionaries at the locations 1 and 2, and a store of
    dimension 2 before and after the texts "a" and "b" are added with them. *)
Definition two_dicts : gmap positive (gmap (list N) FaissStore.value) :=
  {[ 1%positive := ∅; 2%positive := ∅ ]}.
Definition empty_store : FaissStore.t := FaissStore.__init__ 2 None None.
Definition vectors_ab : list (list Z) := [[3; 4]; [0; 5]].
Definition texts_ab : list (list N) := [lit "a"; lit "b"].
Definition added_ab :
  result unit * (FaissStore.t * gmap positive (gmap (list N) FaissStore.value)) :=
  FaissStore.add_vectors empty_store two_dicts vectors_ab texts_ab
    [1%positive; 2%positive].

(** Responses and services for the client. *)
Definition ok_response (content : list N) (lines : list (list N)) : GeminiLLM.response :=
  {| GeminiLLM.status_code := 200;
     GeminiLLM.message_content := Ok content;
     GeminiLLM.iter_lines := lines;
     GeminiLLM.broken := None |}.
Definition error_response (status : Z) : GeminiLLM.response :=
  {| GeminiLLM.status_code := status;
     GeminiLLM.message_content := Raise KeyError;
     GeminiLLM.iter_lines := [];
     GeminiLLM.broken := None |}.
Definition fresh_world (server : nat -> GeminiLLM.reply) : GeminiLLM.world :=
  {| GeminiLLM.server := server; GeminiLLM.posts := 0; GeminiLLM.trace := [] |}.
(** A service that answers every request with the status [status]. *)
Definition always_status (status : Z) : nat -> GeminiLLM.reply :=
  fun _ => GeminiLLM.Responds (error_response status).
(** A service whose streams hold only the end marker and whose plain answers
    are the text [content]. *)
Definition empty_stream_service (content : list N) : nat -> GeminiLLM.reply :=
  fun _ => GeminiLLM.Responds (ok_response content [lit "data: [DONE]"]).
Definition a_prompt : list N := lit "prompt".

(** A pipeline over the empty store, and a service that answers "generated". *)
Definition empty_pipeline : RAGPipeline.t :=
  {| RAGPipeline.system_prompt := lit "template ";
     RAGPipeline.vector_store := empty_store;
     RAGPipeline.retriever := {| Retriever.top_k := 5; Retriever.min_score := 0 |} |}.
Definition a_question : list N := lit "question".
Definition answering_service : nat -> GeminiLLM.reply :=
  fun _ => GeminiLLM.Responds (ok_response (lit "generated") []).

(** A store with its two paths set, after "a" and "b" are added, and an
    empty disk. *)
Definition path_store : FaissStore.t :=
  FaissStore.__init__ 2 (Some (lit "index.faiss")) (Some (lit "metadata.json")).
Definition saved_ab :
  result unit * (FaissStore.t * gmap positive (gmap (list N) FaissStore.value)) :=
  FaissStore.add_vectors path_store two_dicts vectors_ab texts_ab
    [1%positive; 2%positive].
Definition empty_disk : FaissStore.disk :=
  {| FaissStore.index_files := ∅; FaissStore.metadata_files := ∅ |}.

(** A store of width 1, the width of the embeddings of [embedder_len], with
    the rows [2] and [7], and what a retrieval with threshold 5 returns. *)
Definition added_len :
  result unit * (FaissStore.t * gmap positive (gmap (list N) FaissStore.value)) :=
  FaissStore.add_vectors (FaissStore.__init__ 1 None None) two_dicts [[2]; [7]]
    texts_ab [1%positive; 2%positive].
Definition engine_5 : Retriever.t :=
  {| Retriever.top_k := 5; Retriever.min_score := 5 |}.

(** A service that answers the first three requests with the status 429
    and every later one with the text "generated". *)
Definition limited_service : nat -> GeminiLLM.reply :=
  fun n => if (n <? 3)%nat then GeminiLLM.Responds (error_response 429)
           else GeminiLLM.Responds (ok_response (lit "generated") []).

(** A service whose streams carry the fragments "ab" and "cd", an
    undecodable payload and the end marker. *)
Definition streaming_service : nat -> GeminiLLM.reply :=
  fun _ => GeminiLLM.Responds
             (ok_response (lit "unused")
                [lit "data: ab"; []; lit "data: ?"; lit "data: cd";
                 lit "data: [DONE]"; lit "data: late"]).

(** A batch model that maps every text to its length, one that refuses
    every batch, and a model that refuses the empty text. *)
Definition batch_by_len : Embeddings.BatchEmbedder :=
  {| Embeddings.encode_batch := fun batch => Ok (map (fun s => [len s]) batch) |}.
Definition batch_refusing : Embeddings.BatchEmbedder :=
  {| Embeddings.encode_batch := fun _ => Raise ModelError |}.
Definition embedder_nonempty : Embedder :=
  {| encode := fun s => if truthy s then Ok [len s] else Raise ModelError |}.

(** A pipeline over the store of width 1, a chunker for short texts, and a
    directory with a document of three sentences, a hidden file and a file
    that cannot be read. *)
Definition pipeline_len : RAGPipeline.t :=
  {| RAGPipeline.system_prompt := lit "template ";
     RAGPipeline.vector_store := added_len.2.1;
     RAGPipeline.retriever := engine_5 |}.
Definition small_chunker : TextChunker.t :=
  {| TextChunker.chunk_size := 20; TextChunker.overlap := 0;
     TextChunker.min_chunk_size := 5 |}.
Definition a_directory : list Documents.file :=
  [ {| Documents.stem := lit "doc"; Documents.path_str := lit "dir/doc.txt";
       Documents.read :=
         Ok (lit "aaaaaaaaaa. bbbbbbbbbbbbbbbbbbbbbbbbb. cccccccccc") |};
    {| Documents.stem := lit ".hidden"; Documents.path_str := lit "dir/.hidden.txt";
       Documents.read := Ok (lit "dddddddddd. eeeeeeeeee") |};
    {| Documents.stem := lit "broken"; Documents.path_str := lit "dir/broken.txt";
       Documents.read := Raise ValueError |} ].
Definition indexed_directory :
  Indexing.outcome * (FaissStore.t * gmap positive (gmap (list N) FaissStore.value)) :=
  Indexing.index_documents (BE := batch_by_len) pipeline_len small_chunker
    added_len.2.2 true a_directory.

(** The state of the server with that pipeline and an empty disk. *)
Definition serving_len : ApiIndex.state :=
  {| ApiIndex.pipeline := Some pipeline_len;
     ApiIndex.records := added_len.2.2;
     ApiIndex.files_on_disk := empty_disk |}.

End Instances.

(* ===================================================================== *)
(** * Part II: theorems                                                   *)
(* ===================================================================== *)

(** ** Strings *)
Module PyStrFacts.

Lemma len_app (s t : pystr) : len (s ++ t) = len s + len t.
Proof. unfold len. rewrite length_app. lia. Qed.

Lemma len_nonneg (s : pystr) : 0 <= len s.
Proof. unfold len. lia. Qed.

(** Goals on the lengths of concatenations. *)
Ltac len_lia :=
  unfold len, space in *;
  repeat (progress (rewrite ?length_app in *; cbn [length] in *)); lia.

Lemma lstrip_length (s : pystr) : (length (lstrip s) <= length s)%nat.
Proof.
  induction s as [|c s IH]; simpl; [lia|].
  destruct (isspace c); simpl; lia.
Qed.

Lemma rstrip_length (s : pystr) : (length (rstrip s) <= length s)%nat.
Proof.
  unfold rstrip. rewrite length_rev.
  etransitivity; [apply lstrip_length|]. by rewrite length_rev.
Qed.

Lemma strip_length (s : pystr) : (length (strip s) <= length s)%nat.
Proof.
  unfold strip. etransitivity; [apply rstrip_length|apply lstrip_length].
Qed.

Lemma len_strip (s : pystr) : len (strip s) <= len s.
Proof. unfold len. pose proof (strip_length s). lia. Qed.

(** [lstrip] removes a prefix of white space. *)
Lemma lstrip_app (s t : pystr) :
  lstrip (s ++ t) = if forallb isspace s then lstrip t else lstrip s ++ t.
Proof.
  induction s as [|c s IH]; simpl; [done|].
  destruct (isspace c); simpl; [exact IH|done].
Qed.

Lemma lstrip_suffix (s : pystr) : exists p, s = p ++ lstrip s /\ forallb isspace p = true.
Proof.
  induction s as [|c s [p [Hp Hs]]]; simpl.
  - by exists [].
  - destruct (isspace c) eqn:Hc.
    + exists (c :: p). simpl. rewrite Hc, Hs. split; [by f_equal|done].
    + by exists [].
Qed.

(** What is left by [lstrip] does not start with white space. *)
Lemma lstrip_head (s : pystr) c t : lstrip s = c :: t -> isspace c = false.
Proof.
  induction s as [|x s IH]; simpl; [done|].
  destruct (isspace x) eqn:Hx; [done|]. intros [= -> _]. done.
Qed.

Lemma lstrip_id (s : pystr) c t : s = c :: t -> isspace c = false -> lstrip s = s.
Proof. intros -> H. simpl. by rewrite H. Qed.

Lemma lstrip_idem (s : pystr) : lstrip (lstrip s) = lstrip s.
Proof.
  destruct (lstrip s) as [|c t] eqn:E; [done|].
  eapply lstrip_id; [done|]. eapply lstrip_head, E.
Qed.

Lemma rstrip_idem (s : pystr) : rstrip (rstrip s) = rstrip s.
Proof. unfold rstrip. by rewrite rev_involutive, lstrip_idem. Qed.

Lemma rstrip_snoc_space (s : pystr) c :
  isspace c = true -> rstrip (s ++ [c]) = rstrip s.
Proof. intros H. unfold rstrip. rewrite rev_app_distr. simpl. by rewrite H. Qed.

Lemma rstrip_snoc_nonspace (s : pystr) c :
  isspace c = false -> rstrip (s ++ [c]) = s ++ [c].
Proof.
  intros H. unfold rstrip. rewrite rev_app_distr. simpl. rewrite H.
  simpl. by rewrite rev_involutive.
Qed.

(** [rstrip] keeps the first character of what it leaves. *)
Lemma rstrip_cons (c : N) (s : pystr) :
  isspace c = false -> rstrip (c :: s) = c :: rstrip s.
Proof.
  intros Hc. induction s as [|x s IH] using rev_ind.
  - change [c] with ([] ++ [c]). rewrite rstrip_snoc_nonspace by done. done.
  - change (c :: s ++ [x]) with ((c :: s) ++ [x]).
    destruct (isspace x) eqn:Hx.
    + by rewrite !rstrip_snoc_space.
    + by rewrite !rstrip_snoc_nonspace.
Qed.

(** After [strip], nothing is left to strip on the left. *)
Lemma lstrip_strip (s : pystr) : lstrip (strip s) = strip s.
Proof.
  unfold strip. destruct (lstrip s) as [|c t] eqn:E; [done|].
  pose proof (lstrip_head _ _ _ E) as Hc.
  rewrite rstrip_cons by done. simpl. by rewrite Hc.
Qed.

Lemma strip_idem (s : pystr) : strip (strip s) = strip s.
Proof.
  unfold strip at 1. rewrite lstrip_strip. unfold strip.
  apply rstrip_idem.
Qed.

End PyStrFacts.


(** ** retriever.py: normalisation is idempotent *)
Module NormalizeFacts.
Import PyStrFacts Normalize.

Lemma sub_spaces_length b (s : pystr) :
  (length (sub_spaces b s) <= length s)%nat.
Proof.
  revert b. induction s as [|c s IH]; intros b; simpl; [lia|].
  pose proof (IH true). pose proof (IH false).
  destruct (c =? 32)%N; [destruct b|]; simpl; lia.
Qed.

Lemma sub_spaces_app b (s t : pystr) :
  sub_spaces b (s ++ t) = sub_spaces b s ++ sub_spaces (after b s) t.
Proof.
  revert b. induction s as [|c s IH]; intros b; [done|].
  assert (Hafter : after b (c :: s) = after ((c =? 32)%N) s).
  { unfold after. destruct s as [|x s']; [done|].
    change (last (c :: x :: s')) with (last (x :: s')).
    destruct (last (x :: s')) eqn:E; [done|]. by apply last_None in E. }
  rewrite Hafter. simpl. destruct (c =? 32)%N eqn:Hc.
  - destruct b; by rewrite IH.
  - by rewrite IH.
Qed.

(** A string without a run of two spaces is left as it is. *)
Lemma sub_spaces_true_fixed (s : pystr) :
  sub_spaces true s = s -> sub_spaces false s = s.
Proof.
  destruct s as [|c s]; [done|]. simpl.
  destruct (c =? 32)%N; [|done].
  intros E. pose proof (sub_spaces_length true s) as Hl.
  rewrite E in Hl. simpl in Hl. lia.
Qed.

Lemma sub_spaces_fixed_prefix (s t : pystr) :
  sub_spaces false (s ++ t) = s ++ t -> sub_spaces false s = s.
Proof.
  rewrite sub_spaces_app. intros E.
  pose proof (sub_spaces_length false s). 
  pose proof (sub_spaces_length (after false s) t).
  apply (f_equal length) in E as El. rewrite !length_app in El.
  apply app_inj_1 in E; [tauto|lia].
Qed.

Lemma sub_spaces_fixed_suffix (s t : pystr) :
  sub_spaces false (s ++ t) = s ++ t -> sub_spaces false t = t.
Proof.
  rewrite sub_spaces_app. intros E.
  pose proof (sub_spaces_length false s).
  pose proof (sub_spaces_length (after false s) t).
  apply (f_equal length) in E as El. rewrite !length_app in El.
  apply app_inj_1 in E; [|lia]. destruct E as [_ E].
  destruct (after false s); [by apply sub_spaces_true_fixed|done].
Qed.

Lemma sub_spaces_idem b (s : pystr) :
  sub_spaces false (sub_spaces b s) = sub_spaces b s
  /\ (b = true -> sub_spaces true (sub_spaces b s) = sub_spaces b s).
Proof.
  revert b. induction s as [|c s IH]; intros b; [done|]. simpl.
  destruct (c =? 32)%N eqn:Hc.
  - destruct b.
    + destruct (IH true) as [IH1 IH2]. split; [done|auto].
    + destruct (IH true) as [IH1 IH2]. simpl. rewrite Hc.
      split; [by rewrite IH2|done].
  - destruct (IH false) as [IH1 _]. simpl. rewrite Hc, IH1. done.
Qed.

Lemma rstrip_prefix (s : pystr) : exists q, s = rstrip s ++ q.
Proof.
  destruct (lstrip_suffix (rev s)) as [p [Hp _]].
  exists (rev p). unfold rstrip.
  rewrite <- rev_app_distr, <- Hp. by rewrite rev_involutive.
Qed.

(** Trimming a string without runs of spaces leaves no run. *)
Lemma sub_spaces_strip (s : pystr) :
  sub_spaces false s = s -> sub_spaces false (strip s) = strip s.
Proof.
  intros Hs. unfold strip.
  destruct (lstrip_suffix s) as [p [Hp _]].
  destruct (rstrip_prefix (lstrip s)) as [q Hq].
  rewrite Hp in Hs. apply sub_spaces_fixed_suffix in Hs.
  rewrite Hq in Hs. by apply sub_spaces_fixed_prefix in Hs.
Qed.

Section Idempotent.
Context {U : Unicodedata}.

(** What the proof takes from the Unicode standard: NFKC is idempotent,
    and a normalised text stays normalised when runs of spaces are shortened
    and when white space is trimmed at its ends (white space is a starter that
    takes part in no canonical composition, and neither operation brings two
    other characters together). *)
Hypothesis nfkc_idem : forall s, nfkc (nfkc s) = nfkc s.
Hypothesis nfkc_sub_spaces :
  forall s, nfkc s = s -> nfkc (sub_spaces false s) = sub_spaces false s.
Hypothesis nfkc_strip : forall s, nfkc s = s -> nfkc (strip s) = strip s.

(** C10: [normalize_arabic_text] of retriever.py is idempotent: normalising
    a normalised text changes nothing. *)
Theorem normalize_arabic_text_idempotent (s : pystr) :
  normalize_arabic_text (normalize_arabic_text s) = normalize_arabic_text s.
Proof.
  destruct (truthy s) eqn:Hs.
  2:{ unfold normalize_arabic_text. by rewrite Hs; simpl; rewrite Hs. }
  set (t := strip (sub_spaces false (nfkc s))).
  assert (Ht : normalize_arabic_text s = t).
  { unfold normalize_arabic_text. by rewrite Hs. }
  assert (Hn : nfkc t = t) by (apply nfkc_strip, nfkc_sub_spaces, nfkc_idem).
  assert (Hf : sub_spaces false t = t).
  { apply sub_spaces_strip. apply (sub_spaces_idem false). }
  rewrite Ht. unfold normalize_arabic_text.
  destruct (truthy t); simpl; [|done].
  rewrite Hn, Hf. apply strip_idem.
Qed.

End Idempotent.

(** The small NFKC instance has the three properties. *)
Lemma fold_compat_fixed (s : pystr) :
  nfkc (Unicodedata := Instances.unicode_nbsp) s = s
  <-> Forall (fun c => Instances.fold_compat c = c) s.
Proof.
  simpl. induction s as [|c s IH]; simpl.
  - split; [constructor|done].
  - split.
    + intros [= Hc Hs]. constructor; [done|by apply IH].
    + intros Hall. inversion Hall; subst. f_equal; [done|by apply IH].
Qed.

Lemma Forall_sub_spaces (P : N -> Prop) b (s : pystr) :
  Forall P s -> Forall P (sub_spaces b s).
Proof.
  revert b. induction s as [|c s IH]; intros b Hs; [done|].
  inversion Hs; subst. simpl.
  destruct (c =? 32)%N; [destruct b|]; try constructor; auto.
Qed.

Lemma Forall_lstrip (P : N -> Prop) (s : pystr) : Forall P s -> Forall P (lstrip s).
Proof.
  induction s as [|c s IH]; intros Hs; [done|].
  inversion Hs; subst. simpl. destruct (isspace c); auto.
Qed.

Lemma Forall_strip (P : N -> Prop) (s : pystr) : Forall P s -> Forall P (strip s).
Proof.
  intros Hs. unfold strip, rstrip.
  apply Forall_rev, Forall_lstrip, Forall_rev, Forall_lstrip, Hs.
Qed.

Lemma nbsp_idem (s : pystr) :
  nfkc (Unicodedata := Instances.unicode_nbsp)
    (nfkc (Unicodedata := Instances.unicode_nbsp) s)
  = nfkc (Unicodedata := Instances.unicode_nbsp) s.
Proof.
  apply fold_compat_fixed. simpl. apply Forall_map, Forall_forall.
  intros c _. simpl. unfold Instances.fold_compat.
  destruct (c =? 160)%N eqn:E; [done|]. by rewrite E.
Qed.

Lemma nbsp_sub_spaces (s : pystr) :
  nfkc (Unicodedata := Instances.unicode_nbsp) s = s ->
  nfkc (Unicodedata := Instances.unicode_nbsp)
    (sub_spaces false s)
  = sub_spaces false s.
Proof.
  intros Hs. apply fold_compat_fixed, Forall_sub_spaces.
  by apply fold_compat_fixed.
Qed.

Lemma nbsp_strip (s : pystr) :
  nfkc (Unicodedata := Instances.unicode_nbsp) s = s ->
  nfkc (Unicodedata := Instances.unicode_nbsp) (strip s) = strip s.
Proof.
  intros Hs. apply fold_compat_fixed, Forall_strip.
  by apply fold_compat_fixed.
Qed.

(** The theorem at the text " a<NBSP><NBSP> b " under the small instance. *)
Lemma normalize_arabic_text_idempotent_witness :
  normalize_arabic_text (U := Instances.unicode_nbsp)
    (normalize_arabic_text (U := Instances.unicode_nbsp) [32; 97; 160; 160; 32; 98; 32]%N)
  = normalize_arabic_text (U := Instances.unicode_nbsp) [32; 97; 160; 160; 32; 98; 32]%N.
Proof.
  apply (normalize_arabic_text_idempotent (U := Instances.unicode_nbsp)
           nbsp_idem nbsp_sub_spaces nbsp_strip).
Defined.

End NormalizeFacts.


(** ** text_chunker.py: the length of the chunks *)
Module TextChunkerFacts.
Import PyStrFacts TextChunker.

Lemma trimmed_lstrip (s : pystr) : trimmed s -> lstrip s = s.
Proof. unfold trimmed. intros <-. apply lstrip_strip. Qed.

Lemma trimmed_rstrip (s : pystr) : trimmed s -> rstrip s = s.
Proof.
  intros Hs. pose proof (trimmed_lstrip s Hs) as Hl.
  unfold trimmed, strip in Hs. by rewrite Hl in Hs.
Qed.

Lemma rstrip_last (s t : pystr) c : rstrip s = t ++ [c] -> isspace c = false.
Proof.
  unfold rstrip. intros E. apply (f_equal (@rev N)) in E.
  rewrite rev_involutive, rev_app_distr in E. simpl in E.
  eapply lstrip_head, E.
Qed.

(** Trimming keeps a trimmed, non-empty text at the end of a text whole. *)
Lemma strip_app_trimmed (y s : pystr) :
  trimmed s -> s <> [] -> exists y', strip (y ++ s) = y' ++ s.
Proof.
  intros Hs Hne.
  assert (Hl : exists y'', lstrip (y ++ s) = y'' ++ s).
  { rewrite lstrip_app. destruct (forallb isspace y).
    - exists []. by rewrite trimmed_lstrip.
    - by exists (lstrip y). }
  destruct Hl as [y'' Hl]. exists y''. unfold strip. rewrite Hl.
  destruct (exists_last Hne) as [s' [c Hc]].
  assert (isspace c = false).
  { eapply rstrip_last. rewrite trimmed_rstrip by done. exact Hc. }
  rewrite Hc, app_assoc. by apply rstrip_snoc_nonspace.
Qed.

Lemma len_strip_app_trimmed (y s : pystr) :
  trimmed s -> s <> [] -> len s <= len (strip (y ++ s)).
Proof.
  intros Hs Hne. destruct (strip_app_trimmed y s Hs Hne) as [y' ->].
  rewrite len_app. pose proof (len_nonneg y'). lia.
Qed.

Lemma sentence_ok_nonempty (s : pystr) : sentence_ok s -> s <> [].
Proof. intros [_ H] ->. unfold len in H. simpl in H. lia. Qed.

Lemma split_sentences_ok (text_in : pystr) :
  Forall sentence_ok (_split_into_sentences text_in).
Proof.
  unfold _split_into_sentences. apply Forall_forall. intros s Hs.
  apply list_elem_of_filter in Hs as [Hlen Hs].
  apply list_elem_of_fmap in Hs as [x [-> _]].
  split; [apply strip_idem|done].
Qed.

(** *** The overlap seed fits the overlap budget. *)
Lemma overlap_loop_shape (self : t) (reversed : list pystr) (ot : pystr) :
  (ot = [] \/ exists x, ot = x ++ space /\ len ot <= overlap self + 1) ->
  let r := overlap_loop self reversed ot in
  r = [] \/ exists x, r = x ++ space /\ len r <= overlap self + 1.
Proof.
  revert ot. induction reversed as [|s rest IH]; intros ot Hot; simpl; [done|].
  destruct (Z.leb_spec (len ot + len s) (overlap self)) as [Hle|Hgt]; [|done].
  apply IH. right. destruct Hot as [->|[x [-> Hx]]].
  - exists s. split; [done|].
    len_lia.
  - exists (s ++ space ++ x). split; [by rewrite <- !app_assoc|].
    len_lia.
Qed.

Lemma strip_snoc_space_len (x : pystr) : len (strip (x ++ space)) <= len x.
Proof.
  unfold strip, space. rewrite lstrip_app.
  destruct (forallb isspace x); simpl.
  - unfold len. simpl. lia.
  - rewrite rstrip_snoc_space by done.
    unfold len. pose proof (rstrip_length (lstrip x)).
    pose proof (lstrip_length x). lia.
Qed.

Lemma get_overlap_text_len (self : t) (ss : list pystr) :
  len (_get_overlap_text self ss) <= Z.max (overlap self) 0.
Proof.
  unfold _get_overlap_text.
  destruct (overlap_loop_shape self (rev ss) [] (or_introl eq_refl))
    as [->|[x [-> Hx]]].
  - unfold len. simpl. lia.
  - pose proof (strip_snoc_space_len x). len_lia.
Qed.

(** *** The invariant of the loop of [chunk_text] *)
Section Loop.
Variable self : t.
Variable src : pystr.
Variable L : Z.

Lemma chunk_step_inv (st : loop_state) (s : pystr) :
  sentence_ok s -> len s <= L -> loop_inv self L st -> loop_inv self L (chunk_step self src st s).
Proof.
  intros Hok HL [Hcur Hchunks]. unfold chunk_step.
  pose proof (sentence_ok_nonempty s Hok) as Hne. destruct Hok as [Htrim H10].
  assert (Hlow : forall y, 10 <= len (strip (y ++ space ++ s))).
  { intros y. rewrite app_assoc.
    pose proof (len_strip_app_trimmed (y ++ space) s Htrim Hne). lia. }
  destruct (chunk_size self <? len (current_chunk st) + len s) eqn:Hbig;
    destruct (truthy (current_chunk st)) eqn:Htr; simpl.
  - (* the running chunk is closed *)
    destruct Hcur as [Hnil|[Hb Hl]]; [by rewrite Hnil in Htr|].
    split; simpl.
    + right. split; [|apply Hlow].
      pose proof (get_overlap_text_len self (current_chunk_sentences st)).
      unfold bound in *. len_lia.
    + apply Forall_app. split; [done|]. constructor; [|done].
      unfold chunk_ok. simpl. split; [|split; [done|apply strip_idem]].
      pose proof (len_strip (current_chunk st)). lia.
  - destruct (current_chunk st) eqn:Ec; [|done]. split; simpl; [|done].
    right. split; [|apply (Hlow [])].
    unfold bound in *. len_lia.
  - apply Z.ltb_ge in Hbig. split; simpl; [|done].
    right. split; [|apply Hlow].
    unfold bound in *. len_lia.
  - destruct (current_chunk st) eqn:Ec; [|done]. split; simpl; [|done].
    right. split; [|apply (Hlow [])].
    unfold bound in *. len_lia.
Qed.

Lemma fold_chunk_step_inv (ss : list pystr) (st : loop_state) :
  Forall (fun s => sentence_ok s /\ len s <= L) ss ->
  loop_inv self L st -> loop_inv self L (fold_left (chunk_step self src) ss st).
Proof.
  revert st. induction ss as [|s ss IH]; intros st Hss Hst; [done|].
  inversion Hss as [|? ? [Hok HL] Hrest]; subst. simpl.
  apply IH; [done|]. by apply chunk_step_inv.
Qed.

Lemma chunk_loop_inv (ss : list pystr) :
  Forall (fun s => sentence_ok s /\ len s <= L) ss ->
  loop_inv self L (chunk_loop self src ss).
Proof.
  intros Hss. apply fold_chunk_step_inv; [done|].
  split; [by left|constructor].
Qed.

End Loop.

(** The text of the specification fails: with [chunk_size = 20],
    [overlap = 0], [min_chunk_size = 5] the text
    "aaaaaaaaaa. bbbbbbbbbbbbbbbbbbbbbbbbb. cccccccccc" gives three chunks, and
    the second, which is not the last, is 25 characters long. *)
Lemma chunk_bounds_counterexample :
  ~ (forall (self : t) (text_in src : pystr),
       all_but_last_within self (chunk_text self text_in src)).
Proof.
  intros H.
  specialize (H {| chunk_size := 20; overlap := 0; min_chunk_size := 5 |}
                (lit "aaaaaaaaaa. bbbbbbbbbbbbbbbbbbbbbbbbb. cccccccccc")
                (lit "doc") 1%nat).
  vm_compute in H.
  specialize (H _ eq_refl). 
  destruct H as [_ H]; [lia|]. by apply H.
Qed.

(** The lower bound fails as well for a chunk that is not the last: with
    [chunk_size = 40], [overlap = 0], [min_chunk_size = 20], sentences of 10,
    35 and 20 characters give chunks of these lengths, the first below 20. *)
Lemma chunk_lower_bound_example :
  map trimmed_len
    (chunk_text {| chunk_size := 40; overlap := 0; min_chunk_size := 20 |}
       (lit "aaaaaaaaaa. bbbbbbbbbbbbbbbbbbbbbbbbbbbbbbbbbbb. cccccccccccccccccccc")
       (lit "doc"))
  = [10; 35; 20].
Proof. vm_compute. reflexivity. Qed.

(** C6, amended: when no sentence of the text is longer than [L], every
    chunk has a trimmed length of at least 10 (one sentence) and at most
    [max(chunk_size + 1, max(overlap, 0) + 1 + L)]; and the chunk added after
    the loop, the only one [min_chunk_size] is checked on, has a trimmed
    length of at least [min_chunk_size]. *)
Theorem chunk_text_lengths (self : t) (text_in src : pystr) (L : Z) :
  (forall s, s ∈ _split_into_sentences text_in -> len s <= L) ->
  (forall c, c ∈ chunk_text self text_in src ->
     10 <= trimmed_len c
        <= Z.max (chunk_size self + 1) (Z.max (overlap self) 0 + 1 + L))
  /\ (forall (i : nat) c,
        chunk_text self text_in src !! i = Some c ->
        (length (closed_in_loop self text_in src) <= i)%nat ->
        min_chunk_size self <= trimmed_len c).
Proof.
  intros HL.
  assert (Hss : Forall (fun s => sentence_ok s /\ len s <= L)
                  (_split_into_sentences text_in)).
  { apply Forall_forall. intros s Hs. split; [|by apply HL].
    pose proof (split_sentences_ok text_in) as Hok.
    rewrite Forall_forall in Hok. by apply Hok. }
  pose proof (chunk_loop_inv self src L _ Hss) as [Hcur Hchunks].
  fold (bound self L).
  assert (Hclosed : forall c,
            c ∈ chunks (chunk_loop self src (_split_into_sentences text_in)) ->
            10 <= trimmed_len c <= bound self L).
  { intros c Hc. rewrite Forall_forall in Hchunks.
    destruct (Hchunks c Hc) as (Hb & H10 & Htrim).
    unfold trimmed_len. rewrite Htrim. lia. }
  unfold chunk_text, closed_in_loop.
  destruct (negb (truthy text_in) || (len (strip text_in) <? min_chunk_size self)).
  { split; [intros c Hc; by apply elem_of_nil in Hc|intros i c Hc; done]. }
  cbv zeta.
  set (st := chunk_loop self src (_split_into_sentences text_in)) in *.
  destruct (final_kept self st) eqn:Hkept.
  - apply andb_prop in Hkept as [Htr Hmin]. apply Z.leb_le in Hmin.
    assert (Hlast : 10 <= len (strip (current_chunk st)) <= bound self L).
    { destruct Hcur as [Hnil|[Hb Hl]].
      - rewrite Hnil in Htr. done.
      - pose proof (len_strip (current_chunk st)). lia. }
    split.
    + intros c Hc. apply elem_of_app in Hc as [Hc|Hc]; [by apply Hclosed|].
      apply list_elem_of_singleton in Hc as ->.
      unfold trimmed_len. simpl. by rewrite strip_idem.
    + intros i c Hi Hge.
      rewrite lookup_app_r in Hi by done.
      apply list_lookup_singleton_Some in Hi as [_ <-].
      unfold trimmed_len. simpl. by rewrite strip_idem.
  - split; [exact Hclosed|].
    intros i c Hi Hge. apply lookup_lt_Some in Hi. lia.
Qed.

(** The theorem at the text of the counterexample, whose sentences are at
    most 25 characters long. *)
Lemma chunk_text_lengths_witness :
  let self := {| chunk_size := 20; overlap := 0; min_chunk_size := 5 |} in
  let text_in := lit "aaaaaaaaaa. bbbbbbbbbbbbbbbbbbbbbbbbb. cccccccccc" in
  (forall c, c ∈ chunk_text self text_in (lit "doc") ->
     10 <= trimmed_len c <= 26)
  /\ (forall (i : nat) c,
        chunk_text self text_in (lit "doc") !! i = Some c ->
        (2 <= i)%nat -> 5 <= trimmed_len c).
Proof.
  apply (chunk_text_lengths
           {| chunk_size := 20; overlap := 0; min_chunk_size := 5 |}
           (lit "aaaaaaaaaa. bbbbbbbbbbbbbbbbbbbbbbbbb. cccccccccc")
           (lit "doc") 25).
  intros s Hs. vm_compute in Hs.
  repeat (apply elem_of_cons in Hs as [->|Hs]; [vm_compute; discriminate|]).
  by apply elem_of_nil in Hs.
Defined.

End TextChunkerFacts.


(** ** faiss_store.py: insertion, counts and aliasing *)
Module FaissStoreFacts.
Import FaissStore.

Section WithFloats.
Context {FL : Floats}.

(** *** Assignments through a reference *)
Lemma setitem_lookup (l l' : positive) (k : pystr) (v : value)
    (h : gmap positive (gmap (list N) value)) :
  setitem l k v h !! l' = if decide (l = l') then insert k v <$> h !! l else h !! l'.
Proof. unfold setitem. apply lookup_alter. Qed.

Lemma setitem_lookup_eq (l : positive) (k : pystr) (v : value)
    (h : gmap positive (gmap (list N) value)) :
  setitem l k v h !! l = insert k v <$> h !! l.
Proof. rewrite setitem_lookup. by rewrite decide_True. Qed.

Lemma setitem_lookup_ne (l l' : positive) (k : pystr) (v : value)
    (h : gmap positive (gmap (list N) value)) :
  l <> l' -> setitem l k v h !! l' = h !! l'.
Proof. intros Hne. rewrite setitem_lookup. by rewrite decide_False. Qed.

Lemma key_id_text : key_id <> key_text.
Proof. by vm_compute. Qed.

(** *** The loop of [add_vectors] *)
Lemma add_loop_store (start : Z) (pairs : list (list N * positive)) :
  forall (i : nat) (self : t) (h : gmap positive (gmap (list N) value)),
    let self' := (add_loop start i pairs self h).1 in
    texts self' = texts self ++ pairs.*1
    /\ metadata self' = metadata self ++ pairs.*2
    /\ index self' = index self.
Proof.
  induction pairs as [|[text meta] rest IH]; intros i self h; simpl.
  - by rewrite !app_nil_r.
  - destruct (IH (S i)
      {| dimension := dimension self; index_path := index_path self;
         metadata_path := metadata_path self; index := index self;
         texts := texts self ++ [text]; metadata := metadata self ++ [meta];
         id_to_metadata := <[start + Z.of_nat i := meta]> (id_to_metadata self) |}
      (setitem meta key_text (VStr text) (setitem meta key_id (VInt (start + Z.of_nat i)) h)))
      as (Ht & Hm & Hi).
    simpl in *. rewrite Ht, Hm, Hi, <- !app_assoc. done.
Qed.

(** Identifiers below the running one are left alone. *)
Lemma add_loop_ids_below (start : Z) (pairs : list (list N * positive)) :
  forall (i : nat) (self : t) (h : gmap positive (gmap (list N) value)) (k : Z),
    k < start + Z.of_nat i ->
    id_to_metadata (add_loop start i pairs self h).1 !! k = id_to_metadata self !! k.
Proof.
  induction pairs as [|[text meta] rest IH]; intros i self h k Hk; simpl; [done|].
  rewrite IH by lia. simpl. apply lookup_insert_ne. lia.
Qed.

(** The [j]-th record of the call is filed under [start + i + j]. *)
Lemma add_loop_ids (start : Z) (pairs : list (list N * positive)) :
  forall (i : nat) (self : t) (h : gmap positive (gmap (list N) value))
         (j : nat) (l : positive),
    pairs.*2 !! j = Some l ->
    id_to_metadata (add_loop start i pairs self h).1 !! (start + Z.of_nat (i + j))
    = Some l.
Proof.
  induction pairs as [|[text meta] rest IH]; intros i self h j l Hj; [done|].
  destruct j as [|j]; simpl in *.
  - injection Hj as ->. rewrite add_loop_ids_below by lia. simpl.
    rewrite Nat.add_0_r. apply lookup_insert_eq.
  - replace (i + S j)%nat with (S i + j)%nat by lia. by apply IH.
Qed.

(** Records the call does not name are not touched. *)
Lemma add_loop_heap_frame (start : Z) (pairs : list (list N * positive)) :
  forall (i : nat) (self : t) (h : gmap positive (gmap (list N) value)) (l : positive),
    l ∉ pairs.*2 -> (add_loop start i pairs self h).2 !! l = h !! l.
Proof.
  induction pairs as [|[text meta] rest IH]; intros i self h l Hl; simpl; [done|].
  simpl in Hl. apply not_elem_of_cons in Hl as [Hne Hl].
  rewrite IH by done. by rewrite setitem_lookup_ne, setitem_lookup_ne.
Qed.

(** A live record stays live, and keeps every key but 'id' and 'text'. *)
Lemma add_loop_heap_keeps (start : Z) (pairs : list (list N * positive)) :
  forall (i : nat) (self : t) (h : gmap positive (gmap (list N) value))
         (l : positive) (dct : gmap (list N) value),
    h !! l = Some dct ->
    exists dct', (add_loop start i pairs self h).2 !! l = Some dct'
                 /\ forall k, k <> key_id -> k <> key_text -> dct' !! k = dct !! k.
Proof.
  induction pairs as [|[text meta] rest IH]; intros i self h l dct Hl; simpl.
  - by exists dct.
  - assert (Hstep : exists d2,
              setitem meta key_text (VStr text)
                (setitem meta key_id (VInt (start + Z.of_nat i)) h) !! l = Some d2
              /\ forall k, k <> key_id -> k <> key_text -> d2 !! k = dct !! k).
    { destruct (decide (meta = l)) as [->|Hne].
      - rewrite setitem_lookup_eq, setitem_lookup_eq, Hl. simpl.
        eexists. split; [done|]. intros k H1 H2. by rewrite !lookup_insert_ne.
      - rewrite setitem_lookup_ne, setitem_lookup_ne by done. by exists dct. }
    destruct Hstep as [d2 [Hd2 Hk2]].
    match goal with
    | |- context [add_loop _ ?b _ ?s ?hh] =>
        destruct (IH b s hh l d2 Hd2) as [dct' [Hd Hk]]
    end.
    exists dct'. split; [exact Hd|]. intros k H1 H2.
    rewrite Hk by done. by apply Hk2.
Qed.

(** The record named last at position [j] carries the identifier and the
    text of that position. *)
Lemma add_loop_heap_last (start : Z) (pairs : list (list N * positive)) :
  forall (i : nat) (self : t) (h : gmap positive (gmap (list N) value))
         (j : nat) (text : list N) (l : positive),
    pairs !! j = Some (text, l) ->
    (forall j', (j < j')%nat -> pairs.*2 !! j' <> Some l) ->
    is_Some (h !! l) ->
    exists dct', (add_loop start i pairs self h).2 !! l = Some dct'
                 /\ dct' !! key_id = Some (VInt (start + Z.of_nat (i + j)))
                 /\ dct' !! key_text = Some (VStr text).
Proof.
  induction pairs as [|[text0 meta] rest IH]; intros i self h j text l Hj Hlast [dct Hl];
    [done|].
  destruct j as [|j]; simpl in *.
  - injection Hj as -> ->.
    assert (Hnot : l ∉ rest.*2).
    { intros Hin. apply list_elem_of_lookup in Hin as [j' Hj'].
      by apply (Hlast (S j')); [lia|]. }
    rewrite add_loop_heap_frame by done.
    rewrite setitem_lookup_eq, setitem_lookup_eq, Hl. simpl.
    eexists. split; [done|]. rewrite Nat.add_0_r. split.
    + rewrite lookup_insert_ne by (apply not_eq_sym, key_id_text).
      apply lookup_insert_eq.
    + apply lookup_insert_eq.
  - replace (i + S j)%nat with (S i + j)%nat by lia.
    apply IH; [done| |].
    + intros j' Hj'. apply (Hlast (S j')). lia.
    + destruct (decide (meta = l)) as [->|Hne].
      * rewrite setitem_lookup_eq, setitem_lookup_eq, Hl. by eexists.
      * rewrite setitem_lookup_ne, setitem_lookup_ne by done. by eexists.
Qed.

(** *** [add_vectors] *)

(** A call that raises leaves the store and the heap as they were. *)
Lemma add_vectors_raise_unchanged (self : t) (h : gmap positive (gmap (list N) value))
    (embeddings : list (list float)) (texts_in : list pystr) (metadata_in : list positive)
    (e : exn) (s : t * gmap positive (gmap (list N) value)) :
  add_vectors self h embeddings texts_in metadata_in = (Raise e, s) -> s = (self, h).
Proof.
  unfold add_vectors.
  destruct (negb _ || negb _); [by intros [= _ <-]|].
  destruct (as_matrix embeddings) as [[width vectors]|e']; [|by intros [= _ <-]].
  destruct (index_add _ _ _); [done|by intros [= _ <-]].
Qed.

(** What a call that returns has done. *)
Lemma add_vectors_ok (self self' : t) (h h' : gmap positive (gmap (list N) value))
    (embeddings : list (list float)) (texts_in : list pystr) (metadata_in : list positive) :
  add_vectors self h embeddings texts_in metadata_in = (Ok tt, (self', h')) ->
  length embeddings = length metadata_in
  /\ length embeddings = length texts_in
  /\ exists idx,
       ntotal idx = ntotal (index self) + Z.of_nat (length embeddings)
       /\ (self', h') = add_loop (ntotal (index self)) 0 (zip texts_in metadata_in)
                          (set_index self idx) h.
Proof.
  unfold add_vectors.
  destruct (Nat.eqb_spec (length embeddings) (length metadata_in)) as [E1|]; [|done].
  destruct (Nat.eqb_spec (length embeddings) (length texts_in)) as [E2|]; [|done].
  simpl. destruct (as_matrix embeddings) as [[width vectors]|e'] eqn:Em; [|done].
  unfold index_add. destruct (width =? d (index self)); [|done].
  intros [= <-]. split; [done|]. split; [done|]. eexists. split; [|done].
  unfold ntotal. simpl. rewrite length_app.
  unfold as_matrix in Em. destruct embeddings as [|row rows']; [done|].
  destruct (forallb _ _); [|done]. injection Em as _ <-.
  cbn [length]. rewrite length_map. lia.
Qed.

(** The store after a call that returns. *)
Lemma add_vectors_ok_store (self self' : t) (h h' : gmap positive (gmap (list N) value))
    (embeddings : list (list float)) (texts_in : list pystr) (metadata_in : list positive) :
  add_vectors self h embeddings texts_in metadata_in = (Ok tt, (self', h')) ->
  ntotal (index self') = ntotal (index self) + Z.of_nat (length embeddings)
  /\ texts self' = texts self ++ texts_in
  /\ metadata self' = metadata self ++ metadata_in
  /\ forall (i : nat) l, metadata_in !! i = Some l ->
       id_to_metadata self' !! (ntotal (index self) + Z.of_nat i) = Some l.
Proof.
  intros Hok.
  apply add_vectors_ok in Hok as (E1 & E2 & idx & Hn & Hloop).
  pose proof (add_loop_store (ntotal (index self)) (zip texts_in metadata_in) 0
                (set_index self idx) h) as (Ht & Hm & Hi).
  rewrite <- Hloop in Ht, Hm, Hi. simpl in Ht, Hm, Hi.
  rewrite fst_zip in Ht by lia. rewrite snd_zip in Hm by lia.
  rewrite Hi. split; [done|]. split; [done|]. split; [done|].
  intros i l Hil.
  pose proof (add_loop_ids (ntotal (index self)) (zip texts_in metadata_in) 0
                (set_index self idx) h i l) as Hid.
  rewrite <- Hloop in Hid. simpl in Hid. apply Hid.
  by rewrite snd_zip by lia.
Qed.

(** C7: [add_vectors] raises [ValueError] and changes nothing when the three
    lists differ in length; no call that raises changes the store; and a
    call on lists of one length that returns has appended the texts and the
    records and filed the [i]-th record under the identifier
    [ntotal + i], where [ntotal] is the size of the index before the call.
    Such a call returns whenever the embeddings form a matrix of the width
    of the index. *)
Theorem add_vectors_validates_and_numbers (self : t)
    (h : gmap positive (gmap (list N) value))
    (embeddings : list (list float)) (texts_in : list pystr) (metadata_in : list positive) :
  ((length embeddings <> length metadata_in \/ length embeddings <> length texts_in) ->
     add_vectors self h embeddings texts_in metadata_in = (Raise ValueError, (self, h)))
  /\ (forall e s, add_vectors self h embeddings texts_in metadata_in = (Raise e, s) ->
        s = (self, h))
  /\ (forall self' h',
        add_vectors self h embeddings texts_in metadata_in = (Ok tt, (self', h')) ->
        ntotal (index self') = ntotal (index self) + Z.of_nat (length embeddings)
        /\ texts self' = texts self ++ texts_in
        /\ metadata self' = metadata self ++ metadata_in
        /\ forall (i : nat) l, metadata_in !! i = Some l ->
             id_to_metadata self' !! (ntotal (index self) + Z.of_nat i) = Some l)
  /\ (length embeddings = length metadata_in -> length embeddings = length texts_in ->
      forall vectors, as_matrix embeddings = Ok (d (index self), vectors) ->
      exists self' h',
        add_vectors self h embeddings texts_in metadata_in = (Ok tt, (self', h'))).
Proof.
  split; [|split; [|split]].
  - intros Hne. unfold add_vectors.
    destruct (Nat.eqb_spec (length embeddings) (length metadata_in));
      destruct (Nat.eqb_spec (length embeddings) (length texts_in));
      simpl; try done. tauto.
  - intros e s. apply add_vectors_raise_unchanged.
  - intros self' h'. apply add_vectors_ok_store.
  - intros E1 E2 vectors Hm. unfold add_vectors.
    rewrite <- E1, <- E2, !Nat.eqb_refl. simpl.
    rewrite Hm. unfold index_add. rewrite Z.eqb_refl.
    destruct (add_loop _ _ _ _ _) as [self' h']. by exists self', h'.
Qed.

(** C9: a call of [add_vectors] that returns has written into the caller's
    dictionaries and keeps references to them: the store's metadata list ends
    with the very locations the caller passed, [id_to_metadata] maps the
    identifier of each position to the location passed there, and the
    dictionary at a location holds, under 'id' and 'text', the identifier and
    the text of the position at which it was passed (of the last such
    position, when one dictionary is passed more than once); its other keys
    and all other dictionaries are as before. *)
Theorem add_vectors_aliases_callers_records (self self' : t)
    (h h' : gmap positive (gmap (list N) value))
    (embeddings : list (list float)) (texts_in : list pystr) (metadata_in : list positive) :
  add_vectors self h embeddings texts_in metadata_in = (Ok tt, (self', h')) ->
  metadata self' = metadata self ++ metadata_in
  /\ (forall (i : nat) l, metadata_in !! i = Some l ->
        id_to_metadata self' !! (ntotal (index self) + Z.of_nat i) = Some l)
  /\ (forall (i : nat) l text,
        metadata_in !! i = Some l -> texts_in !! i = Some text ->
        is_Some (h !! l) ->
        (forall j, (i < j)%nat -> metadata_in !! j <> Some l) ->
        exists dct', h' !! l = Some dct'
                     /\ dct' !! key_id = Some (VInt (ntotal (index self) + Z.of_nat i))
                     /\ dct' !! key_text = Some (VStr text))
  /\ (forall l dct, h !! l = Some dct ->
        exists dct', h' !! l = Some dct'
                     /\ forall k, k <> key_id -> k <> key_text -> dct' !! k = dct !! k)
  /\ (forall l, l ∉ metadata_in -> h' !! l = h !! l).
Proof.
  intros Hok.
  destruct (add_vectors_ok_store _ _ _ _ _ _ _ Hok) as (_ & _ & Hm & Hids).
  apply add_vectors_ok in Hok as (E1 & E2 & idx & Hn & Hloop).
  assert (Hh' : h' = (add_loop (ntotal (index self)) 0 (zip texts_in metadata_in)
                        (set_index self idx) h).2) by by rewrite <- Hloop.
  assert (Hsnd : (zip texts_in metadata_in).*2 = metadata_in)
    by (apply snd_zip; lia).
  split; [done|]. split; [done|]. split; [|split].
  - intros i l text Hl Ht Hlive Hlast. rewrite Hh'.
    apply (add_loop_heap_last (ntotal (index self)) (zip texts_in metadata_in) 0
             (set_index self idx) h i text l); [|by rewrite Hsnd|done].
    unfold zip. apply lookup_zip_with_Some. by exists text, l.
  - intros l dct Hl. rewrite Hh'. by apply add_loop_heap_keeps.
  - intros l Hl. rewrite Hh'. apply add_loop_heap_frame. by rewrite Hsnd.
Qed.

(** *** The counts of the store *)
Lemma init_counts_agree (dim : Z) (ip mp : option pystr) :
  counts_agree (__init__ dim ip mp).
Proof. by split. Qed.

(** [add_vectors] keeps the counts equal, whether it returns or raises. *)
Lemma add_vectors_counts_agree (self self' : t)
    (h h' : gmap positive (gmap (list N) value))
    (embeddings : list (list float)) (texts_in : list pystr) (metadata_in : list positive)
    (r : result unit) :
  counts_agree self ->
  add_vectors self h embeddings texts_in metadata_in = (r, (self', h')) ->
  counts_agree self'.
Proof.
  intros [Hc1 Hc2] Hadd. destruct r as [[]|e].
  - pose proof (add_vectors_ok _ _ _ _ _ _ _ Hadd) as (E1 & E2 & _).
    destruct (add_vectors_ok_store _ _ _ _ _ _ _ Hadd) as (Hn & Ht & Hm & _).
    unfold counts_agree. rewrite Hn, Ht, Hm, !length_app. lia.
  - apply add_vectors_raise_unchanged in Hadd. by injection Hadd as <- <-.
Qed.

(** [clear] empties the index and the metadata and keeps the texts. *)
Lemma clear_fields (self : t) :
  ntotal (index (clear self)) = 0
  /\ metadata (clear self) = []
  /\ id_to_metadata (clear self) = ∅
  /\ texts (clear self) = texts self.
Proof. done. Qed.

Lemma clear_counts_agree_iff (self : t) :
  counts_agree (clear self) <-> texts self = [].
Proof.
  unfold counts_agree. simpl. unfold ntotal. simpl. split.
  - intros [_ H]. by destruct (texts self).
  - by intros ->.
Qed.

Lemma alloc_all_length (ds : list (gmap (list N) value))
    (h : gmap positive (gmap (list N) value)) :
  length (alloc_all ds h).1 = length ds.
Proof.
  revert h. induction ds as [|dct rest IH]; intros h; simpl; [done|].
  specialize (IH (<[fresh (dom h) := dct]> h)).
  destruct (alloc_all rest _) as [ls h']. simpl in *. by rewrite IH.
Qed.

(** [load] restores the counts when both artifacts are found and the index
    file holds as many vectors as the sidecar holds records. *)
Lemma load_counts_agree (self : t) (h : gmap positive (gmap (list N) value))
    (fs : disk) (ip mp : pystr) (idx : index_flat_ip) (data : sidecar) :
  index_path self = Some ip -> metadata_path self = Some mp ->
  index_files fs !! ip = Some idx -> metadata_files fs !! mp = Some data ->
  ntotal idx = Z.of_nat (length (sc_metadata data)) ->
  counts_agree (load self h fs).1.
Proof.
  intros Hip Hmp Hidx Hdata Hn. unfold load.
  rewrite Hip, Hidx. simpl. rewrite Hmp, Hdata.
  pose proof (alloc_all_length (sc_metadata data) h) as Hlen.
  destruct (alloc_all (sc_metadata data) h) as [ls h1].
  destruct (alloc_table (sc_id_to_metadata data) h1) as [tbl h2].
  unfold counts_agree. simpl in *. rewrite length_map. split; [done|by rewrite Hlen].
Qed.

(** *** [search] *)
Section Search.

(** The order of the scores, NaN aside: any two scores compare, and the
    comparison is transitive. *)
Hypothesis geb_total : forall a b : float, float_geb a b = true \/ float_geb b a = true.
Hypothesis geb_trans : forall a b c : float,
  float_geb a b = true -> float_geb b c = true -> float_geb a c = true.

Lemma insert_desc_perm (x : float * Z) (l : list (float * Z)) :
  insert_desc x l ≡ₚ x :: l.
Proof.
  induction l as [|y l IH]; simpl; [done|].
  destruct (float_geb x.1 y.1); [done|].
  rewrite IH. apply Permutation_swap.
Qed.

Lemma insert_desc_sorted (x : float * Z) (l : list (float * Z)) :
  StronglySorted row_rel l -> StronglySorted row_rel (insert_desc x l).
Proof.
  induction l as [|y l IH]; intros Hl; simpl.
  - repeat constructor.
  - apply StronglySorted_inv in Hl as [Hl Hy].
    destruct (float_geb x.1 y.1) eqn:Hxy.
    + constructor; [by constructor|].
      constructor; [exact Hxy|].
      eapply Forall_impl; [exact Hy|]. intros z Hz. eapply geb_trans; [exact Hxy|exact Hz].
    + constructor; [by apply IH|].
      rewrite insert_desc_perm. constructor; [|done].
      destruct (geb_total x.1 y.1) as [H|H]; [congruence|exact H].
Qed.

Lemma sort_desc_sorted (l : list (float * Z)) : StronglySorted row_rel (sort_desc l).
Proof.
  induction l as [|x l IH]; simpl; [constructor|]. by apply insert_desc_sorted.
Qed.

Lemma sort_desc_length (l : list (float * Z)) : length (sort_desc l) = length l.
Proof.
  induction l as [|x l IH]; simpl; [done|].
  rewrite insert_desc_perm. simpl. by rewrite IH.
Qed.

Lemma take_sorted {A} (R : relation A) (n : nat) (l : list A) :
  StronglySorted R l -> StronglySorted R (take n l).
Proof.
  revert n. induction l as [|x l IH]; intros [|n] Hl; simpl; try constructor.
  - apply IH. by apply StronglySorted_inv in Hl as [? _].
  - apply StronglySorted_inv in Hl as [_ Hx]. by apply Forall_take.
Qed.

Lemma gather_scores (self : t) (h : gmap positive (gmap (list N) value))
    (found : list (float * Z)) :
  map score_of (gather self h found) = map Some (kept self found).*1.
Proof.
  induction found as [|[score idx] rest IH]; simpl; [done|].
  destruct ((idx <? 0) || (Z.of_nat (length (metadata self)) <=? idx)); simpl; [done|].
  rewrite IH. f_equal. unfold score_of. by rewrite lookup_insert_eq.
Qed.

Lemma kept_sorted (self : t) (found : list (float * Z)) :
  StronglySorted row_rel found -> StronglySorted geb_rel (kept self found).*1.
Proof.
  unfold kept. induction found as [|p rest IH]; intros Hs; simpl; [constructor|].
  apply StronglySorted_inv in Hs as [Hrest Hp].
  destruct (negb _); simpl; [|by apply IH].
  constructor; [by apply IH|].
  apply Forall_fmap, Forall_forall. intros q Hq.
  apply list_elem_of_In, filter_In in Hq as [Hq _].
  rewrite Forall_forall in Hp. apply Hp. by apply list_elem_of_In.
Qed.

Lemma gather_length (self : t) (h : gmap positive (gmap (list N) value))
    (found : list (float * Z)) :
  (length (gather self h found) <= length found)%nat.
Proof.
  induction found as [|[score idx] rest IH]; simpl; [done|].
  destruct ((idx <? 0) || _); simpl; lia.
Qed.

(** C8: [search] returns at most [min(top_k, ntotal)] results (no result
    when that minimum is not positive), their scores never increase along the
    list, and on an empty index it returns the empty list; on a non-empty index
    it returns for every positive [top_k] and every query of the width of the
    index. *)
Theorem search_bounded_and_ordered (self : t)
    (h : gmap positive (gmap (list N) value)) (q : list float) (top_k : Z) :
  (forall results, search self h q top_k = Ok results ->
     (length results <= Z.to_nat (Z.min top_k (ntotal (index self))))%nat
     /\ exists scores, map score_of results = map Some scores
                       /\ StronglySorted geb_rel scores)
  /\ (ntotal (index self) = 0 -> search self h q top_k = Ok [])
  /\ (0 < top_k -> Z.of_nat (length q) = d (index self) ->
      exists results, search self h q top_k = Ok results).
Proof.
  split; [|split].
  - intros results. unfold search.
    destruct (ntotal (index self) =? 0) eqn:Hn.
    { intros [= <-]. split; [simpl; lia|]. exists []. split; [done|constructor]. }
    unfold index_search.
    destruct (negb _); [done|]. destruct (_ <=? 0); [done|].
    intros [= <-]. split.
    + etransitivity; [apply gather_length|]. rewrite length_take. lia.
    + eexists. split; [apply gather_scores|].
      apply kept_sorted, take_sorted, sort_desc_sorted.
  - intros Hn. unfold search. by rewrite Hn, Z.eqb_refl.
  - intros Hk Hq. unfold search.
    destruct (ntotal (index self) =? 0) eqn:Hn; [by eexists|].
    apply Z.eqb_neq in Hn. unfold index_search. rewrite Hq, Z.eqb_refl. simpl.
    destruct (Z.leb_spec (Z.min top_k (ntotal (index self))) 0) as [Hle|_];
      [|by eexists].
    unfold ntotal in *. lia.
Qed.

End Search.

End WithFloats.

(** *** The theorems at a store of integer vectors *)
Import Instances.

Lemma Zgeb_total (a b : Z) : Z.geb a b = true \/ Z.geb b a = true.
Proof. rewrite !Z.geb_leb, !Z.leb_le. lia. Qed.

Lemma Zgeb_trans (a b c : Z) :
  Z.geb a b = true -> Z.geb b c = true -> Z.geb a c = true.
Proof. rewrite !Z.geb_leb, !Z.leb_le. lia. Qed.

(** Lists of different lengths are refused and nothing changes; "a" and "b"
    are filed under 0 and 1. *)
Lemma add_vectors_validates_and_numbers_witness :
  add_vectors empty_store two_dicts vectors_ab [lit "a"] [1%positive; 2%positive]
  = (Raise ValueError, (empty_store, two_dicts))
  /\ id_to_metadata added_ab.2.1 !! (0 + Z.of_nat 1) = Some 2%positive.
Proof.
  split.
  - apply (add_vectors_validates_and_numbers empty_store two_dicts vectors_ab
             [lit "a"] [1%positive; 2%positive]).
    right. simpl. lia.
  - destruct (add_vectors_validates_and_numbers empty_store two_dicts vectors_ab
                texts_ab [1%positive; 2%positive]) as (_ & _ & Hnum & _).
    destruct (Hnum added_ab.2.1 added_ab.2.2 eq_refl) as (_ & _ & _ & Hids).
    exact (Hids 1%nat 2%positive eq_refl).
Defined.

(** The caller's dictionary at location 1 holds the identifier 0 and the
    text "a" after the call. *)
Lemma add_vectors_aliases_callers_records_witness :
  metadata added_ab.2.1 = [1%positive; 2%positive]
  /\ exists dct', added_ab.2.2 !! 1%positive = Some dct'
                  /\ dct' !! key_id = Some (VInt (0 + Z.of_nat 0))
                  /\ dct' !! key_text = Some (VStr (lit "a")).
Proof.
  destruct (add_vectors_aliases_callers_records empty_store added_ab.2.1
              two_dicts added_ab.2.2 vectors_ab texts_ab [1%positive; 2%positive]
              eq_refl) as (Hm & _ & Hrec & _).
  split; [exact Hm|].
  apply (Hrec 0%nat 1%positive (lit "a")).
  - reflexivity.
  - reflexivity.
  - exists ∅. reflexivity.
  - intros [|[|j]] Hj; simpl; [lia|discriminate|discriminate].
Defined.

(** A search for the best row of the store of "a" and "b" returns. *)
Lemma search_bounded_and_ordered_witness :
  exists results, search added_ab.2.1 added_ab.2.2 [0; 1] 1 = Ok results.
Proof.
  apply (search_bounded_and_ordered (FL := floats_Z) Zgeb_total Zgeb_trans
           added_ab.2.1 added_ab.2.2 [0; 1] 1).
  - lia.
  - reflexivity.
Defined.

(** C4, as the code has it: after one vector is added to a new store and
    the store is cleared, the index and the metadata list are empty and the
    list of texts still holds the text, so the three counts differ. *)
Theorem clear_leaves_texts :
  counts_agree added_ab.2.1
  /\ ntotal (index (clear added_ab.2.1)) = 0
  /\ length (metadata (clear added_ab.2.1)) = 0%nat
  /\ length (texts (clear added_ab.2.1)) = 2%nat
  /\ ~ counts_agree (clear added_ab.2.1).
Proof.
  split; [|split; [|split; [|split]]]; try reflexivity.
  - split; reflexivity.
  - intros H. apply clear_counts_agree_iff in H. discriminate H.
Qed.

End FaissStoreFacts.


(** ** gemini_llm.py: retries and the streaming fallback *)
Module GeminiLLMFacts.
Import GeminiLLM.

(** *** Traces *)
Lemma generate_calls_app (a b : list event) :
  generate_calls (a ++ b) = (generate_calls a + generate_calls b)%nat.
Proof. unfold generate_calls. by rewrite List.filter_app, length_app. Qed.

Lemma requests_app (a b : list event) :
  requests (a ++ b) = (requests a + requests b)%nat.
Proof. unfold requests. by rewrite List.filter_app, length_app. Qed.

Lemma pauses_within_app (secs : Z) (a b : list event) :
  pauses_within secs a -> pauses_within secs b -> pauses_within secs (a ++ b).
Proof. unfold pauses_within. intros. by apply Forall_app. Qed.

Lemma pauses_within_weaken (s1 s2 : Z) (a : list event) :
  s1 <= s2 -> pauses_within s1 a -> pauses_within s2 a.
Proof.
  unfold pauses_within. intros Hle Ha. eapply Forall_impl; [exact Ha|].
  intros [| |]; simpl; try done. lia.
Qed.

Ltac split_all :=
  repeat match goal with |- _ /\ _ => split end;
  try done; try lia; unfold requests, generate_calls; simpl;
  try done; try lia.

Lemma extends_refl (w : world) : extends w w [].
Proof. unfold extends. rewrite app_nil_r. split_all. Qed.

Lemma extends_trans (w1 w2 w3 : world) (e1 e2 : list event) :
  extends w1 w2 e1 -> extends w2 w3 e2 -> extends w1 w3 (e1 ++ e2).
Proof.
  intros (S1 & T1 & P1) (S2 & T2 & P2). unfold extends.
  rewrite S2, S1, T2, T1, P2, P1, requests_app, app_assoc. split_all.
Qed.

Lemma extends_log (ev : event) (w : world) :
  is_post ev = false -> extends w (log ev w).2 [ev].
Proof.
  intros Hev. unfold extends, log, requests. simpl. rewrite Hev. split_all.
Qed.

Lemma extends_post (b : bool) (w : world) : extends w (post b w).2 [Post b].
Proof.
  unfold extends, post. destruct (server w (posts w)); split_all.
Qed.

Section WithTools.
Context {TT : TextTools}.

(** *** [generate] *)

(** One run of the body of [generate] makes one request and pauses at most
    2 seconds. *)
Lemma generate_body_extends (w : world) :
  exists evs, extends w (generate_body w).2 evs
              /\ generate_calls evs = 0%nat /\ requests evs = 1%nat
              /\ pauses_within 2 evs.
Proof.
  unfold generate_body, try_except, bind, post, sleep, log, raise_for_status,
    lift, ret, raise.
  destruct (server w (posts w)) as [r|e]; simpl.
  2:{ exists [Post false]. unfold extends, pauses_within. split_all.
      by repeat constructor. }
  destruct (status_code r =? 429); simpl;
    [exists [Post false; Sleep 2] | exists [Post false]];
    (destruct ((400 <=? status_code r) && (status_code r <? 600)); simpl;
     try destruct (message_content r); simpl;
     unfold extends, pauses_within; simpl; rewrite <- ?app_assoc; split_all;
     repeat constructor; lia).
Qed.

Lemma wait_exponential_bounds (n : nat) : 2 <= wait_exponential n <= 30.
Proof. unfold wait_exponential. lia. Qed.

(** The loop of tenacity makes at most [remaining + 1] requests and pauses
    at most 30 seconds at a time. *)
Lemma retrying_extends (remaining : nat) :
  forall (attempt_number : nat) (w : world),
    exists evs, extends w (retrying remaining attempt_number generate_body w).2 evs
                /\ generate_calls evs = 0%nat
                /\ (1 <= requests evs <= S remaining)%nat
                /\ pauses_within 30 evs.
Proof.
  induction remaining as [|remaining IH]; intros n w.
  - simpl. destruct (generate_body_extends w) as (evs & Hext & Hg & Hr & Hp).
    apply (pauses_within_weaken 2 30) in Hp; [|lia].
    exists evs.
    destruct (generate_body w) as [[a|e] w']; simpl in *; [split_all|].
    destruct (retry_if_exception_type e); simpl; split_all.
  - simpl. destruct (generate_body_extends w) as (evs & Hext & Hg & Hr & Hp).
    apply (pauses_within_weaken 2 30) in Hp; [|lia].
    destruct (generate_body w) as [[a|e] w']; simpl in *;
      [exists evs; split_all|].
    destruct (retry_if_exception_type e); simpl; [|exists evs; split_all].
    unfold bind, sleep. simpl.
    destruct (IH (S n) (log (Sleep (wait_exponential n)) w').2)
      as (evs2 & Hext2 & Hg2 & Hr2 & Hp2).
    exists (evs ++ [Sleep (wait_exponential n)] ++ evs2).
    split; [|split; [|split]].
    + eapply extends_trans; [exact Hext|].
      eapply extends_trans; [by apply extends_log|exact Hext2].
    + rewrite !generate_calls_app, Hg, Hg2. done.
    + rewrite !requests_app, Hr. simpl. unfold requests at 1. simpl. lia.
    + apply pauses_within_app; [done|]. apply pauses_within_app; [|done].
      repeat constructor. pose proof (wait_exponential_bounds n). lia.
Qed.

(** A call of [generate] is one [Generate] event followed by at most 5
    requests, with pauses of at most 30 seconds. *)
Lemma generate_extends (prompt : pystr) (w : world) :
  exists evs, extends w (generate prompt w).2 (Generate :: evs)
              /\ generate_calls evs = 0%nat
              /\ (1 <= requests evs <= 5)%nat
              /\ pauses_within 30 evs.
Proof.
  unfold generate, bind. simpl.
  destruct (retrying_extends (max_attempt_number - 1) 1 (log Generate w).2)
    as (evs & Hext & Hg & Hr & Hp).
  exists evs. split; [|done].
  apply (extends_trans w (log Generate w).2 _ [Generate] evs); [|done].
  by apply extends_log.
Qed.

(** *** [stream_generate] *)
Lemma extends_calls (w w' : world) (evs : list event) :
  extends w w' evs ->
  generate_calls (trace w') = (generate_calls (trace w) + generate_calls evs)%nat.
Proof. intros (_ & T & _). by rewrite T, generate_calls_app. Qed.

Lemma generate_calls_once (prompt : pystr) (w : world) :
  generate_calls (trace (generate prompt w).2) = S (generate_calls (trace w)).
Proof.
  destruct (generate_extends prompt w) as (evs & Hext & Hg & _).
  rewrite (extends_calls _ _ _ Hext).
  change (Generate :: evs) with ([Generate] ++ evs).
  rewrite generate_calls_app, Hg. unfold generate_calls. simpl. lia.
Qed.

Lemma fallback_spec (prompt : pystr) (w : world) :
  fallback prompt w
  = (fallback_fragments (generate prompt w).1, (generate prompt w).2).
Proof.
  unfold fallback, fallback_fragments.
  by destruct (generate prompt w) as [[text|e] w'].
Qed.

(** Silent lines are passed over. *)
Lemma read_lines_silent (prompt : pystr) (pre lines : list pystr) (n : nat) (w : world) :
  forallb silent_line pre = true ->
  read_lines prompt (pre ++ lines) n w = read_lines prompt lines n w.
Proof.
  induction pre as [|line pre IH]; intros Hpre; [done|].
  simpl in Hpre. apply andb_prop in Hpre as [Hline Hpre].
  specialize (IH Hpre). simpl. unfold silent_line in Hline.
  destruct (truthy line && startswith line (lit "data: ")); [|exact IH].
  destruct (eqb (strip (drop 6 line)) (lit "[DONE]")); [done|].
  destruct (decode_delta (drop 6 line)) as [|content|e]; [exact IH| |done].
  destruct (truthy content); [done|exact IH].
Qed.

(** At the marker, with nothing yielded so far, the fallback runs and the
    generator returns. *)
Lemma read_lines_done (prompt : pystr) (line : pystr) (rest : list pystr) (w : world) :
  done_line line = true ->
  read_lines prompt (line :: rest) 0 w
  = (fallback_fragments (generate prompt w).1, Returned, (generate prompt w).2).
Proof.
  unfold done_line. intros H. apply andb_prop in H as [H1 H2]. simpl.
  rewrite H1, H2. simpl. by rewrite fallback_spec.
Qed.

(** The loop over the lines changes the world only by the fallback, and
    then it returns. *)
Lemma read_lines_world (prompt : pystr) (lines : list pystr) :
  forall (n : nat) (w : world),
    (read_lines prompt lines n w).2 = w
    \/ ((read_lines prompt lines n w).1.2 = Returned
        /\ (read_lines prompt lines n w).2 = (generate prompt w).2).
Proof.
  induction lines as [|line rest IH]; intros n w; simpl; [by left|].
  destruct (truthy line && startswith line (lit "data: ")); [|apply IH].
  destruct (eqb (strip (drop 6 line)) (lit "[DONE]")).
  - destruct (n =? 0)%nat; [|by left].
    rewrite fallback_spec. simpl. by right.
  - destruct (decode_delta (drop 6 line)) as [|content|e]; [apply IH| |by left].
    destruct (truthy content); [|apply IH].
    specialize (IH (S n) w).
    destruct (read_lines prompt rest (S n) w) as [[out ex] w']. exact IH.
Qed.

Lemma consume_world (prompt : pystr) (r : response) (w : world) :
  (consume prompt r w).2 = w
  \/ ((consume prompt r w).1.2 = None
      /\ (consume prompt r w).2 = (generate prompt w).2).
Proof.
  unfold consume.
  destruct (read_lines_world prompt (iter_lines r) 0 w) as [Hw|[Hex Hw]];
    destruct (read_lines prompt (iter_lines r) 0 w) as [[out ex] w'];
    simpl in *; subst.
  - destruct ex as [|m|e]; [by left| |by left].
    destruct (broken r); [by left|].
    destruct (m =? 0)%nat; [|by left].
    rewrite fallback_spec. simpl. by right.
  - by right.
Qed.

(** A response that ends with no fragment runs the fallback, once. *)
Lemma consume_ends_empty (prompt : pystr) (r : response) (w : world) :
  ends_empty r ->
  consume prompt r w
  = (fallback_fragments (generate prompt w).1, None, (generate prompt w).2).
Proof.
  intros [(pre & line & rest & Hl & Hpre & Hdone)|[Hall Hb]]; unfold consume.
  - rewrite Hl, read_lines_silent, read_lines_done by done. done.
  - rewrite <- (app_nil_r (iter_lines r)), read_lines_silent by done.
    simpl. rewrite Hb, fallback_spec. done.
Qed.

Lemma post_calls (b : bool) (w : world) :
  generate_calls (trace (post b w).2) = generate_calls (trace w).
Proof.
  rewrite (extends_calls _ _ _ (extends_post b w)).
  unfold generate_calls. simpl. lia.
Qed.

Lemma sleep_calls (secs : Z) (w : world) :
  generate_calls (trace (run (sleep secs) w)) = generate_calls (trace w).
Proof.
  unfold run, sleep.
  rewrite (extends_calls _ _ _ (extends_log (Sleep secs) w eq_refl)).
  unfold generate_calls. simpl. lia.
Qed.

Lemma on_error_calls (attempt : nat)
    (continue : option exn -> world -> stream * world)
    (out : list pystr) (e : exn) (w : world) :
  (forall le w', (generate_calls (trace (continue le w').2)
                  <= S (generate_calls (trace w')))%nat) ->
  (generate_calls (trace (on_error attempt continue out e w).2)
   <= S (generate_calls (trace w)))%nat.
Proof.
  intros Hc.
  assert (Hrec : (generate_calls (trace
            (let w2 := run (sleep (wait_time attempt)) w in
             let '(s, w3) := continue (Some e) w2 in
             ({| yielded := out ++ yielded s; raised := raised s |}, w3)).2)
          <= S (generate_calls (trace w)))%nat).
  { cbv zeta. pose proof (Hc (Some e) (run (sleep (wait_time attempt)) w)) as H.
    rewrite sleep_calls in H. by destruct (continue (Some e) _). }
  unfold on_error.
  destruct e as [| | | | |status| | | |]; simpl; try lia.
  destruct status as [|p|p]; simpl; try lia.
  do 9 (destruct p as [p|p|]; simpl; try lia). exact Hrec.
Qed.

(** However the attempts go, [generate] is called at most once. *)
Lemma attempts_calls (prompt : pystr) (remaining : nat) :
  forall (attempt : nat) (last_error : option exn) (w : world),
    (generate_calls (trace (attempts prompt remaining attempt last_error w).2)
     <= S (generate_calls (trace w)))%nat.
Proof.
  induction remaining as [|remaining IH]; intros attempt last_error w;
    cbn [attempts].
  { destruct last_error; simpl; lia. }
  cbv zeta.
  pose proof (post_calls true w) as Hpost.
  assert (Hhandler : forall out e w1,
    generate_calls (trace w1) = generate_calls (trace w) ->
    (generate_calls (trace
       (on_error attempt (attempts prompt remaining (S attempt)) out e w1).2)
     <= S (generate_calls (trace w)))%nat).
  { intros out e w1 Hw1. rewrite <- Hw1. apply on_error_calls. intros le w'. apply IH. }
  destruct (post true w) as [[r|e] w1]; simpl in Hpost; [|by apply Hhandler].
  destruct (status_code r =? 429).
  { pose proof (IH (S attempt) last_error (run (sleep (wait_time attempt)) w1)) as H.
    rewrite sleep_calls, Hpost in H. exact H. }
  unfold raise_for_status.
  destruct ((400 <=? status_code r) && (status_code r <? 600));
    cbn -[on_error]; [by apply Hhandler|].
  destruct (consume_world prompt r w1) as [Hw|[Hex Hw]];
    destruct (consume prompt r w1) as [[out ex] w2]; simpl in Hw; subst.
  - destruct ex; [by apply Hhandler|simpl; lia].
  - simpl in Hex. subst. simpl. rewrite generate_calls_once. lia.
Qed.

(** When every request is answered with the status 429, the loop ends with
    nothing yielded and with the [last_error] it started with. *)
Lemma attempts_rate_limited (prompt : pystr) (remaining : nat) :
  forall (attempt : nat) (last_error : option exn) (w : world),
    (forall i, exists r, server w i = Responds r /\ status_code r = 429) ->
    (attempts prompt remaining attempt last_error w).1
    = {| yielded := []; raised := last_error |}.
Proof.
  induction remaining as [|remaining IH]; intros attempt last_error w Hall; simpl.
  { by destruct last_error. }
  unfold post. destruct (Hall (posts w)) as (r & -> & Hr). simpl.
  rewrite Hr. simpl. apply IH. exact Hall.
Qed.

(** C5, amended: at any attempt whose response ends with no fragment,
    [generate] is called once and the stream ends there without an error,
    having yielded the result of that call as one fragment when it is a
    non-empty text, and nothing when it is empty or when the call raised; and
    over a whole stream [generate] is called at most once. *)
Theorem stream_fallback_once (prompt : pystr) :
  (forall (n attempt : nat) (last_error : option exn) (w : world) (r : response),
     server w (posts w) = Responds r ->
     status_code r <> 429 ->
     (status_code r < 400 \/ 600 <= status_code r) ->
     ends_empty r ->
     attempts prompt (S n) attempt last_error w
     = ({| yielded := fallback_fragments (generate prompt (run (post true) w)).1;
           raised := None |},
        (generate prompt (run (post true) w)).2)
     /\ generate_calls (trace (generate prompt (run (post true) w)).2)
        = S (generate_calls (trace w)))
  /\ (forall (max_retries : Z) (w : world),
       (generate_calls (trace (stream_generate prompt max_retries w).2)
        <= S (generate_calls (trace w)))%nat).
Proof.
  split.
  - intros n attempt last_error w r Hr H429 Hstatus Hempty. split.
    + simpl. unfold run, post. rewrite Hr. simpl.
      apply Z.eqb_neq in H429. rewrite H429.
      unfold raise_for_status.
      replace ((400 <=? status_code r) && (status_code r <? 600)) with false
        by (symmetry; apply andb_false_iff; rewrite Z.leb_gt, Z.ltb_ge; lia).
      simpl. by rewrite consume_ends_empty.
    + rewrite generate_calls_once. unfold run. by rewrite post_calls.
  - intros max_retries w. apply attempts_calls.
Qed.

End WithTools.

(** *** The client against three services *)
Import Instances.

(** C2, as the code has it: against a service that answers 500 every time,
    [generate] makes five requests, pausing 2, 2, 4 and 8 seconds between
    them, and then raises tenacity's [RetryError]; the error is neither raised
    at once nor raised as the [HTTPError] it is. *)
Theorem generate_retries_server_error :
  generate a_prompt (fresh_world (always_status 500))
  = (Raise RetryError,
     {| server := always_status 500;
        posts := 5;
        trace := [Generate; Post false; Sleep 2; Post false; Sleep 2; Post false;
                  Sleep 4; Post false; Sleep 8; Post false] |}).
Proof. vm_compute. reflexivity. Qed.

(** C3, as the code has it: against a service that answers 429 every time,
    [stream_generate] makes its five requests, pausing 1, 2, 4, 8 and 16
    seconds, and then ends having yielded nothing and raised nothing. *)
Theorem stream_generate_rate_limited_is_silent :
  stream_generate a_prompt 5 (fresh_world (always_status 429))
  = ({| yielded := []; raised := None |},
     {| server := always_status 429;
        posts := 5;
        trace := [Post true; Sleep 1; Post true; Sleep 2; Post true; Sleep 4;
                  Post true; Sleep 8; Post true; Sleep 16] |}).
Proof. vm_compute. reflexivity. Qed.

(** The wording of the specification fails when the fallback returns the
    empty text: the stream holds only the end marker, the one call of
    [generate] returns '', and no fragment is yielded. *)
Lemma yields_fallback_result_counterexample :
  ~ yields_fallback_result a_prompt 5 (fresh_world (empty_stream_service [])).
Proof.
  intros H.
  specialize (H (ok_response [] [lit "data: [DONE]"]) []
                (generate a_prompt
                   (run (post true) (fresh_world (empty_stream_service [])))).2
                eq_refl).
  assert (Hyield : yielded (stream_generate a_prompt 5
                              (fresh_world (empty_stream_service []))).1 = [])
    by (vm_compute; reflexivity).
  rewrite Hyield in H. discriminate H.
  - simpl. lia.
  - simpl. lia.
  - left. exists [], (lit "data: [DONE]"), []. by vm_compute.
  - vm_compute. reflexivity.
Qed.

(** The theorem at a stream that holds only the end marker, against a
    service whose plain answer is "x": "x" is the one fragment. *)
Lemma stream_fallback_once_witness :
  stream_generate a_prompt 5 (fresh_world (empty_stream_service (lit "x")))
  = ({| yielded := [lit "x"]; raised := None |},
     (generate a_prompt
        (run (post true) (fresh_world (empty_stream_service (lit "x"))))).2).
Proof.
  refine (proj1 (proj1 (stream_fallback_once a_prompt) 4%nat 0%nat None
                   (fresh_world (empty_stream_service (lit "x")))
                   (ok_response (lit "x") [lit "data: [DONE]"]) eq_refl _ _ _)).
  - simpl. lia.
  - simpl. lia.
  - left. exists [], (lit "data: [DONE]"), []. by vm_compute.
Defined.

End GeminiLLMFacts.


(** ** rag_pipeline.py: a query with no retrieved result *)
Module RAGPipelineFacts.
Import GeminiLLM RAGPipeline.

Section WithLibraries.
Context {U : Unicodedata} {FL : Floats} {E : Embedder} {TT : GeminiLLM.TextTools}.

(** The string [format_context] returns for no result is not the string
    [query] compares the context with. *)
Lemma sentinels_differ :
  Retriever.format_context [] <> no_relevant_information.
Proof. by vm_compute. Qed.

(** Whenever retrieval yields no result, [query] goes on to
    [answer_question], with the string of [format_context] as context. *)
Lemma query_no_results (self : t) (h : gmap positive (gmap (list N) FaissStore.value))
    (question_in : pystr) (return_context : bool) (w : world) :
  Retriever.retrieve (retriever self) (vector_store self) h question_in (Some 5) None
  = Ok [] ->
  query self h question_in return_context w
  = bind (answer_question question_in Retriever.no_information_available
            (system_prompt self))
      (fun answer_str =>
         ret {| question := question_in;
                answer := answer_str;
                context := if return_context
                           then Some Retriever.no_information_available else None;
                sources := if return_context then Some [] else None |}) w.
Proof.
  intros Hret. unfold query, Retriever.retrieve_and_format. rewrite Hret.
  reflexivity.
Qed.

(** A query on an empty store retrieves no result, whatever the question,
    when the embedding model answers. *)
Lemma retrieve_empty_store (self : t) (h : gmap positive (gmap (list N) FaissStore.value))
    (question_in : pystr) (v : list float) :
  FaissStore.ntotal (FaissStore.index (vector_store self)) = 0 ->
  encode question_in = Ok v ->
  Retriever.retrieve (retriever self) (vector_store self) h question_in (Some 5) None
  = Ok [].
Proof.
  intros Hn Hv. unfold Retriever.retrieve, Retriever.embed_query. rewrite Hv.
  unfold FaissStore.search. by rewrite Hn.
Qed.

End WithLibraries.

Import Instances.

(** C1, as the code has it: on the empty store [query] does not return the
    canned answer; it sends a request to the generation service and returns
    what the service generated. *)
Theorem query_empty_store_calls_generation :
  query empty_pipeline ∅ a_question false (fresh_world answering_service)
  = (Ok {| question := a_question;
           answer := lit "generated";
           context := None;
           sources := None |},
     {| server := answering_service;
        posts := 1;
        trace := [Generate; Post false] |})
  /\ lit "generated" <> insufficient_information.
Proof. split; [vm_compute; reflexivity|by vm_compute]. Qed.

End RAGPipelineFacts.


(** ** text_chunker.py: further properties of the chunks *)
Module TextChunkerExtras.
Import PyStrFacts TextChunker TextChunkerFacts.

(** Trailing white space does not change what [strip] returns. *)
Lemma lstrip_all_space (z : pystr) : forallb isspace z = true -> lstrip z = [].
Proof.
  induction z as [|c z IH]; simpl; [done|].
  destruct (isspace c); simpl; [exact IH|done].
Qed.

Lemma strip_snoc_space (z : pystr) (c : N) :
  isspace c = true -> strip (z ++ [c]) = strip z.
Proof.
  intros Hc. unfold strip. rewrite lstrip_app.
  destruct (forallb isspace z) eqn:Hz.
  - rewrite (lstrip_all_space z Hz). simpl. by rewrite Hc.
  - by apply rstrip_snoc_space.
Qed.

(** *** Identifiers, sources and trimmed texts *)
Lemma numbered_snoc (src : pystr) (cs : list chunk) (c : chunk) :
  numbered src cs ->
  chunk_id c = Z.of_nat (length cs) -> source c = src -> strip (text c) = text c ->
  numbered src (cs ++ [c]).
Proof.
  intros Hcs Hid Hsrc Htrim i c' Hi.
  apply lookup_app_Some in Hi as [Hi|[Hge Hi]]; [by apply Hcs|].
  apply list_lookup_singleton_Some in Hi as [Hi <-].
  replace i with (length cs) by lia. done.
Qed.

Lemma chunk_step_numbered (self : t) (src : pystr) (st : loop_state) (s : pystr) :
  numbered src (chunks st) -> numbered src (chunks (chunk_step self src st s)).
Proof.
  intros Hst. unfold chunk_step.
  destruct ((chunk_size self <? len (current_chunk st) + len s)
            && truthy (current_chunk st)); simpl; [|done].
  apply numbered_snoc; simpl; [done|done|done|apply strip_idem].
Qed.

Lemma chunk_loop_numbered (self : t) (src : pystr) (ss : list pystr) :
  numbered src (chunks (chunk_loop self src ss)).
Proof.
  unfold chunk_loop.
  assert (H : forall st, numbered src (chunks st) ->
                numbered src (chunks (fold_left (chunk_step self src) ss st))).
  { induction ss as [|s ss IH]; intros st Hst; simpl; [done|].
    by apply IH, chunk_step_numbered. }
  apply H. intros i c Hi. done.
Qed.

(** X1: the i-th chunk [chunk_text] returns has [chunk_id] i, carries the
    source name it was given, and its text has no white space at either
    end. *)
Theorem chunk_text_numbered (self : t) (text_in src : pystr) (i : nat) (c : chunk) :
  chunk_text self text_in src !! i = Some c ->
  chunk_id c = Z.of_nat i /\ source c = src /\ strip (text c) = text c.
Proof.
  unfold chunk_text.
  destruct (negb (truthy text_in) || (len (strip text_in) <? min_chunk_size self));
    [done|].
  cbv zeta.
  pose proof (chunk_loop_numbered self src (_split_into_sentences text_in)) as Hn.
  destruct (final_kept self _); [|apply Hn].
  revert i c. apply numbered_snoc; simpl; [done|done|done|apply strip_idem].
Qed.

Lemma chunk_text_numbered_witness :
  let cs := chunk_text {| chunk_size := 20; overlap := 0; min_chunk_size := 5 |}
              (lit "aaaaaaaaaa. bbbbbbbbbbbbbbbbbbbbbbbbb. cccccccccc") (lit "doc") in
  chunk_id {| text := lit "bbbbbbbbbbbbbbbbbbbbbbbbb"; source := lit "doc";
              chunk_id := 1; sentences := [lit "bbbbbbbbbbbbbbbbbbbbbbbbb"] |}
  = Z.of_nat 1
  /\ source {| text := lit "bbbbbbbbbbbbbbbbbbbbbbbbb"; source := lit "doc";
               chunk_id := 1; sentences := [lit "bbbbbbbbbbbbbbbbbbbbbbbbb"] |}
     = lit "doc"
  /\ strip (lit "bbbbbbbbbbbbbbbbbbbbbbbbb") = lit "bbbbbbbbbbbbbbbbbbbbbbbbb".
Proof.
  apply (chunk_text_numbered
           {| chunk_size := 20; overlap := 0; min_chunk_size := 5 |}
           (lit "aaaaaaaaaa. bbbbbbbbbbbbbbbbbbbbbbbbb. cccccccccc") (lit "doc") 1%nat).
  vm_compute. reflexivity.
Defined.

(** X2: [chunk_text] returns no chunk when the text is empty, when its
    trimmed length is below [min_chunk_size], or when it holds no sentence of
    10 characters or more. *)
Theorem chunk_text_nothing (self : t) (text_in src : pystr) :
  text_in = [] \/ len (strip text_in) < min_chunk_size self
  \/ _split_into_sentences text_in = [] ->
  chunk_text self text_in src = [].
Proof.
  intros H. unfold chunk_text.
  destruct (negb (truthy text_in) || (len (strip text_in) <? min_chunk_size self))
    eqn:Hguard; [done|].
  apply orb_false_elim in Hguard as [Ht Hl].
  apply Z.ltb_ge in Hl.
  destruct H as [->|[H|H]]; [done|lia|].
  rewrite H. reflexivity.
Qed.

Lemma chunk_text_nothing_witness :
  chunk_text {| chunk_size := 512; overlap := 128; min_chunk_size := 5 |}
    (lit "short. tiny. bits. here") (lit "doc") = [].
Proof.
  apply chunk_text_nothing. right. right. vm_compute. reflexivity.
Defined.

(** *** A text that fits one chunk *)
Lemma join_snoc (p : list pystr) (s : pystr) :
  p <> [] -> join space (p ++ [s]) = join space p ++ space ++ s.
Proof.
  induction p as [|x p IH]; intros Hp; [done|].
  destruct p as [|y p]; [done|].
  change ((x :: y :: p) ++ [s]) with (x :: (y :: p) ++ [s]).
  change (join space (x :: (y :: p) ++ [s]))
    with (x ++ space ++ join space ((y :: p) ++ [s])).
  rewrite IH by done.
  change (join space (x :: y :: p)) with (x ++ space ++ join space (y :: p)).
  by rewrite <- !app_assoc.
Qed.

Lemma len_join_app (p rs : list pystr) :
  len (join space p) <= len (join space (p ++ rs)).
Proof.
  induction rs as [|r rs IH] using rev_ind; [by rewrite app_nil_r|].
  destruct (decide (p ++ rs = [])) as [E|Hne].
  - apply app_eq_nil in E as [-> ->]. simpl. apply len_nonneg.
  - rewrite app_assoc, join_snoc by done. rewrite !len_app.
    pose proof (len_nonneg space). pose proof (len_nonneg r). lia.
Qed.

(** The loop closes no chunk while the sentences joined by one space fit
    [chunk_size]. *)
Lemma chunk_loop_fits (self : t) (src : pystr) (rs : list pystr) :
  forall (p : list pystr) (cur : pystr),
    (p = [] /\ cur = [] \/ p <> [] /\ cur = space ++ join space p) ->
    len (join space (p ++ rs)) <= chunk_size self ->
    p ++ rs <> [] ->
    fold_left (chunk_step self src) rs
      {| chunks := []; current_chunk := cur; current_chunk_sentences := p |}
    = {| chunks := []; current_chunk := space ++ join space (p ++ rs);
         current_chunk_sentences := p ++ rs |}.
Proof.
  induction rs as [|r rs IH]; intros p cur Hcur Hfit Hne.
  - rewrite app_nil_r in *. destruct Hcur as [[-> _]|[_ ->]]; done.
  - simpl. unfold chunk_step at 2. simpl.
    replace ((chunk_size self <? len cur + len r) && truthy cur) with false.
    + replace (p ++ r :: rs) with ((p ++ [r]) ++ rs) in * by by rewrite <- app_assoc.
      apply IH; [|done|done]. right. split; [by destruct p|].
      destruct Hcur as [[-> ->]|[Hp ->]]; [done|].
      rewrite join_snoc by done. by rewrite <- !app_assoc.
    + symmetry. destruct Hcur as [[-> ->]|[Hp ->]]; [by rewrite andb_false_r|].
      apply andb_false_iff. left. apply Z.ltb_ge.
      pose proof (len_join_app (p ++ [r]) rs) as Hle.
      rewrite <- app_assoc in Hle. simpl in Hle.
      rewrite join_snoc in Hle by done.
      revert Hle Hfit. unfold len, space. rewrite !length_app. simpl. lia.
Qed.

(** Sentences joined by single spaces form a trimmed text. *)
Lemma trimmed_head (s : pystr) :
  trimmed s -> s <> [] -> exists c t, s = c :: t /\ isspace c = false.
Proof.
  intros Hs Hne. destruct s as [|c t]; [done|]. exists c, t. split; [done|].
  eapply lstrip_head. by apply trimmed_lstrip.
Qed.

Lemma trimmed_last (s : pystr) :
  trimmed s -> s <> [] -> exists t d, s = t ++ [d] /\ isspace d = false.
Proof.
  intros Hs Hne. destruct (exists_last Hne) as [t [d ->]]. exists t, d.
  split; [done|]. eapply rstrip_last. by apply trimmed_rstrip.
Qed.

Lemma trimmed_intro (c d : N) (t t' : pystr) (s : pystr) :
  s = c :: t -> s = t' ++ [d] -> isspace c = false -> isspace d = false ->
  trimmed s.
Proof.
  intros Hc Hd Hcs Hds. unfold trimmed, strip.
  rewrite (lstrip_id s c t Hc Hcs). rewrite Hd. by apply rstrip_snoc_nonspace.
Qed.

Lemma join_trimmed (ss : list pystr) :
  Forall sentence_ok ss -> ss <> [] ->
  trimmed (join space ss) /\ join space ss <> [].
Proof.
  intros Hss Hne.
  assert (Hhead : exists c t, join space ss = c :: t /\ isspace c = false).
  { destruct ss as [|s ss]; [done|]. apply Forall_inv in Hss.
    destruct (trimmed_head s) as (c & t & -> & Hc);
      [apply Hss|by apply sentence_ok_nonempty|].
    destruct ss; simpl; by eexists _, _. }
  assert (Hlast : exists t d, join space ss = t ++ [d] /\ isspace d = false).
  { destruct (exists_last Hne) as [p [s ->]].
    apply Forall_app in Hss as [_ Hs]. apply Forall_inv in Hs.
    destruct (trimmed_last s) as (t & d & -> & Hd);
      [apply Hs|by apply sentence_ok_nonempty|].
    destruct (decide (p = [])) as [->|Hp].
    - simpl. by exists t, d.
    - rewrite join_snoc by done. exists (join space p ++ space ++ t), d.
      by rewrite <- !app_assoc. }
  destruct Hhead as (c & t & Hc & Hcs). destruct Hlast as (t' & d & Hd & Hds).
  split; [by eapply trimmed_intro|]. by rewrite Hc.
Qed.

(** X3: when the text passes the length guard and its sentences, joined by
    single spaces, fit [chunk_size] and reach [min_chunk_size], [chunk_text]
    returns exactly one chunk: the sentences in order, joined by single
    spaces. *)
Theorem chunk_text_single (self : t) (text_in src : pystr) :
  text_in <> [] ->
  min_chunk_size self <= len (strip text_in) ->
  _split_into_sentences text_in <> [] ->
  len (join space (_split_into_sentences text_in)) <= chunk_size self ->
  min_chunk_size self <= len (join space (_split_into_sentences text_in)) ->
  chunk_text self text_in src
  = [ {| text := join space (_split_into_sentences text_in);
         source := src;
         chunk_id := 0;
         sentences := _split_into_sentences text_in |} ].
Proof.
  intros Hne Hguard Hss Hfit Hmin. unfold chunk_text.
  replace (negb (truthy text_in) || (len (strip text_in) <? min_chunk_size self))
    with false.
  2:{ symmetry. apply orb_false_intro; [by destruct text_in|by apply Z.ltb_ge]. }
  cbv zeta. unfold chunk_loop.
  rewrite (chunk_loop_fits self src (_split_into_sentences text_in) [] []);
    [|by left|done|done].
  change ([] ++ _split_into_sentences text_in)
    with (_split_into_sentences text_in).
  destruct (join_trimmed (_split_into_sentences text_in)
              (split_sentences_ok text_in) Hss) as [Htrim Hj].
  assert (Hstrip : strip (space ++ join space (_split_into_sentences text_in))
                   = join space (_split_into_sentences text_in)).
  { unfold strip. simpl. rewrite (trimmed_lstrip _ Htrim).
    by apply trimmed_rstrip. }
  unfold final_kept. cbn [current_chunk chunks current_chunk_sentences].
  rewrite Hstrip.
  replace (truthy (join space (_split_into_sentences text_in))) with true
    by by destruct (join space (_split_into_sentences text_in)).
  apply Z.leb_le in Hmin. rewrite Hmin. reflexivity.
Qed.

Lemma chunk_text_single_witness :
  chunk_text {| chunk_size := 100; overlap := 30; min_chunk_size := 20 |}
    (lit "first sentence here. second sentence here! third sentence here")
    (lit "doc")
  = [ {| text := lit "first sentence here second sentence here third sentence here";
         source := lit "doc";
         chunk_id := 0;
         sentences := [lit "first sentence here"; lit "second sentence here";
                       lit "third sentence here"] |} ].
Proof.
  apply (chunk_text_single
           {| chunk_size := 100; overlap := 30; min_chunk_size := 20 |}
           (lit "first sentence here. second sentence here! third sentence here")
           (lit "doc")).
  - discriminate.
  - vm_compute. discriminate.
  - vm_compute. discriminate.
  - vm_compute. discriminate.
  - vm_compute. discriminate.
Defined.

(** *** The overlap seed *)
Lemma overlap_loop_prepends (self : t) (reversed : list pystr) (ot : pystr) :
  exists y, overlap_loop self reversed ot = y ++ ot.
Proof.
  revert ot. induction reversed as [|s rest IH]; intros ot; cbn [overlap_loop];
    [by exists []|].
  destruct (len ot + len s <=? overlap self); [|by exists []].
  destruct (IH (s ++ space ++ ot)) as [y ->].
  exists (y ++ s ++ space). by rewrite <- !app_assoc.
Qed.

(** X4: the text [_get_overlap_text] returns is never longer than the
    overlap budget; it is empty when the last sentence alone exceeds the
    budget, and it ends with the last sentence when that sentence fits. *)
Theorem get_overlap_text_budget (self : t) (ss : list pystr) (s : pystr) :
  len (_get_overlap_text self (ss ++ [s])) <= Z.max (overlap self) 0
  /\ (overlap self < len s -> _get_overlap_text self (ss ++ [s]) = [])
  /\ (len s <= overlap self -> sentence_ok s ->
      exists y, _get_overlap_text self (ss ++ [s]) = y ++ s).
Proof.
  split; [apply get_overlap_text_len|]. unfold _get_overlap_text.
  rewrite rev_app_distr. cbn [rev app overlap_loop]. split.
  - intros Hlong. replace (len [] + len s <=? overlap self) with false; [done|].
    symmetry. apply Z.leb_gt. unfold len in *. simpl. lia.
  - intros Hfit Hs. replace (len [] + len s <=? overlap self) with true.
    2:{ symmetry. apply Z.leb_le. unfold len in *. simpl. lia. }
    destruct (overlap_loop_prepends self (rev ss) (s ++ space ++ [])) as [y ->].
    rewrite app_nil_r, !app_assoc. unfold space.
    rewrite strip_snoc_space by done.
    apply strip_app_trimmed; [apply Hs|by apply sentence_ok_nonempty].
Qed.

Lemma get_overlap_text_budget_witness :
  exists y,
    _get_overlap_text {| chunk_size := 100; overlap := 30; min_chunk_size := 20 |}
      ([lit "an earlier sentence that is long"] ++ [lit "the last sentence"])
    = y ++ lit "the last sentence".
Proof.
  apply (get_overlap_text_budget
           {| chunk_size := 100; overlap := 30; min_chunk_size := 20 |}
           [lit "an earlier sentence that is long"] (lit "the last sentence")).
  - vm_compute. discriminate.
  - split; [vm_compute; reflexivity|vm_compute; discriminate].
Defined.

(** *** The sentences *)
Lemma re_split_Forall (P : N -> Prop) (s : pystr) :
  forall (skipping : bool) (piece : pystr),
    Forall P piece -> Forall P s -> Forall (Forall P) (re_split skipping piece s).
Proof.
  induction s as [|c rest IH]; intros skipping piece Hp Hs; simpl.
  - by constructor.
  - apply Forall_cons in Hs as [Hc Hrest].
    destruct (skipping && isspace c); [by apply IH|].
    destruct (is_terminator c && _).
    + constructor; [done|]. by apply IH.
    + apply IH; [|done]. apply Forall_app. split; [done|by constructor].
Qed.

Lemma replace_newlines (t : pystr) :
  Forall (fun c => c <> 10%N) (replace_char 10 (lit " . ") t).
Proof.
  unfold replace_char. induction t as [|c t IH]; simpl; [constructor|].
  apply Forall_app. split; [|exact IH].
  destruct (N.eqb_spec c 10); [by repeat constructor|by repeat constructor].
Qed.

(** X5: every sentence [_split_into_sentences] returns is at least 10
    characters long, has no white space at either end, and holds no line
    break. *)
Theorem split_into_sentences_shape (text_in : pystr) (s : pystr) :
  s ∈ _split_into_sentences text_in ->
  10 <= len s /\ strip s = s /\ 10%N ∉ s.
Proof.
  intros Hs.
  pose proof (split_sentences_ok text_in) as Hok. rewrite Forall_forall in Hok.
  destruct (Hok s Hs) as [Htrim Hlen]. split; [done|]. split; [done|].
  unfold _split_into_sentences in Hs.
  apply list_elem_of_filter in Hs as [_ Hs].
  apply list_elem_of_fmap in Hs as [x [-> Hx]].
  apply list_elem_of_filter in Hx as [_ Hx].
  assert (Hall : Forall (Forall (fun c => c <> 10%N))
                   (re_split false [] (replace_char 10 (lit " . ") text_in))).
  { apply re_split_Forall; [constructor|apply replace_newlines]. }
  rewrite Forall_forall in Hall. specialize (Hall x Hx).
  apply (NormalizeFacts.Forall_strip _ x) in Hall.
  rewrite Forall_forall in Hall. intros Hin. by apply (Hall 10%N).
Qed.

Lemma split_into_sentences_shape_witness :
  10 <= len (lit "second line of it")
  /\ strip (lit "second line of it") = lit "second line of it"
  /\ 10%N ∉ lit "second line of it".
Proof.
  apply (split_into_sentences_shape
           [102; 105; 114; 115; 116; 32; 108; 105; 110; 101; 32; 111; 102; 32; 105;
            116; 10; 115; 101; 99; 111; 110; 100; 32; 108; 105; 110; 101; 32; 111;
            102; 32; 105; 116]%N).
  vm_compute. apply list_elem_of_In. right. left. reflexivity.
Defined.

End TextChunkerExtras.


(** ** faiss_store.py: further properties of the store *)
Module FaissStoreExtras.
Import FaissStore FaissStoreFacts.

Section WithFloats.
Context {FL : Floats}.

(** *** The identifier table *)
Lemma add_loop_ids_above (start : Z) (pairs : list (list N * positive)) :
  forall (i : nat) (self : t) (h : gmap positive (gmap (list N) value)) (k : Z),
    start + Z.of_nat (i + length pairs) <= k ->
    id_to_metadata (add_loop start i pairs self h).1 !! k = id_to_metadata self !! k.
Proof.
  induction pairs as [|[text meta] rest IH]; intros i self h k Hk; simpl; [done|].
  simpl in Hk. rewrite IH by lia. simpl. apply lookup_insert_ne. lia.
Qed.

(** X6: a new store is well formed, and [add_vectors] keeps a store well
    formed whether it returns or raises: the counts agree, and
    [id_to_metadata] maps i to the i-th record of the metadata list and
    nothing else. *)
Theorem add_vectors_well_formed :
  (forall dim ip mp, well_formed (__init__ dim ip mp))
  /\ (forall (self self' : t) (h h' : gmap positive (gmap (list N) value))
             (embeddings : list (list float)) (texts_in : list pystr)
             (metadata_in : list positive) (r : result unit),
        well_formed self ->
        add_vectors self h embeddings texts_in metadata_in = (r, (self', h')) ->
        well_formed self').
Proof.
  split.
  - intros dim ip mp. split; [by split|]. split; intros; apply lookup_empty.
  - intros self self' h h' embeddings texts_in metadata_in r (Hc & Htab & Hneg) Hadd.
    split; [by eapply add_vectors_counts_agree|].
    destruct r as [[]|e].
    2:{ apply add_vectors_raise_unchanged in Hadd. by injection Hadd as <- <-. }
    pose proof (add_vectors_ok _ _ _ _ _ _ _ Hadd) as (E1 & E2 & idx & Hn & Hloop).
    destruct (add_vectors_ok_store _ _ _ _ _ _ _ Hadd) as (_ & _ & Hm & Hids).
    assert (Hself' : self' = (add_loop (ntotal (index self)) 0
                                (zip texts_in metadata_in) (set_index self idx) h).1)
      by by rewrite <- Hloop.
    assert (Hstart : ntotal (index self) = Z.of_nat (length (metadata self))).
    { destruct Hc as [H1 H2]. lia. }
    assert (Hzip : length (zip texts_in metadata_in) = length metadata_in).
    { rewrite length_zip. lia. }
    split.
    + intros i. rewrite Hm.
      destruct (decide (i < length (metadata self))%nat) as [Hlt|Hge].
      * rewrite lookup_app_l by done. rewrite <- Htab, Hself'.
        rewrite add_loop_ids_below by lia. done.
      * rewrite lookup_app_r by lia.
        destruct (metadata_in !! (i - length (metadata self))%nat) as [l|] eqn:Hl.
        -- rewrite <- (Hids _ _ Hl). f_equal. lia.
        -- apply lookup_ge_None in Hl. rewrite Hself'.
           rewrite add_loop_ids_above by (rewrite Hzip; lia). simpl.
           rewrite Htab. apply lookup_ge_None. lia.
    + intros k Hk. rewrite Hself'. rewrite add_loop_ids_below by (unfold ntotal; lia).
      simpl. by apply Hneg.
Qed.

(** *** [search] on a store whose counts agree *)
Lemma insert_desc_Forall (P : float * Z -> Prop) (x : float * Z) (l : list (float * Z)) :
  P x -> Forall P l -> Forall P (insert_desc x l).
Proof.
  intros Hx. induction l as [|y l IH]; intros Hl; simpl; [by repeat constructor|].
  apply Forall_cons in Hl as [Hy Hl].
  destruct (float_geb x.1 y.1); repeat constructor; auto.
Qed.

Lemma sort_desc_Forall (P : float * Z -> Prop) (l : list (float * Z)) :
  Forall P l -> Forall P (sort_desc l).
Proof.
  induction l as [|x l IH]; intros Hl; simpl; [constructor|].
  apply Forall_cons in Hl as [Hx Hl]. apply insert_desc_Forall; auto.
Qed.

Lemma insert_desc_length (x : float * Z) (l : list (float * Z)) :
  length (insert_desc x l) = S (length l).
Proof.
  induction l as [|y l IH]; simpl; [done|].
  destruct (float_geb x.1 y.1); simpl; [done|by rewrite IH].
Qed.

Lemma sort_desc_length' (l : list (float * Z)) : length (sort_desc l) = length l.
Proof.
  induction l as [|x l IH]; simpl; [done|]. by rewrite insert_desc_length, IH.
Qed.

Lemma score_rows_in_range (q : list float) (rs : list (list float)) :
  Forall (fun p : float * Z => 0 <= p.2 < Z.of_nat (length rs)) (score_rows q rs).
Proof.
  unfold score_rows. apply Forall_forall. intros p Hp.
  apply list_elem_of_lookup in Hp as [i Hi].
  rewrite list_lookup_imap in Hi.
  destruct (rs !! i) as [row|] eqn:Hrow; [|done].
  injection Hi as <-. simpl. apply lookup_lt_Some in Hrow. lia.
Qed.

(** With every row number in range, [gather] keeps every row. *)
Lemma gather_in_range (self : t) (h : gmap positive (gmap (list N) value))
    (found : list (float * Z)) :
  Forall (fun p : float * Z => 0 <= p.2 < Z.of_nat (length (metadata self))) found ->
  length (gather self h found) = length found
  /\ Forall (fun r => exists (i : nat) l x,
                metadata self !! i = Some l
                /\ r = <[key_score := VFloat x]> (deref h l))
       (gather self h found).
Proof.
  induction found as [|[score idx] rest IH]; intros Hall; simpl; [by split|].
  apply Forall_cons in Hall as [Hidx Hrest]. simpl in Hidx.
  destruct (IH Hrest) as [Hlen Hrec].
  replace ((idx <? 0) || (Z.of_nat (length (metadata self)) <=? idx)) with false.
  2:{ symmetry. apply orb_false_intro; [apply Z.ltb_ge|apply Z.leb_gt]; lia. }
  simpl. split; [by rewrite Hlen|]. constructor; [|done].
  destruct (metadata self !! Z.to_nat idx) as [l|] eqn:Hl.
  - by exists (Z.to_nat idx), l, score.
  - apply lookup_ge_None in Hl. lia.
Qed.

(** X7: on a store whose counts agree, a search with a positive [top_k] and
    a query of the width of the index returns exactly [min(top_k, ntotal)]
    results, and each result is a stored record with a 'score' added. *)
Theorem search_returns_stored_records (self : t)
    (h : gmap positive (gmap (list N) value)) (q : list float) (top_k : Z) :
  counts_agree self -> 0 < top_k -> Z.of_nat (length q) = d (index self) ->
  exists results,
    search self h q top_k = Ok results
    /\ Z.of_nat (length results) = Z.min top_k (ntotal (index self))
    /\ Forall (fun r => exists (i : nat) l x,
                 metadata self !! i = Some l
                 /\ r = <[key_score := VFloat x]> (deref h l)) results.
Proof.
  intros [Hc1 Hc2] Hk Hq. unfold search.
  destruct (ntotal (index self) =? 0) eqn:Hn.
  { apply Z.eqb_eq in Hn. exists []. split; [done|]. split; [simpl; lia|constructor]. }
  apply Z.eqb_neq in Hn. unfold index_search. rewrite Hq, Z.eqb_refl. simpl.
  destruct (Z.leb_spec (Z.min top_k (ntotal (index self))) 0) as [Hle|Hpos].
  { unfold ntotal in *. lia. }
  eexists. split; [done|].
  set (found := take _ _).
  assert (Hrange : Forall (fun p : float * Z =>
                     0 <= p.2 < Z.of_nat (length (metadata self))) found).
  { apply Forall_take, sort_desc_Forall.
    replace (length (metadata self)) with (length (rows (index self)))
      by (unfold ntotal in *; lia).
    apply score_rows_in_range. }
  destruct (gather_in_range self h found Hrange) as [Hlen Hrec].
  split; [|done]. rewrite Hlen. unfold found.
  rewrite length_take, sort_desc_length'. unfold score_rows.
  rewrite length_imap. unfold ntotal in *. lia.
Qed.

(** *** [save] and [load] *)
Lemma alloc_all_spec (ds : list (gmap (list N) value)) :
  forall (h : gmap positive (gmap (list N) value)),
    map (deref (alloc_all ds h).2) (alloc_all ds h).1 = ds
    /\ (forall l dct, h !! l = Some dct -> (alloc_all ds h).2 !! l = Some dct).
Proof.
  induction ds as [|dct rest IH]; intros h; simpl; [done|].
  destruct (IH (<[fresh (dom h) := dct]> h)) as [Hmap Hmono].
  destruct (alloc_all rest (<[fresh (dom h) := dct]> h)) as [ls h'] eqn:E.
  simpl in *. split.
  - f_equal; [|done]. unfold deref. by rewrite (Hmono _ dct (lookup_insert_eq _ _ _)).
  - intros l dct' Hl. apply Hmono. rewrite lookup_insert_ne; [done|].
    intros <-. apply (is_fresh (dom h)). apply elem_of_dom. by eexists.
Qed.

Lemma alloc_all_live (ds : list (gmap (list N) value)) :
  forall (h : gmap positive (gmap (list N) value)) (l : positive),
    l ∈ (alloc_all ds h).1 -> is_Some ((alloc_all ds h).2 !! l).
Proof.
  induction ds as [|dct rest IH]; intros h l Hl; simpl in *.
  - by apply elem_of_nil in Hl.
  - pose proof (IH (<[fresh (dom h) := dct]> h) l) as IHl.
    destruct (alloc_all_spec rest (<[fresh (dom h) := dct]> h)) as [_ Hmono].
    destruct (alloc_all rest (<[fresh (dom h) := dct]> h)) as [ls h'] eqn:E.
    simpl in *. apply elem_of_cons in Hl as [->|Hl]; [|by apply IHl].
    exists dct. apply Hmono, lookup_insert_eq.
Qed.

Lemma alloc_table_spec (kvs : list (Z * gmap (list N) value)) :
  forall (h : gmap positive (gmap (list N) value)),
    (forall k, deref (alloc_table kvs h).2 <$> ((alloc_table kvs h).1 !! k)
               = (list_to_map kvs : gmap Z (gmap (list N) value)) !! k)
    /\ (forall l dct, h !! l = Some dct -> (alloc_table kvs h).2 !! l = Some dct).
Proof.
  induction kvs as [|[k dct] rest IH]; intros h; simpl.
  - split; [intros k; by rewrite !lookup_empty|done].
  - destruct (IH (<[fresh (dom h) := dct]> h)) as [Hmap Hmono].
    destruct (alloc_table rest (<[fresh (dom h) := dct]> h)) as [m h'] eqn:E.
    simpl in *. split.
    + intros k'. destruct (decide (k = k')) as [->|Hne].
      * rewrite !lookup_insert_eq. simpl. unfold deref.
        by rewrite (Hmono _ dct (lookup_insert_eq _ _ _)).
      * rewrite !lookup_insert_ne by done. apply Hmap.
    + intros l dct' Hl. apply Hmono. rewrite lookup_insert_ne; [done|].
      intros <-. apply (is_fresh (dom h)). apply elem_of_dom. by eexists.
Qed.

(** X8: what [save] wrote, [load] reads back: a store with the same two
    paths, loaded after a save, holds the saved index, records equal by
    value to the saved ones in the same order and under the same
    identifiers, and the texts found under 'text' in the records; the
    dictionaries that were on the heap before are left as they were. *)
Theorem save_load_round_trip (self other : t)
    (h h0 : gmap positive (gmap (list N) value)) (fs : disk) (ip mp : pystr) :
  index_path self = Some ip -> metadata_path self = Some mp -> ip <> mp ->
  index_path other = Some ip -> metadata_path other = Some mp ->
  let loaded := load other h0 (save self h fs) in
  index loaded.1 = index self
  /\ map (deref loaded.2) (metadata loaded.1) = map (deref h) (metadata self)
  /\ texts loaded.1 = map (fun l => get_text (deref h l)) (metadata self)
  /\ (forall k, deref loaded.2 <$> (id_to_metadata loaded.1 !! k)
                = deref h <$> (id_to_metadata self !! k))
  /\ (forall l dct, h0 !! l = Some dct -> loaded.2 !! l = Some dct).
Proof.
  intros Hip Hmp _ Hip' Hmp'. unfold load, save.
  rewrite Hip, Hmp, Hip'. simpl. rewrite lookup_insert_eq. simpl.
  rewrite Hmp', lookup_insert_eq. simpl.
  set (ds := map (deref h) (metadata self)).
  set (kvs := map_to_list (deref h <$> id_to_metadata self)).
  destruct (alloc_all_spec ds h0) as [Hds Hmono1].
  destruct (alloc_all ds h0) as [ls h1] eqn:E1. simpl in Hds, Hmono1.
  destruct (alloc_table_spec kvs h1) as [Hkvs Hmono2].
  destruct (alloc_table kvs h1) as [tbl h2] eqn:E2. simpl in Hkvs, Hmono2.
  simpl. split; [done|]. split; [|split; [|split]].
  - transitivity (map (deref h1) ls); [|exact Hds].
    apply map_ext_in. intros l Hl. apply list_elem_of_In in Hl.
    pose proof (alloc_all_live ds h0 l) as Hlive. rewrite E1 in Hlive.
    destruct (Hlive Hl) as [dct Hd]. simpl in Hd.
    unfold deref. by rewrite (Hmono2 _ _ Hd), Hd.
  - unfold ds. rewrite map_map. done.
  - intros k. rewrite Hkvs. unfold kvs. by rewrite list_to_map_to_list, lookup_fmap.
  - intros l dct Hl. by apply Hmono2, Hmono1.
Qed.

End WithFloats.

Import Instances.

Lemma add_vectors_well_formed_witness : well_formed added_ab.2.1.
Proof.
  apply (proj2 add_vectors_well_formed empty_store added_ab.2.1 two_dicts
           added_ab.2.2 vectors_ab texts_ab [1%positive; 2%positive] (Ok tt)).
  - apply (proj1 add_vectors_well_formed).
  - reflexivity.
Defined.

Lemma search_returns_stored_records_witness :
  exists results,
    search added_ab.2.1 added_ab.2.2 [0; 1] 1 = Ok results
    /\ Z.of_nat (length results) = Z.min 1 (ntotal (index added_ab.2.1))
    /\ Forall (fun r => exists (i : nat) l x,
                 metadata added_ab.2.1 !! i = Some l
                 /\ r = <[key_score := VFloat x]> (deref added_ab.2.2 l)) results.
Proof.
  apply (search_returns_stored_records added_ab.2.1 added_ab.2.2 [0; 1] 1).
  - split; reflexivity.
  - lia.
  - reflexivity.
Defined.

Lemma save_load_round_trip_witness :
  let loaded := load path_store ∅ (save saved_ab.2.1 saved_ab.2.2 empty_disk) in
  index loaded.1 = index saved_ab.2.1
  /\ map (deref loaded.2) (metadata loaded.1)
     = map (deref saved_ab.2.2) (metadata saved_ab.2.1)
  /\ texts loaded.1
     = map (fun l => get_text (deref saved_ab.2.2 l)) (metadata saved_ab.2.1)
  /\ (forall k, deref loaded.2 <$> (id_to_metadata loaded.1 !! k)
                = deref saved_ab.2.2 <$> (id_to_metadata saved_ab.2.1 !! k))
  /\ (forall l dct, (∅ : gmap positive (gmap (list N) value)) !! l = Some dct ->
                    loaded.2 !! l = Some dct).
Proof.
  apply (save_load_round_trip saved_ab.2.1 path_store saved_ab.2.2 ∅ empty_disk
           (lit "index.faiss") (lit "metadata.json")).
  - reflexivity.
  - reflexivity.
  - vm_compute. discriminate.
  - reflexivity.
  - reflexivity.
Defined.

End FaissStoreExtras.


(** ** retriever.py and rag_pipeline.py: retrieval and the query *)
Module RetrieverExtras.
Import FaissStore GeminiLLM.

Section WithLibraries.
Context {U : Unicodedata} {FL : Floats} {E : Embedder} {TT : GeminiLLM.TextTools}.



(** The context of a non-empty list of results starts with the bracket of
    the first source label. *)
Lemma format_context_head (r : gmap (list N) value)
    (results : list (gmap (list N) value)) :
  exists t, Retriever.format_context (r :: results) = 91%N :: t.
Proof.
  unfold Retriever.format_context. rewrite imap_cons.
  unfold Retriever.context_part at 1, Retriever.label_open.
  destruct (imap _ results); simpl; by eexists.
Qed.

(** X10: [format_context] never returns the empty string, and never the
    string "no relevant information" that [query] and [stream_query] compare
    the context with. *)
Theorem format_context_never_short_circuits
    (results : list (gmap (list N) value)) :
  truthy (Retriever.format_context results) = true
  /\ Retriever.format_context results <> RAGPipeline.no_relevant_information.
Proof.
  destruct results as [|r results].
  - split; [reflexivity|by vm_compute].
  - destruct (format_context_head r results) as [t ->]. split; [done|].
    by vm_compute.
Qed.

(** X11: whenever [query] returns, it has called [generate] exactly once:
    the canned answer is never returned in place of a generated one, and the
    answer is what [answer_question] returned for the formatted context. *)
Theorem query_always_generates (self : RAGPipeline.t)
    (h : gmap positive (gmap (list N) value)) (question_in : pystr)
    (return_context : bool) (w w' : world) (d : RAGPipeline.answer_dict) :
  RAGPipeline.query self h question_in return_context w = (Ok d, w') ->
  exists results,
    Retriever.retrieve (RAGPipeline.retriever self) (RAGPipeline.vector_store self)
      h question_in (Some 5) None = Ok results
    /\ answer_question question_in (Retriever.format_context results)
         (RAGPipeline.system_prompt self) w
       = (Ok (RAGPipeline.answer d), w')
    /\ RAGPipeline.question d = question_in
    /\ generate_calls (trace w') = S (generate_calls (trace w)).
Proof.
  unfold RAGPipeline.query, Retriever.retrieve_and_format, bind, lift.
  destruct (Retriever.retrieve _ _ _ _ _ _) as [results|e]; [|done].
  unfold ret at 1.
  assert (Hcond : negb (truthy (Retriever.format_context results))
                  || eqb (Retriever.format_context results)
                       RAGPipeline.no_relevant_information = false).
  { destruct results as [|r results]; [by vm_compute|].
    destruct (format_context_head r results) as [t ->]. by vm_compute. }
  rewrite Hcond.
  destruct (answer_question _ _ _ w) as [[a|e] w1] eqn:Ha; [|done].
  unfold ret. intros [= <- <-]. exists results. simpl.
  split; [done|]. split; [done|]. split; [done|].
  unfold answer_question, bind in Ha.
  pose proof (GeminiLLMFacts.generate_calls_once
                (str_format (RAGPipeline.system_prompt self)
                   (Retriever.format_context results) question_in) w) as Hg.
  destruct (generate _ w) as [[g|e] w2]; [|done].
  unfold ret in Ha. injection Ha as _ <-. exact Hg.
Qed.

End WithLibraries.

Import Instances.


Lemma query_always_generates_witness :
  generate_calls
    (trace (RAGPipeline.query empty_pipeline ∅ a_question false
              (fresh_world answering_service)).2)
  = S (generate_calls (trace (fresh_world answering_service))).
Proof.
  assert (Hq : RAGPipeline.query empty_pipeline ∅ a_question false
                 (fresh_world answering_service)
               = (Ok {| RAGPipeline.question := a_question;
                        RAGPipeline.answer := lit "generated";
                        RAGPipeline.context := None;
                        RAGPipeline.sources := None |},
                  (RAGPipeline.query empty_pipeline ∅ a_question false
                     (fresh_world answering_service)).2))
    by (vm_compute; reflexivity).
  destruct (query_always_generates _ _ _ _ _ _ _ Hq) as (results & _ & _ & _ & Hg).
  exact Hg.
Defined.

End RetrieverExtras.


(** ** gemini_llm.py: further properties of the client *)
Module GeminiLLMExtras.
Import GeminiLLM GeminiLLMFacts.

Section WithTools.
Context {TT : TextTools}.

(** X12: a call of [generate] makes at least one and at most five requests
    and never pauses longer than 30 seconds at a time, whatever the service
    answers. *)
Theorem generate_bounded (prompt : pystr) (w : world) :
  exists evs,
    trace (generate prompt w).2 = trace w ++ Generate :: evs
    /\ posts (generate prompt w).2 = (posts w + requests evs)%nat
    /\ (1 <= requests evs <= 5)%nat
    /\ generate_calls evs = 0%nat
    /\ pauses_within 30 evs.
Proof.
  destruct (generate_extends prompt w) as (evs & (_ & Ht & Hp) & Hg & Hr & Hs).
  exists evs. split; [done|]. split; [|done]. rewrite Hp. unfold requests. simpl. lia.
Qed.

(** *** One run of the body of [generate] *)
Ltac unfold_body :=
  unfold generate_body, try_except, bind, post, sleep, log, raise_for_status,
    lift, ret, raise.

Lemma status_ok_tests (r : response) :
  status_code r < 400 \/ 600 <= status_code r ->
  (status_code r =? 429) = false
  /\ (400 <=? status_code r) && (status_code r <? 600) = false.
Proof.
  intros H. split; [apply Z.eqb_neq; lia|].
  apply andb_false_iff. rewrite Z.leb_gt, Z.ltb_ge. lia.
Qed.

Lemma generate_body_throws (w : world) (e : exn) :
  server w (posts w) = Throws e ->
  generate_body w
  = (Raise e, {| server := server w; posts := S (posts w);
                 trace := trace w ++ [Post false] |}).
Proof. intros Hs. unfold_body. by rewrite Hs. Qed.

Lemma generate_body_content (w : world) (r : response) :
  server w (posts w) = Responds r ->
  status_code r < 400 \/ 600 <= status_code r ->
  generate_body w
  = (match message_content r with
     | Ok content => Ok (postprocess_arabic_output content)
     | Raise e => Raise e
     end,
     {| server := server w; posts := S (posts w);
        trace := trace w ++ [Post false] |}).
Proof.
  intros Hs Hok. destruct (status_ok_tests r Hok) as [H1 H2].
  unfold_body. rewrite Hs. simpl. rewrite H1. simpl. rewrite H2. simpl.
  by destruct (message_content r).
Qed.

Lemma generate_body_rate_limited (w : world) (r : response) :
  server w (posts w) = Responds r ->
  status_code r = 429 ->
  generate_body w
  = (Raise (HTTPError 429),
     {| server := server w; posts := S (posts w);
        trace := trace w ++ [Post false; Sleep 2] |}).
Proof.
  intros Hs H429. unfold_body. rewrite Hs. simpl. rewrite H429. simpl.
  by rewrite <- app_assoc.
Qed.

Lemma retrying_first (A : Type) (remaining n : nat) (body : M A) (w w' : world)
    (out : result A) :
  body w = (out, w') ->
  match out with Ok _ => True | Raise e => retry_if_exception_type e = false end ->
  retrying remaining n body w = (out, w').
Proof.
  intros Hb Hout. destruct remaining; simpl; rewrite Hb; destruct out as [a|e];
    try done; by rewrite Hout.
Qed.

(** X13: an error of [generate] that is neither an HTTP error nor a timeout
    is raised at once, after one request and without a pause: be it raised by
    the request itself or by reading the content of a response that is not an
    error. *)
Theorem generate_fatal_error (prompt : pystr) (w : world) (e : exn) :
  retry_if_exception_type e = false ->
  (server w (posts w) = Throws e
   \/ exists r, server w (posts w) = Responds r
                /\ (status_code r < 400 \/ 600 <= status_code r)
                /\ message_content r = Raise e) ->
  generate prompt w
  = (Raise e, {| server := server w; posts := S (posts w);
                 trace := trace w ++ [Generate; Post false] |}).
Proof.
  intros He Hs. unfold generate, bind, log. cbv beta iota.
  set (w1 := {| server := server w; posts := posts w; trace := trace w ++ [Generate] |}).
  assert (Hb : generate_body w1
               = (Raise e, {| server := server w; posts := S (posts w);
                              trace := trace w ++ [Generate; Post false] |})).
  { destruct Hs as [Hs|(r & Hs & Hok & Hc)].
    - rewrite (generate_body_throws w1 e Hs). simpl. by rewrite <- app_assoc.
    - rewrite (generate_body_content w1 r Hs Hok), Hc. simpl.
      by rewrite <- app_assoc. }
  by apply retrying_first.
Qed.

(** The loop of tenacity over [k] rate-limited requests followed by an
    answer. *)
Lemma retrying_after_rate_limits (k : nat) :
  forall (remaining n : nat) (w : world) (r : response) (content : pystr),
    (k <= remaining)%nat ->
    (forall i, (i < k)%nat ->
       exists r', server w (posts w + i)%nat = Responds r' /\ status_code r' = 429) ->
    server w (posts w + k)%nat = Responds r ->
    (status_code r < 400 \/ 600 <= status_code r) ->
    message_content r = Ok content ->
    retrying remaining n generate_body w
    = (Ok (postprocess_arabic_output content),
       {| server := server w; posts := S (posts w + k);
          trace := trace w ++ rate_limited_events n k ++ [Post false] |}).
Proof.
  induction k as [|k IH]; intros remaining n w r content Hk Hlim Hr Hok Hc.
  - rewrite Nat.add_0_r in *. apply retrying_first; [|done].
    rewrite (generate_body_content w r Hr Hok), Hc. done.
  - destruct remaining as [|remaining]; [lia|].
    destruct (Hlim 0%nat) as (r0 & Hr0 & H429); [lia|].
    rewrite Nat.add_0_r in Hr0. simpl.
    rewrite (generate_body_rate_limited w r0 Hr0 H429). simpl.
    unfold bind, sleep, log. simpl.
    rewrite (IH remaining (S n) _ r content); simpl.
    + f_equal. f_equal; [lia|]. by rewrite <- !app_assoc.
    + lia.
    + intros i Hi. destruct (Hlim (S i)) as (r' & Hr' & H'); [lia|].
      exists r'. split; [|done]. rewrite <- Hr'. f_equal. lia.
    + rewrite <- Hr. f_equal. lia.
    + done.
    + done.
Qed.

(** X14: when the first [k] requests of a call of [generate] (k at most 4)
    are answered with the status 429 and the next with a response that is not
    an error, the call returns the post-processed content of that response
    after [k + 1] requests, having paused 2 seconds and then
    [wait_exponential i] seconds after the i-th rate-limited request. *)
Theorem generate_after_rate_limits (prompt : pystr) (k : nat) (w : world)
    (r : response) (content : pystr) :
  (k <= 4)%nat ->
  (forall i, (i < k)%nat ->
     exists r', server w (posts w + i)%nat = Responds r' /\ status_code r' = 429) ->
  server w (posts w + k)%nat = Responds r ->
  (status_code r < 400 \/ 600 <= status_code r) ->
  message_content r = Ok content ->
  generate prompt w
  = (Ok (postprocess_arabic_output content),
     {| server := server w; posts := S (posts w + k);
        trace := trace w ++ Generate :: rate_limited_events 1 k ++ [Post false] |}).
Proof.
  intros Hk Hlim Hr Hok Hc. unfold generate, bind, log. cbv beta iota.
  rewrite (retrying_after_rate_limits k (max_attempt_number - 1) 1 _ r content);
    cbn [server posts trace]; try done.
  by rewrite <- app_assoc.
Qed.

(** *** [stream_generate] *)

Lemma fragments_cons (line : pystr) (rest : list pystr) :
  fragments (line :: rest)
  = if done_line line then []
    else match fragment_of line with
         | Some content => content :: fragments rest
         | None => fragments rest
         end.
Proof.
  unfold fragments. cbn [before_marker]. destruct (done_line line); [done|].
  simpl. by destruct (fragment_of line).
Qed.

(** While no payload is malformed, the loop over the lines yields the
    fragments of the lines and leaves the world alone, provided that a
    fragment was or will be yielded. *)
Lemma read_lines_fragments (prompt : pystr) (lines : list pystr) :
  forall (n : nat) (w : world),
    Forall (fun line => malformed_line line = false) (before_marker lines) ->
    (0 < n)%nat \/ fragments lines <> [] ->
    read_lines prompt lines n w
    = (fragments lines,
       if existsb done_line lines then Returned
       else Exhausted (n + length (fragments lines)),
       w).
Proof.
  induction lines as [|line rest IH]; intros n w Hmal Hn; cbn [read_lines].
  { unfold fragments. simpl. by rewrite Nat.add_0_r. }
  rewrite fragments_cons in *. cbn [before_marker existsb] in *.
  assert (Hline : done_line line = false -> malformed_line line = false
                  /\ Forall (fun line => malformed_line line = false)
                       (before_marker rest)).
  { intros Hd. rewrite Hd in Hmal. by apply Forall_cons in Hmal. }
  clear Hmal. revert Hline Hn. unfold done_line, malformed_line, fragment_of.
  destruct (truthy line && startswith line (lit "data: ")); cbn [andb orb].
  2:{ intros [_ Hmal] Hn; [done|]. by apply IH. }
  destruct (eqb (strip (drop 6 line)) (lit "[DONE]")).
  { intros _ [Hn|Hn]; [|done]. destruct n; [lia|done]. }
  intros [Hline Hmal] Hn; [done|].
  destruct (decode_delta (drop 6 line)) as [|content|e]; [by apply IH| |done].
  destruct (truthy content); [|by apply IH].
  rewrite (IH (S n) w Hmal) by (left; lia). cbn [length]. fold done_line.
  destruct (existsb done_line rest); [done|]. do 2 f_equal. f_equal. lia.
Qed.

(** X15: when a streaming request is answered with a response that is not
    an error, whose payloads before the end marker all decode, and which
    carries at least one fragment and either the marker or a clean close, the
    stream yields exactly the non-empty contents of the data lines before the
    marker, in order, raises nothing, makes this one request and never calls
    [generate]. *)
Theorem stream_yields_fragments (prompt : pystr) (n attempt : nat)
    (last_error : option exn) (w : world) (r : response) :
  server w (posts w) = Responds r ->
  (status_code r < 400 \/ 600 <= status_code r) ->
  Forall (fun line => malformed_line line = false) (before_marker (iter_lines r)) ->
  fragments (iter_lines r) <> [] ->
  (existsb done_line (iter_lines r) = true \/ broken r = None) ->
  attempts prompt (S n) attempt last_error w
  = ({| yielded := fragments (iter_lines r); raised := None |},
     {| server := server w; posts := S (posts w);
        trace := trace w ++ [Post true] |}).
Proof.
  intros Hr Hok Hmal Hfrag Hend. destruct (status_ok_tests r Hok) as [H1 H2].
  cbn [attempts]. cbv zeta. unfold post. rewrite Hr. cbv beta iota.
  rewrite H1. unfold raise_for_status. rewrite H2. unfold ret. cbv beta iota.
  unfold consume. rewrite read_lines_fragments by (done || by right).
  destruct (existsb done_line (iter_lines r)) eqn:Hm; [done|].
  destruct Hend as [Hend|Hend]; [done|]. rewrite Hend.
  destruct (fragments (iter_lines r)) eqn:Hf; [done|]. done.
Qed.

Lemma on_error_raises (attempt : nat)
    (continue : option exn -> world -> stream * world)
    (out : list pystr) (e : exn) (w : world) :
  e <> HTTPError 429 ->
  on_error attempt continue out e w = ({| yielded := out; raised := Some e |}, w).
Proof.
  intros Hne. unfold on_error.
  destruct e as [| | | | |status| | | |]; try done.
  destruct status as [|p|p]; try done.
  do 9 (destruct p as [p|p|]; try done).
Qed.

(** X16: a streaming request answered with an HTTP error other than 429 is
    not retried: the stream raises that error after the one request, having
    yielded nothing and paused nowhere. *)
Theorem stream_http_error_raised (prompt : pystr) (n attempt : nat)
    (last_error : option exn) (w : world) (r : response) :
  server w (posts w) = Responds r ->
  400 <= status_code r < 600 -> status_code r <> 429 ->
  attempts prompt (S n) attempt last_error w
  = ({| yielded := []; raised := Some (HTTPError (status_code r)) |},
     {| server := server w; posts := S (posts w);
        trace := trace w ++ [Post true] |}).
Proof.
  intros Hr Hstatus H429.
  cbn [attempts]. cbv zeta. unfold post. rewrite Hr. cbv beta iota.
  apply Z.eqb_neq in H429 as H1. rewrite H1. unfold raise_for_status.
  replace ((400 <=? status_code r) && (status_code r <? 600)) with true
    by (symmetry; apply andb_true_iff; rewrite Z.leb_le, Z.ltb_lt; lia).
  unfold raise. cbv beta iota. apply on_error_raises. congruence.
Qed.

Lemma wait_time_bounds (attempt : nat) : 0 <= wait_time attempt <= 30.
Proof.
  unfold wait_time. pose proof (Z.pow_nonneg 2 (Z.of_nat attempt)). lia.
Qed.

Lemma extends_sleep (secs : Z) (w : world) :
  extends w (run (sleep secs) w) [Sleep secs].
Proof. unfold run, sleep. by apply extends_log. Qed.

Lemma on_error_extends (bound : nat) (attempt : nat)
    (continue : option exn -> world -> stream * world)
    (out : list pystr) (e : exn) (w : world) :
  (forall le w', exists evs, extends w' (continue le w').2 evs
                             /\ (requests evs <= bound)%nat
                             /\ pauses_within 30 evs) ->
  exists evs, extends w (on_error attempt continue out e w).2 evs
              /\ (requests evs <= bound)%nat /\ pauses_within 30 evs.
Proof.
  intros Hc. destruct (decide (e = HTTPError 429)) as [->|Hne].
  - unfold on_error.
    destruct (Hc (Some (HTTPError 429)) (run (sleep (wait_time attempt)) w))
      as (evs & Hext & Hr & Hp).
    destruct (continue _ _) as [s w']. simpl in *.
    exists ([Sleep (wait_time attempt)] ++ evs). split; [|split].
    + eapply extends_trans; [apply extends_sleep|done].
    + rewrite requests_app. unfold requests at 1. simpl. lia.
    + apply pauses_within_app; [|done]. repeat constructor.
      pose proof (wait_time_bounds attempt). lia.
  - rewrite on_error_raises by done. exists []. simpl.
    split; [apply extends_refl|]. split; [unfold requests; simpl; lia|constructor].
Qed.

Lemma attempts_extends (prompt : pystr) (remaining : nat) :
  forall (attempt : nat) (last_error : option exn) (w : world),
    exists evs, extends w (attempts prompt remaining attempt last_error w).2 evs
                /\ (requests evs <= remaining + 5)%nat
                /\ pauses_within 30 evs.
Proof.
  induction remaining as [|remaining IH]; intros attempt last_error w;
    cbn [attempts].
  { exists []. split; [|split; [unfold requests; simpl; lia|constructor]].
    destruct last_error; apply extends_refl. }
  cbv zeta.
  assert (Hhandler : forall out e w1,
    extends w w1 [Post true] ->
    exists evs,
      extends w (on_error attempt (attempts prompt remaining (S attempt)) out e w1).2 evs
      /\ (requests evs <= S remaining + 5)%nat /\ pauses_within 30 evs).
  { intros out e w1 Hw1.
    destruct (on_error_extends (remaining + 5) attempt
                (attempts prompt remaining (S attempt)) out e w1)
      as (evs & Hext & Hr & Hp); [intros le w'; apply IH|].
    exists ([Post true] ++ evs). split; [by eapply extends_trans|].
    split; [rewrite requests_app; unfold requests at 1; simpl; lia|].
    apply pauses_within_app; [by repeat constructor|done]. }
  pose proof (extends_post true w) as Hpost.
  destruct (post true w) as [[r|e] w1]; cbn [snd] in Hpost; [|by apply Hhandler].
  destruct (status_code r =? 429).
  { destruct (IH (S attempt) last_error (run (sleep (wait_time attempt)) w1))
      as (evs & Hext & Hr & Hp).
    exists ([Post true] ++ [Sleep (wait_time attempt)] ++ evs). split; [|split].
    - eapply extends_trans; [exact Hpost|].
      eapply extends_trans; [apply extends_sleep|exact Hext].
    - rewrite !requests_app. unfold requests at 1 2. simpl. lia.
    - apply pauses_within_app; [by repeat constructor|].
      apply pauses_within_app; [|done]. repeat constructor.
      pose proof (wait_time_bounds attempt). lia. }
  unfold raise_for_status.
  destruct ((400 <=? status_code r) && (status_code r <? 600));
    cbn -[on_error]; [by apply Hhandler|].
  destruct (consume_world prompt r w1) as [Hw|[Hex Hw]];
    destruct (consume prompt r w1) as [[out ex] w2]; simpl in Hw; subst.
  - destruct ex; [by apply Hhandler|].
    exists [Post true]. split; [done|].
    split; [unfold requests; simpl; lia|by repeat constructor].
  - simpl in Hex. subst. simpl.
    destruct (generate_extends prompt w1) as (evs & Hext & _ & Hr & Hp).
    exists ([Post true] ++ Generate :: evs). split; [by eapply extends_trans|].
    split.
    + rewrite requests_app. unfold requests at 1. simpl.
      change (Generate :: evs) with ([Generate] ++ evs).
      rewrite requests_app. unfold requests at 1. simpl. lia.
    + apply pauses_within_app; [by repeat constructor|].
      constructor; [done|exact Hp].
Qed.

(** X17: a run of [stream_generate] makes at most [max_retries + 5]
    requests (the 5 being those of the one fallback), pauses at most 30
    seconds at a time, and keeps the count of requests in step with its
    trace. *)
Theorem stream_generate_budget (prompt : pystr) (max_retries : Z) (w : world) :
  exists evs,
    trace (stream_generate prompt max_retries w).2 = trace w ++ evs
    /\ posts (stream_generate prompt max_retries w).2 = (posts w + requests evs)%nat
    /\ (requests evs <= Z.to_nat max_retries + 5)%nat
    /\ pauses_within 30 evs.
Proof.
  unfold stream_generate.
  destruct (attempts_extends prompt (Z.to_nat max_retries) 0 None w)
    as (evs & (_ & Ht & Hp) & Hr & Hs).
  by exists evs.
Qed.

End WithTools.

Import Instances.

Lemma generate_fatal_error_witness :
  generate a_prompt (fresh_world (fun _ => Throws ConnectionError))
  = (Raise ConnectionError,
     {| server := fun _ => Throws ConnectionError; posts := 1;
        trace := [] ++ [Generate; Post false] |}).
Proof.
  apply (generate_fatal_error a_prompt
           (fresh_world (fun _ => Throws ConnectionError)) ConnectionError).
  - reflexivity.
  - left. reflexivity.
Defined.

Lemma stream_yields_fragments_witness :
  stream_generate a_prompt 5 (fresh_world streaming_service)
  = ({| yielded := [lit "ab"; lit "cd"]; raised := None |},
     {| server := streaming_service; posts := 1; trace := [] ++ [Post true] |}).
Proof.
  refine (stream_yields_fragments a_prompt 4%nat 0%nat None
            (fresh_world streaming_service)
            (ok_response (lit "unused")
               [lit "data: ab"; []; lit "data: ?"; lit "data: cd";
                lit "data: [DONE]"; lit "data: late"]) eq_refl _ _ _ _).
  - left. simpl. lia.
  - vm_compute. repeat constructor.
  - vm_compute. discriminate.
  - left. vm_compute. reflexivity.
Defined.

Lemma stream_http_error_raised_witness :
  stream_generate a_prompt 5 (fresh_world (always_status 503))
  = ({| yielded := []; raised := Some (HTTPError 503) |},
     {| server := always_status 503; posts := 1; trace := [] ++ [Post true] |}).
Proof.
  refine (stream_http_error_raised a_prompt 4%nat 0%nat None
            (fresh_world (always_status 503)) (error_response 503) eq_refl _ _).
  - simpl. lia.
  - simpl. lia.
Defined.

Lemma generate_after_rate_limits_witness :
  generate a_prompt (fresh_world limited_service)
  = (Ok (postprocess_arabic_output (lit "generated")),
     {| server := limited_service; posts := 4;
        trace := [] ++ Generate :: rate_limited_events 1 3 ++ [Post false] |}).
Proof.
  apply (generate_after_rate_limits a_prompt 3 (fresh_world limited_service)
           (ok_response (lit "generated") []) (lit "generated")).
  - lia.
  - intros [|[|[|i]]] Hi; try lia; exists (error_response 429); by split.
  - reflexivity.
  - left. simpl. lia.
  - reflexivity.
Defined.

End GeminiLLMExtras.


(** ** text_chunker.py: the chunks of a directory *)
Module DocumentsFacts.
Import TextChunker Documents.

Lemma as_dict_text (c : chunk) : as_dict c !! key_text = Some (PStr (text c)).
Proof. unfold as_dict. apply lookup_insert_eq. Qed.

Lemma as_dict_source (c : chunk) :
  as_dict c !! key_source = Some (PStr (source c)).
Proof.
  unfold as_dict. rewrite lookup_insert_ne by (by vm_compute).
  apply lookup_insert_eq.
Qed.

(** No chunk has a 'chunk_index'. *)
Lemma as_dict_chunk_index (c : chunk) : as_dict c !! key_chunk_index = None.
Proof.
  unfold as_dict. rewrite !lookup_insert_ne by (by vm_compute).
  apply lookup_singleton_ne. by vm_compute.
Qed.

Lemma chunk_text_sources (self : t) (text_in src : pystr) :
  Forall (fun c => source c = src) (chunk_text self text_in src).
Proof.
  assert (Hn : numbered src (chunk_text self text_in src)).
  { unfold chunk_text.
    destruct (negb (truthy text_in) || (len (strip text_in) <? min_chunk_size self));
      [by intros i c Hi|].
    cbv zeta.
    pose proof (TextChunkerExtras.chunk_loop_numbered self src
                  (_split_into_sentences text_in)) as Hn.
    destruct (final_kept self _); [|apply Hn].
    apply TextChunkerExtras.numbered_snoc; simpl;
      [done|done|done|apply PyStrFacts.strip_idem]. }
  apply Forall_lookup. intros i c Hi. by apply (Hn i c Hi).
Qed.

Lemma chunks_loop_spec (file_path : file) (src : pystr) (cs : list chunk) :
  forall st : lists,
    Forall (fun c => source c = src) cs ->
    chunks_loop file_path (map as_dict cs) st
    = Ok {| all_chunks := all_chunks st;
            all_texts := all_texts st ++ map text cs;
            all_metadata := all_metadata st ++ replicate (length cs) (record_of src) |}.
Proof.
  induction cs as [|c cs IH]; intros st Hsrc; cbn [map chunks_loop].
  - simpl. rewrite !app_nil_r. by destruct st.
  - apply Forall_cons in Hsrc as [Hc Hsrc].
    unfold subscript_text, get.
    rewrite as_dict_text, as_dict_source, as_dict_chunk_index, Hc.
    rewrite IH by done. cbn [all_chunks all_texts all_metadata length replicate].
    by rewrite <- !app_assoc.
Qed.

Lemma chunk_document_loop (self : t) (f : file) (st : lists) :
  chunks_loop f (chunk_document self f) st
  = Ok {| all_chunks := all_chunks st;
          all_texts := all_texts st ++ texts_of self f;
          all_metadata :=
            all_metadata st
            ++ replicate (length (texts_of self f)) (record_of (stem f)) |}.
Proof.
  unfold chunk_document, texts_of. destruct (read f) as [content|e].
  - rewrite (chunks_loop_spec f (stem f)) by apply chunk_text_sources.
    by rewrite length_map.
  - simpl. rewrite !app_nil_r. by destruct st.
Qed.

Lemma files_loop_spec (self : t) (files : list file) :
  forall st : lists,
    exists chunks,
      files_loop self files st
      = Ok {| all_chunks := chunks;
              all_texts := all_texts st ++ new_texts self files;
              all_metadata :=
                all_metadata st ++ map record_of (new_sources self files) |}.
Proof.
  unfold new_texts, new_sources, visible.
  induction files as [|f files IH]; intros st; cbn [files_loop List.filter].
  - exists (all_chunks st). simpl. rewrite !app_nil_r. by destruct st.
  - destruct (startswith (stem f) (lit ".")); cbn [negb]; [apply IH|].
    cbv zeta. rewrite chunk_document_loop. cbn [all_chunks all_texts all_metadata].
    match goal with |- context [files_loop self files ?st'] =>
      destruct (IH st') as [chunks ->] end.
    exists chunks. cbn [all_texts all_metadata flat_map].
    rewrite map_app, <- !app_assoc. do 3 f_equal.
    induction (length (texts_of self f)) as [|n IHn]; simpl; [done|by f_equal].
Qed.

Lemma chunk_directory_spec (self : t) (files : list file) :
  chunk_directory self files
  = Ok (new_texts self files, map record_of (new_sources self files)).
Proof.
  unfold chunk_directory.
  destruct (files_loop_spec self files
              {| all_chunks := []; all_texts := []; all_metadata := [] |})
    as [chunks ->].
  done.
Qed.

Lemma new_texts_sources (self : t) (files : list file) :
  length (new_texts self files) = length (new_sources self files).
Proof.
  unfold new_texts, new_sources.
  induction (visible files) as [|f fs IH]; simpl; [done|].
  by rewrite !length_app, length_replicate, IH.
Qed.

(** X18: [chunk_directory] never raises.  It returns the texts of the
    chunks of the files whose stem does not start with a dot, file after
    file, a file that cannot be read giving none; and one record for every
    text, which holds the stem of the file as its 'source' and 0 as its
    'chunk_index', whatever the number of the chunk is. *)
Theorem chunk_directory_records (self : t) (files : list file) :
  chunk_directory self files
  = Ok (new_texts self files, map record_of (new_sources self files))
  /\ length (new_texts self files) = length (new_sources self files).
Proof.
  split; [apply chunk_directory_spec|apply new_texts_sources].
Qed.

End DocumentsFacts.


(** ** gemini_embeddings.py: one embedding for every text *)
Module EmbeddingsFacts.
Import Embeddings.

Section WithModel.
Context {FL : Floats} {E : Embedder} {BE : BatchEmbedder}.

Lemma take_slices (texts : list pystr) (n : nat) (m : nat) :
  flat_map (fun k => slice texts (k * n) n) (seq 0 m) = take (m * n) texts.
Proof.
  induction m as [|m IH]; [done|].
  rewrite seq_S, flat_map_app, IH. simpl. rewrite app_nil_r. unfold slice.
  rewrite take_take_drop. f_equal. lia.
Qed.

Lemma batches_reach (total n : nat) :
  (0 < n)%nat -> (total <= (total + n - 1) / n * n)%nat.
Proof.
  intros Hn.
  pose proof (Nat.div_mod_eq (total + n - 1) n) as Hdiv.
  pose proof (Nat.mod_upper_bound (total + n - 1) n). nia.
Qed.

(** The batches are the list, cut into pieces. *)
Lemma slices_cover (texts : list pystr) (n : nat) :
  (0 < n)%nat ->
  flat_map (fun i => slice texts i n) (range_by (length texts) n) = texts.
Proof.
  intros Hn. unfold range_by.
  rewrite flat_map_concat_map, map_map, <- flat_map_concat_map.
  rewrite take_slices. apply take_ge. by apply batches_reach.
Qed.

Lemma length_flat_map_ext {A B C} (f : A -> list B) (g : A -> list C) (l : list A) :
  (forall a, length (f a) = length (g a)) ->
  length (flat_map f l) = length (flat_map g l).
Proof.
  intros Hfg. induction l as [|a l IH]; simpl; [done|].
  by rewrite !length_app, Hfg, IH.
Qed.

Lemma embed_one_by_one_app (a b : list pystr) :
  embed_one_by_one (a ++ b) = embed_one_by_one a ++ embed_one_by_one b.
Proof. apply map_app. Qed.

(** X19: when the model returns one row for every text of a batch,
    [embed_texts] with a positive batch size returns one embedding for every
    text, whether the batches succeed or fall back to single texts and zero
    vectors. *)
Theorem embed_texts_one_per_text (texts : list pystr) (batch_size : Z) :
  one_row_per_text ->
  0 < batch_size ->
  exists embeddings,
    embed_texts texts batch_size = Ok embeddings
    /\ length embeddings = length texts.
Proof.
  intros Hrows Hsize. unfold embed_texts.
  destruct (Z.eqb_spec batch_size 0) as [|_]; [lia|].
  destruct (Z.ltb_spec batch_size 0) as [|_]; [lia|].
  eexists. split; [done|].
  transitivity (length (flat_map (fun i => slice texts i (Z.to_nat batch_size))
                          (range_by (length texts) (Z.to_nat batch_size))));
    [|by rewrite slices_cover by lia].
  apply length_flat_map_ext. intros i. unfold embed_batch.
  destruct (encode_batch _) as [rows|e] eqn:Hb; [by apply Hrows|].
  unfold embed_one_by_one. by rewrite length_map.
Qed.

(** X20: when the model refuses every batch, the result of [embed_texts]
    does not depend on the batch size: it holds, for every text in order, the
    embedding of the text alone, or 768 zeros when that fails too. *)
Theorem embed_texts_fallback (texts : list pystr) (batch_size : Z) :
  (forall batch, exists e, encode_batch batch = Raise e) ->
  0 < batch_size ->
  embed_texts texts batch_size = Ok (embed_one_by_one texts)
  /\ Forall (fun text_row =>
               encode text_row.1 = Ok text_row.2
               \/ (exists e, encode text_row.1 = Raise e)
                  /\ text_row.2 = replicate 768 float_zero)
       (zip texts (embed_one_by_one texts)).
Proof.
  intros Hfail Hsize. split.
  - unfold embed_texts.
    destruct (Z.eqb_spec batch_size 0) as [|_]; [lia|].
    destruct (Z.ltb_spec batch_size 0) as [|_]; [lia|].
    f_equal.
    transitivity (embed_one_by_one
                    (flat_map (fun i => slice texts i (Z.to_nat batch_size))
                       (range_by (length texts) (Z.to_nat batch_size))));
      [|by rewrite slices_cover by lia].
    induction (range_by (length texts) (Z.to_nat batch_size)) as [|i rest IH];
      [done|].
    cbn [flat_map]. rewrite embed_one_by_one_app, IH. f_equal.
    unfold embed_batch.
    by destruct (Hfail (slice texts i (Z.to_nat batch_size))) as [e ->].
  - unfold embed_one_by_one, embed_text.
    induction texts as [|text texts IH]; simpl; [done|].
    constructor; [|done]. simpl.
    destruct (encode text) as [row|e]; [by left|right]. split; [by exists e|done].
Qed.

End WithModel.

Import Instances.

Lemma embed_texts_one_per_text_witness :
  exists embeddings,
    embed_texts (BE := batch_by_len) [lit "a"; lit "bc"; lit "def"] 2
    = Ok embeddings
    /\ length embeddings = length [lit "a"; lit "bc"; lit "def"].
Proof.
  apply (embed_texts_one_per_text (BE := batch_by_len)
           [lit "a"; lit "bc"; lit "def"] 2).
  - intros batch rows [= <-]. apply length_map.
  - lia.
Defined.

Lemma embed_texts_fallback_witness :
  embed_texts (E := embedder_nonempty) (BE := batch_refusing)
    [lit "a"; []; lit "bc"] 2
  = Ok (embed_one_by_one (E := embedder_nonempty) [lit "a"; []; lit "bc"])
  /\ Forall (fun text_row =>
               encode (Embedder := embedder_nonempty) text_row.1 = Ok text_row.2
               \/ (exists e, encode (Embedder := embedder_nonempty) text_row.1 = Raise e)
                  /\ text_row.2 = replicate 768 float_zero)
       (zip [lit "a"; []; lit "bc"]
          (embed_one_by_one (E := embedder_nonempty) [lit "a"; []; lit "bc"])).
Proof.
  apply (embed_texts_fallback (E := embedder_nonempty) (BE := batch_refusing)
           [lit "a"; []; lit "bc"] 2).
  - intros batch. by exists ModelError.
  - lia.
Defined.

End EmbeddingsFacts.


(** ** rag_pipeline.py: indexing a directory *)
Module IndexingFacts.
Import FaissStore Documents Indexing.

Section WithLibraries.
Context {U : Unicodedata} {FL : Floats} {E : Embedder}
        {BE : Embeddings.BatchEmbedder} {TT : GeminiLLM.TextTools}.

(** The records [json.load] or [index_documents] allocate are new and
    distinct. *)
Lemma alloc_all_new (ds : list (gmap (list N) value)) :
  forall (h : gmap positive (gmap (list N) value)),
    NoDup (alloc_all ds h).1
    /\ (forall l, l ∈ (alloc_all ds h).1 -> h !! l = None).
Proof.
  induction ds as [|dct rest IH]; intros h; simpl.
  - split; [constructor|]. intros l Hl. by apply elem_of_nil in Hl.
  - destruct (IH (<[fresh (dom h) := dct]> h)) as [Hnd Hnew].
    destruct (alloc_all rest (<[fresh (dom h) := dct]> h)) as [ls h'] eqn:Ea.
    simpl in *.
    assert (Hfresh : h !! fresh (dom h) = None).
    { apply not_elem_of_dom, is_fresh. }
    split.
    + constructor; [|done]. intros Hin. apply Hnew in Hin.
      by rewrite lookup_insert_eq in Hin.
    + intros l Hl. apply elem_of_cons in Hl as [->|Hl]; [done|].
      apply Hnew in Hl. apply lookup_insert_None in Hl. tauto.
Qed.

Lemma alloc_all_lookup (ds : list (gmap (list N) value))
    (h : gmap positive (gmap (list N) value)) (j : nat) (l : positive)
    (dct : gmap (list N) value) :
  (alloc_all ds h).1 !! j = Some l -> ds !! j = Some dct ->
  (alloc_all ds h).2 !! l = Some dct.
Proof.
  intros Hl Hd.
  destruct (FaissStoreExtras.alloc_all_spec ds h) as [Hmap _].
  assert (Hdl : deref (alloc_all ds h).2 l = dct).
  { apply (f_equal (fun x => x !! j)) in Hmap.
    rewrite list_lookup_fmap, Hl, Hd in Hmap. by injection Hmap. }
  destruct (FaissStoreExtras.alloc_all_live ds h l) as [dct' Hdct'].
  { by eapply list_elem_of_lookup_2. }
  unfold deref in Hdl. rewrite Hdct' in Hdl. simpl in Hdl. by subst.
Qed.

Lemma stored_record_of (src : pystr) :
  stored (record_of src)
  = {[ FaissStore.key_source := VStr src; Documents.key_chunk_index := VInt 0 ]}.
Proof.
  unfold stored, record_of.
  rewrite omap_insert_Some with (y := VStr src) by done.
  by rewrite omap_singleton_Some with (y := VInt 0).
Qed.

(** X21: a call of [index_documents] that returns has appended the texts of
    the chunks of the directory to the store, in order, and filed one new
    record for each under the next identifiers; the record of a chunk holds
    its identifier, its text, the stem of its file as 'source' and 0 as
    'chunk_index', and nothing else; the records the heap held before the
    call are left as they were. *)
Theorem index_documents_adds_records (self : RAGPipeline.t)
    (chunker : TextChunker.t) (h h' : gmap positive (gmap (list N) value))
    (dir_exists : bool) (files : list file) (store' : FaissStore.t) :
  index_documents self chunker h dir_exists files = (Completed, (store', h')) ->
  let store := RAGPipeline.vector_store self in
  texts store' = texts store ++ new_texts chunker files
  /\ ntotal (index store')
     = ntotal (index store) + Z.of_nat (length (new_texts chunker files))
  /\ (forall l dct, h !! l = Some dct -> h' !! l = Some dct)
  /\ forall (j : nat) (text src : pystr),
       new_texts chunker files !! j = Some text ->
       new_sources chunker files !! j = Some src ->
       exists l,
         metadata store' !! (length (metadata store) + j)%nat = Some l
         /\ id_to_metadata store' !! (ntotal (index store) + Z.of_nat j) = Some l
         /\ h !! l = None
         /\ h' !! l
            = Some (<[FaissStore.key_text := VStr text]>
                      (<[FaissStore.key_id := VInt (ntotal (index store) + Z.of_nat j)]>
                         {[ FaissStore.key_source := VStr src;
                            Documents.key_chunk_index := VInt 0 ]})).
Proof.
  intros Hrun store. unfold index_documents in Hrun. fold store in Hrun.
  destruct dir_exists; [|done]. cbn [negb] in Hrun.
  rewrite DocumentsFacts.chunk_directory_spec in Hrun.
  pose proof (DocumentsFacts.new_texts_sources chunker files) as Hlen.
  destruct (new_texts chunker files) as [|t0 ts] eqn:Hts.
  { injection Hrun as <- <-. rewrite app_nil_r. split; [done|].
    split; [simpl; lia|]. split; [done|]. by intros j text src Hj. }
  rewrite <- Hts in *. clear Hts t0 ts.
  destruct (Embeddings.embed_texts _ _) as [vectors|e]; [|done].
  destruct (alloc_all _ h) as [records h1] eqn:Ha.
  destruct (add_vectors store h1 vectors _ records) as [[[]|e] [s2 h2]] eqn:Hadd;
    [|done].
  injection Hrun as -> ->.
  pose proof (FaissStoreFacts.add_vectors_ok_store _ _ _ _ _ _ _ Hadd)
    as (Hn & Ht & Hm & Hid).
  apply FaissStoreFacts.add_vectors_ok in Hadd as (E1 & E2 & idx & _ & Hloop).
  pose proof (alloc_all_new (map stored (map record_of (new_sources chunker files))) h)
    as [Hnd Hnew].
  destruct (FaissStoreExtras.alloc_all_spec
              (map stored (map record_of (new_sources chunker files))) h)
    as [_ Hmono].
  pose proof (alloc_all_lookup
                (map stored (map record_of (new_sources chunker files))) h) as Hlook.
  rewrite Ha in Hnd, Hnew, Hmono, Hlook. cbn [fst snd] in Hnd, Hnew, Hmono, Hlook.
  assert (Hsnd : (zip (new_texts chunker files) records).*2 = records)
    by (apply snd_zip; lia).
  split; [done|]. split; [rewrite Hn, E2; done|]. split.
  - intros l dct Hl.
    assert (Hnot : l ∉ (zip (new_texts chunker files) records).*2).
    { rewrite Hsnd. intros Hin. apply Hnew in Hin. congruence. }
    pose proof (FaissStoreFacts.add_loop_heap_frame (ntotal (index store))
                  (zip (new_texts chunker files) records) 0
                  (set_index store idx) h1 l Hnot) as Hframe.
    rewrite <- Hloop in Hframe. cbn [snd] in Hframe. rewrite Hframe.
    by apply Hmono.
  - intros j text src Hj Hs.
    assert (Hjl : (j < length records)%nat).
    { apply lookup_lt_Some in Hj. lia. }
    destruct (lookup_lt_is_Some_2 records j Hjl) as [l Hl].
    exists l.
    assert (Hh1 : h1 !! l = Some (stored (record_of src))).
    { apply (Hlook j); [done|]. by rewrite !list_lookup_fmap, Hs. }
    split; [|split; [|split]].
    + rewrite Hm. rewrite lookup_app_r by lia.
      by replace (length (metadata store) + j - length (metadata store))%nat
        with j by lia.
    + by apply Hid.
    + apply Hnew. by eapply list_elem_of_lookup_2.
    + assert (Hzip : zip (new_texts chunker files) records !! j = Some (text, l)).
      { apply lookup_zip_with_Some. by exists text, l. }
      destruct (FaissStoreFacts.add_loop_heap_last (ntotal (index store))
                  (zip (new_texts chunker files) records) 0
                  (set_index store idx) h1 j text l Hzip) as (dct' & Hd & Hdid & Hdtext).
      { intros j' Hj'. rewrite Hsnd. intros Hl'.
        pose proof (NoDup_lookup _ _ _ _ Hnd Hl Hl'). lia. }
      { by eexists. }
      destruct (FaissStoreFacts.add_loop_heap_keeps (ntotal (index store))
                  (zip (new_texts chunker files) records) 0
                  (set_index store idx) h1 l _ Hh1) as (dct'' & Hd' & Hkeep).
      rewrite <- Hloop in Hd, Hd'. cbn [snd] in Hd, Hd'.
      rewrite Hd in Hd'. injection Hd' as <-. rewrite Hd. f_equal.
      apply map_eq. intros k.
      destruct (decide (k = FaissStore.key_text)) as [->|Hkt].
      { by rewrite Hdtext, lookup_insert_eq. }
      rewrite lookup_insert_ne by done.
      destruct (decide (k = FaissStore.key_id)) as [->|Hki].
      { by rewrite Hdid, lookup_insert_eq. }
      rewrite lookup_insert_ne by done.
      rewrite Hkeep by done. by rewrite stored_record_of.
Qed.

End WithLibraries.

Import Instances.

Lemma index_documents_adds_records_witness :
  let store := RAGPipeline.vector_store pipeline_len in
  let store' := indexed_directory.2.1 in
  let h := added_len.2.2 in
  let h' := indexed_directory.2.2 in
  texts store' = texts store ++ new_texts small_chunker a_directory
  /\ ntotal (index store')
     = ntotal (index store) + Z.of_nat (length (new_texts small_chunker a_directory))
  /\ (forall l dct, h !! l = Some dct -> h' !! l = Some dct)
  /\ forall (j : nat) (text src : pystr),
       new_texts small_chunker a_directory !! j = Some text ->
       new_sources small_chunker a_directory !! j = Some src ->
       exists l,
         metadata store' !! (length (metadata store) + j)%nat = Some l
         /\ id_to_metadata store' !! (ntotal (index store) + Z.of_nat j) = Some l
         /\ h !! l = None
         /\ h' !! l
            = Some (<[FaissStore.key_text := VStr text]>
                      (<[FaissStore.key_id := VInt (ntotal (index store) + Z.of_nat j)]>
                         {[ FaissStore.key_source := VStr src;
                            Documents.key_chunk_index := VInt 0 ]})).
Proof.
  assert (Hdone : indexed_directory.1 = Completed) by (vm_compute; reflexivity).
  apply (index_documents_adds_records (BE := batch_by_len) pipeline_len
           small_chunker added_len.2.2 indexed_directory.2.2 true a_directory
           indexed_directory.2.1).
  revert Hdone. unfold indexed_directory.
  destruct (index_documents _ _ _ _ _) as [o [store' h']]. simpl. by intros ->.
Defined.

End IndexingFacts.


(** ** gemini_llm.py: text without presentation forms *)
Module LLMTextFacts.
Import LLMText.

Section WithUnicode.
Context {U : Unicodedata}.

Lemma fix_chars_plain (s : pystr) :
  Forall (fun c => presentation_form c = false) s -> fix_chars s = s.
Proof.
  unfold fix_chars. induction 1 as [|c s Hc _ IH]; simpl; [done|].
  by rewrite Hc, IH.
Qed.

Lemma close_run_plain (segment : pystr) :
  Forall (fun c => presentation_form c = false) segment ->
  close_run segment = segment.
Proof.
  intros Hs. destruct segment as [|c segment]; [done|].
  unfold close_run, fix_reversed_arabic.
  replace (existsb presentation_form (c :: segment)) with false; [done|].
  symmetry. apply not_true_is_false. intros Hex.
  apply existsb_exists in Hex as (x & Hx & Hp).
  rewrite Forall_forall in Hs. apply list_elem_of_In in Hx.
  by rewrite (Hs x Hx) in Hp.
Qed.

Lemma sub_arabic_plain (s : pystr) :
  forall segment : pystr,
    Forall (fun c => presentation_form c = false) segment ->
    Forall (fun c => presentation_form c = false) s ->
    sub_arabic segment s = segment ++ s.
Proof.
  induction s as [|c s IH]; intros segment Hseg Hs; cbn [sub_arabic].
  - rewrite app_nil_r. by apply close_run_plain.
  - apply Forall_cons in Hs as [Hc Hs]. destruct (arabic c).
    + rewrite IH; [by rewrite <- app_assoc| |done].
      apply Forall_app. split; [done|by constructor].
    + rewrite close_run_plain by done. by rewrite (IH []).
Qed.

(** X22: on a text whose NFKC form holds no character of the Arabic
    presentation forms, [normalize_arabic_text] of gemini_llm.py is NFKC
    itself: the loop over the characters and the substitution of the Arabic
    runs change nothing; the empty text is returned as it is. *)
Theorem normalize_arabic_text_is_nfkc (text : pystr) :
  Forall (fun c => presentation_form c = false) (nfkc text) ->
  normalize_arabic_text text = if truthy text then nfkc text else text.
Proof.
  intros Hplain. unfold normalize_arabic_text.
  destruct (truthy text); [|done]. cbn [negb]. cbv zeta.
  rewrite fix_chars_plain by done. by apply (sub_arabic_plain _ []).
Qed.

End WithUnicode.

Import Instances.

Lemma normalize_arabic_text_is_nfkc_witness :
  normalize_arabic_text [97; 160; 1575; 1604]%N
  = if truthy [97; 160; 1575; 1604]%N then nfkc [97; 160; 1575; 1604]%N
    else [97; 160; 1575; 1604]%N.
Proof.
  apply (normalize_arabic_text_is_nfkc [97; 160; 1575; 1604]%N).
  vm_compute. repeat constructor.
Defined.

End LLMTextFacts.


(** ** rag_pipeline.py: streamed and batched queries *)
Module AnswersFacts.
Import FaissStore GeminiLLM RAGPipeline Answers.

Section WithLibraries.
Context {U : Unicodedata} {FL : Floats} {E : Embedder} {TT : GeminiLLM.TextTools}.

(** The test [not context or context == "..."] fails on every context
    [format_context] builds. *)
Lemma context_test (results : list (gmap (list N) value)) :
  negb (truthy (Retriever.format_context results))
  || eqb (Retriever.format_context results) no_relevant_information = false.
Proof.
  destruct results as [|r results]; [by vm_compute|].
  destruct (RetrieverExtras.format_context_head r results) as [t ->].
  by vm_compute.
Qed.

(** [query], step by step. *)
Lemma query_spec (self : RAGPipeline.t) (h : gmap positive (gmap (list N) value))
    (question_in : pystr) (return_context : bool) (w : world) :
  query self h question_in return_context w
  = match Retriever.retrieve (retriever self) (vector_store self) h question_in
            (Some 5) None with
    | Raise e => (Raise e, w)
    | Ok results =>
        match answer_question question_in (Retriever.format_context results)
                (system_prompt self) w with
        | (Ok a, w') =>
            (Ok {| question := question_in;
                   answer := a;
                   context := if return_context
                              then Some (Retriever.format_context results)
                              else None;
                   sources := if return_context
                              then Some (map make_source results) else None |}, w')
        | (Raise e, w') => (Raise e, w')
        end
    end.
Proof.
  unfold query, Retriever.retrieve_and_format, bind, lift.
  destruct (Retriever.retrieve _ _ _ _ _ _) as [results|e]; [|done].
  unfold ret at 1. rewrite context_test.
  by destruct (answer_question _ _ _ w) as [[a|e] w1].
Qed.

Lemma answer_question_world (question_in context_str template : pystr) (w : world) :
  (answer_question question_in context_str template w).2
  = (generate (str_format template context_str question_in) w).2.
Proof.
  unfold answer_question, bind. by destruct (generate _ w) as [[g|e] w2].
Qed.

Ltac no_events :=
  exists []; split; [apply GeminiLLMFacts.extends_refl|];
  split; [unfold requests; simpl; lia|];
  split; [unfold generate_calls; simpl; lia|constructor].

(** A query is at most one call of [generate]. *)
Lemma query_extends (self : RAGPipeline.t) (h : gmap positive (gmap (list N) value))
    (question_in : pystr) (return_context : bool) (w : world) :
  exists evs,
    extends w (query self h question_in return_context w).2 evs
    /\ (requests evs <= 5)%nat /\ (generate_calls evs <= 1)%nat
    /\ pauses_within 30 evs.
Proof.
  rewrite query_spec.
  destruct (Retriever.retrieve _ _ _ _ _ _) as [results|e].
  2:{ no_events. }
  pose proof (answer_question_world question_in (Retriever.format_context results)
                (system_prompt self) w) as Hw.
  destruct (GeminiLLMFacts.generate_extends
              (str_format (system_prompt self) (Retriever.format_context results)
                 question_in) w) as (evs & Hext & Hg & Hr & Hp).
  rewrite <- Hw in Hext.
  exists (Generate :: evs).
  assert (Hres : extends w (answer_question question_in
                              (Retriever.format_context results)
                              (system_prompt self) w).2 (Generate :: evs)) by done.
  destruct (answer_question _ _ _ w) as [[a|e] w1]; simpl in *.
  all: split; [done|]; split; [unfold requests in *; simpl; lia|];
    split; [unfold generate_calls in *; simpl; lia|by constructor].
Qed.

(** A query that returns has called [generate] once. *)
Lemma query_returns (self : RAGPipeline.t) (h : gmap positive (gmap (list N) value))
    (question_in : pystr) (w w' : world) (d : answer_dict) :
  query self h question_in false w = (Ok d, w') ->
  question d = question_in /\ context d = None /\ sources d = None
  /\ generate_calls (trace w') = S (generate_calls (trace w)).
Proof.
  rewrite query_spec.
  destruct (Retriever.retrieve _ _ _ _ _ _) as [results|e]; [|done].
  pose proof (answer_question_world question_in (Retriever.format_context results)
                (system_prompt self) w) as Hw.
  pose proof (GeminiLLMFacts.generate_calls_once
                (str_format (system_prompt self) (Retriever.format_context results)
                   question_in) w) as Hg.
  rewrite <- Hw in Hg.
  destruct (answer_question _ _ _ w) as [[a|e] w1]; [|done].
  by intros [= <- <-].
Qed.

(** A streamed generation is at most ten requests and one call of
    [generate]. *)
Lemma stream_generate_extends (prompt : pystr) (w : world) :
  exists evs,
    extends w (stream_generate prompt 5 w).2 evs
    /\ (requests evs <= 10)%nat /\ (generate_calls evs <= 1)%nat
    /\ pauses_within 30 evs.
Proof.
  unfold stream_generate.
  destruct (GeminiLLMExtras.attempts_extends prompt (Z.to_nat 5) 0 None w)
    as (evs & Hext & Hr & Hp).
  pose proof (GeminiLLMFacts.attempts_calls prompt (Z.to_nat 5) 0 None w) as Hc.
  exists evs. split; [done|]. split; [lia|]. split; [|done].
  rewrite (GeminiLLMFacts.extends_calls _ _ _ Hext) in Hc. lia.
Qed.

Lemma stream_query_extends (self : RAGPipeline.t)
    (h : gmap positive (gmap (list N) value)) (question_in : pystr) (w : world) :
  exists evs,
    extends w (stream_query self h question_in w).2 evs
    /\ (requests evs <= 10)%nat /\ (generate_calls evs <= 1)%nat
    /\ pauses_within 30 evs.
Proof.
  unfold stream_query, Retriever.retrieve_and_format.
  destruct (Retriever.retrieve _ _ _ _ _ _) as [results|e].
  2:{ no_events. }
  rewrite context_test. unfold stream_answer_question. cbv zeta.
  destruct (stream_generate_extends
              (str_format (system_prompt self) (Retriever.format_context results)
                 question_in) w) as (evs & Hext & Hrest).
  exists evs. by destruct (stream_generate _ 5 w) as [s w1].
Qed.

(** X23: whenever the retrieval succeeds, whatever it found, [stream_query]
    streams a generated answer: it yields the fragments of
    [stream_generate] for the prompt built from the formatted context, each
    passed through [normalize_arabic_text], ends as that stream ends, and
    never yields the canned answer for a question without context. *)
Theorem stream_query_streams_generation (self : RAGPipeline.t)
    (h : gmap positive (gmap (list N) value)) (question_in : pystr) (w : world)
    (results : list (gmap (list N) value)) :
  Retriever.retrieve (retriever self) (vector_store self) h question_in
    (Some 5) None = Ok results ->
  let prompt := str_format (system_prompt self)
                  (Retriever.format_context results) question_in in
  stream_query self h question_in w
  = ({| yielded := map LLMText.normalize_arabic_text
                     (yielded (stream_generate prompt 5 w).1);
        raised := raised (stream_generate prompt 5 w).1 |},
     (stream_generate prompt 5 w).2).
Proof.
  intros Hret prompt. unfold stream_query, Retriever.retrieve_and_format.
  rewrite Hret, context_test. unfold stream_answer_question. cbv zeta.
  fold prompt. by destruct (stream_generate prompt 5 w) as [s w1].
Qed.

(** X24: a call of [batch_query] that returns has answered the questions
    in order, one answer for each, without context or sources, and has
    called [generate] exactly once for every question. *)
Theorem batch_query_answers_each (self : RAGPipeline.t)
    (h : gmap positive (gmap (list N) value)) (questions : list pystr)
    (w w' : world) (ds : list answer_dict) :
  batch_query self h questions w = (Ok ds, w') ->
  map question ds = questions
  /\ Forall (fun d => context d = None /\ sources d = None) ds
  /\ generate_calls (trace w')
     = (generate_calls (trace w) + length questions)%nat.
Proof.
  revert w ds. induction questions as [|q rest IH]; intros w ds; cbn [batch_query].
  - unfold ret. intros [= <- <-]. simpl. split; [done|]. split; [done|lia].
  - unfold bind at 1.
    destruct (query self h q false w) as [[d|e] w1] eqn:Hq; [|done].
    apply query_returns in Hq as (Hqd & Hc & Hs & Hg).
    unfold bind.
    destruct (batch_query self h rest w1) as [[ds'|e] w2] eqn:Hb; [|done].
    unfold ret. intros [= <- <-].
    destruct (IH _ _ Hb) as (Hm & Hf & Hg').
    simpl. split; [by rewrite Hqd, Hm|]. split; [by constructor|lia].
Qed.

End WithLibraries.

Import Instances.

Lemma stream_query_streams_generation_witness :
  stream_query empty_pipeline ∅ a_question (fresh_world streaming_service)
  = ({| yielded := map LLMText.normalize_arabic_text
                     (yielded (stream_generate
                                 (str_format (lit "template ")
                                    (Retriever.format_context []) a_question)
                                 5 (fresh_world streaming_service)).1);
        raised := raised (stream_generate
                            (str_format (lit "template ")
                               (Retriever.format_context []) a_question)
                            5 (fresh_world streaming_service)).1 |},
     (stream_generate
        (str_format (lit "template ") (Retriever.format_context []) a_question)
        5 (fresh_world streaming_service)).2).
Proof.
  apply (stream_query_streams_generation empty_pipeline ∅ a_question
           (fresh_world streaming_service) []).
  reflexivity.
Defined.

Lemma batch_query_answers_each_witness :
  match batch_query empty_pipeline ∅ [a_question; a_prompt]
          (fresh_world answering_service) with
  | (Ok ds, w') =>
      map question ds = [a_question; a_prompt]
      /\ Forall (fun d => context d = None /\ sources d = None) ds
      /\ generate_calls (trace w')
         = (generate_calls (trace (fresh_world answering_service))
            + length [a_question; a_prompt])%nat
  | (Raise _, _) => False
  end.
Proof.
  assert (Hok : match (batch_query empty_pipeline ∅ [a_question; a_prompt]
                         (fresh_world answering_service)).1 with
                | Ok _ => True
                | Raise _ => False
                end) by (vm_compute; exact I).
  destruct (batch_query empty_pipeline ∅ [a_question; a_prompt]
              (fresh_world answering_service)) as [[ds|e] w'] eqn:Hb; [|done].
  exact (batch_query_answers_each empty_pipeline ∅ [a_question; a_prompt]
           (fresh_world answering_service) w' ds Hb).
Defined.

End AnswersFacts.


(** ** api.py: the chat endpoints *)
Module ApiFacts.
Import FaissStore GeminiLLM RAGPipeline Answers Api.

Section WithLibraries.
Context {U : Unicodedata} {FL : Floats} {E : Embedder} {TT : GeminiLLM.TextTools}.

Lemma strip_truthy (s : pystr) : truthy (strip s) = true -> truthy s = true.
Proof. by destruct s. Qed.

(** X25: after [clear], the endpoint [chat] still passes its check of the
    indexed documents, because [clear] leaves the texts: a question that is
    not blank and can be embedded is not refused with 400 but sent to the
    model once, with the context "no information available"; the answer of
    the model is returned, or 500 when the call fails. *)
Theorem chat_after_clear (pipeline : RAGPipeline.t)
    (h : gmap positive (gmap (list N) value)) (request : ChatRequest) (w : world)
    (query_embedding : list float) :
  texts (vector_store pipeline) <> [] ->
  truthy (strip (request_question request)) = true ->
  encode (request_question request) = Ok query_embedding ->
  let cleared := with_store pipeline (clear (vector_store pipeline)) in
  refused (Some cleared) request = None
  /\ chat (Some cleared) h request w
     = match answer_question (request_question request)
               Retriever.no_information_available (system_prompt pipeline) w with
       | (Ok a, w') =>
           (Response {| question := request_question request;
                        answer := a;
                        context := if return_context request
                                   then Some Retriever.no_information_available
                                   else None;
                        sources := if return_context request then Some []
                                   else None |}, w')
       | (Raise _, w') => (HTTPException 500, w')
       end
  /\ generate_calls (trace (chat (Some cleared) h request w).2)
     = S (generate_calls (trace w)).
Proof.
  intros Htexts Hq Henc cleared.
  assert (Href : refused (Some cleared) request = None).
  { unfold refused. rewrite Hq, (strip_truthy _ Hq). cbn [negb orb].
    unfold cleared, with_store, clear. cbn [vector_store texts].
    destruct (texts (vector_store pipeline)); [done|]. done. }
  assert (Hret : Retriever.retrieve (retriever cleared) (vector_store cleared) h
                   (request_question request) (Some 5) None = Ok []).
  { unfold Retriever.retrieve, Retriever.embed_query. rewrite Henc.
    unfold search, cleared, with_store, clear. by cbn. }
  assert (Hchat : chat (Some cleared) h request w
     = match answer_question (request_question request)
               Retriever.no_information_available (system_prompt pipeline) w with
       | (Ok a, w') =>
           (Response {| question := request_question request;
                        answer := a;
                        context := if return_context request
                                   then Some Retriever.no_information_available
                                   else None;
                        sources := if return_context request then Some []
                                   else None |}, w')
       | (Raise _, w') => (HTTPException 500, w')
       end).
  { unfold chat. rewrite Href, AnswersFacts.query_spec, Hret.
    change (Retriever.format_context []) with Retriever.no_information_available.
    change (system_prompt cleared) with (system_prompt pipeline).
    by destruct (answer_question _ _ _ w) as [[a|e] w1]. }
  split; [done|]. split; [done|]. rewrite Hchat.
  pose proof (AnswersFacts.answer_question_world (request_question request)
                Retriever.no_information_available (system_prompt pipeline) w) as Hw.
  pose proof (GeminiLLMFacts.generate_calls_once
                (str_format (system_prompt pipeline)
                   Retriever.no_information_available (request_question request)) w)
    as Hg.
  rewrite <- Hw in Hg.
  by destruct (answer_question _ _ _ w) as [[a|e] w1].
Qed.

Lemma chunks_loop_contents (chunks : list pystr) :
  forall fl : flags,
    forallb is_content (chunks_loop chunks fl).1 = true.
Proof.
  induction chunks as [|chunk rest IH]; intros fl; cbn [chunks_loop]; [done|].
  destruct (truthy chunk) eqn:Hc; cbn [negb]; [|apply IH].
  specialize (IH {| has_content := true; chunk_count := S (chunk_count fl);
                    error_sent := error_sent fl |}).
  destruct (chunks_loop rest _) as [frames fl']. simpl in *. by rewrite Hc.
Qed.

Lemma send_error_frames (fl : flags) :
  (send_error fl).1 = [] \/ (send_error fl).1 = [Error].
Proof. unfold send_error. destruct (error_sent fl); [by left|by right]. Qed.

Lemma generate_events_shaped (pipeline : RAGPipeline.t)
    (h : gmap positive (gmap (list N) value)) (request : ChatRequest) (w : world) :
  well_shaped (generate_events pipeline h request w).1.
Proof.
  unfold generate_events. cbv zeta.
  destruct (stream_query pipeline h (request_question request) w) as [s w1].
  pose proof (chunks_loop_contents (yielded s)
                {| has_content := false; chunk_count := 0; error_sent := false |})
    as Hframes.
  destruct (chunks_loop (yielded s) _) as [frames fl]. cbn [fst] in Hframes.
  destruct (raised s) as [e|].
  - pose proof (send_error_frames fl) as Herr.
    destruct (send_error fl) as [error_frames fl']. cbn [fst] in *.
    exists frames, (error_frames ++ [Done]). split; [done|]. split; [done|].
    destruct Herr as [-> | ->]; [by left|by right].
  - destruct (has_content fl); cbn [negb].
    { exists frames, [Done]. split; [done|]. split; [done|by left]. }
    unfold fallback_query.
    destruct (query pipeline h (request_question request) false w1)
      as [[result|e] w2].
    + destruct (truthy (answer result)) eqn:Ha; cbn [fst].
      * exists (frames ++ [Data (answer result)]), [Done].
        split; [by rewrite <- app_assoc|]. split; [|by left].
        rewrite forallb_app, Hframes. simpl. by rewrite Ha.
      * exists frames, [Done]. split; [done|]. split; [done|by left].
    + pose proof (send_error_frames fl) as Herr.
      destruct (send_error fl) as [error_frames fl']. cbn [fst] in *.
      exists frames, (error_frames ++ [Done]). split; [done|]. split; [done|].
      destruct Herr as [-> | ->]; [by left|by right].
Qed.

(** X26: [chat_stream] either refuses the request with 503 or 400 before
    anything is sent to the model, or streams events of one shape: content
    events, none of them empty, then at most one error event, then the end
    marker, once and last. *)
Theorem chat_stream_well_shaped (pipeline : option RAGPipeline.t)
    (h : gmap positive (gmap (list N) value)) (request : ChatRequest) (w : world) :
  match (chat_stream pipeline h request w).1 with
  | Response frames => well_shaped frames
  | HTTPException status =>
      (status = 503 \/ status = 400) /\ (chat_stream pipeline h request w).2 = w
  end.
Proof.
  unfold chat_stream, refused. destruct pipeline as [pipeline|]; [|by split; [left|]].
  destruct (negb _ || negb _); [by split; [right|]|].
  destruct (_ =? 0); [by split; [right|]|].
  pose proof (generate_events_shaped pipeline h request w) as Hs.
  by destruct (generate_events pipeline h request w) as [frames w1].
Qed.

(** X27: one call of [chat_stream] makes at most 15 requests to the model
    service and at most two calls of [generate] (the fallback of the stream
    and the fallback of the endpoint), and never pauses longer than 30
    seconds at a time. *)
Theorem chat_stream_budget (pipeline : option RAGPipeline.t)
    (h : gmap positive (gmap (list N) value)) (request : ChatRequest) (w : world) :
  exists evs,
    extends w (chat_stream pipeline h request w).2 evs
    /\ (requests evs <= 15)%nat /\ (generate_calls evs <= 2)%nat
    /\ pauses_within 30 evs.
Proof.
  assert (Hnone : exists evs, extends w w evs
                    /\ (requests evs <= 15)%nat /\ (generate_calls evs <= 2)%nat
                    /\ pauses_within 30 evs).
  { exists []. split; [apply GeminiLLMFacts.extends_refl|].
    split; [unfold requests; simpl; lia|].
    split; [unfold generate_calls; simpl; lia|constructor]. }
  unfold chat_stream, refused. destruct pipeline as [pipeline|]; [|done].
  destruct (negb _ || negb _); [done|]. destruct (_ =? 0); [done|].
  clear Hnone. unfold generate_events. cbv zeta.
  destruct (AnswersFacts.stream_query_extends pipeline h (request_question request) w)
    as (evs1 & Hext1 & Hr1 & Hg1 & Hp1).
  destruct (stream_query pipeline h (request_question request) w) as [s w1].
  cbn [snd] in Hext1.
  destruct (chunks_loop (yielded s) _) as [frames fl].
  assert (Hone : exists evs, extends w w1 evs
                   /\ (requests evs <= 15)%nat /\ (generate_calls evs <= 2)%nat
                   /\ pauses_within 30 evs).
  { exists evs1. split; [done|]. split; [lia|]. split; [lia|done]. }
  destruct (raised s) as [e|].
  { by destruct (send_error fl) as [error_frames fl']. }
  destruct (has_content fl); cbn [negb]; [done|]. clear Hone.
  unfold fallback_query.
  destruct (AnswersFacts.query_extends pipeline h (request_question request) false w1)
    as (evs2 & Hext2 & Hr2 & Hg2 & Hp2).
  assert (Htwo : exists evs,
            extends w (query pipeline h (request_question request) false w1).2 evs
            /\ (requests evs <= 15)%nat /\ (generate_calls evs <= 2)%nat
            /\ pauses_within 30 evs).
  { exists (evs1 ++ evs2). split; [by eapply GeminiLLMFacts.extends_trans|].
    rewrite GeminiLLMFacts.requests_app, GeminiLLMFacts.generate_calls_app.
    split; [lia|]. split; [lia|by apply GeminiLLMFacts.pauses_within_app]. }
  destruct (query pipeline h (request_question request) false w1)
    as [[result|e] w2]; cbn [snd] in Htwo.
  - by destruct (truthy (answer result)).
  - by destruct (send_error fl) as [error_frames fl'].
Qed.

End WithLibraries.

Import Instances.

Lemma chat_after_clear_witness :
  let request := {| request_question := a_question; return_context := true |} in
  let cleared := with_store pipeline_len (clear (vector_store pipeline_len)) in
  refused (Some cleared) request = None
  /\ chat (Some cleared) ∅ request (fresh_world answering_service)
     = match answer_question a_question Retriever.no_information_available
               (system_prompt pipeline_len) (fresh_world answering_service) with
       | (Ok a, w') =>
           (Response {| question := a_question;
                        answer := a;
                        context := Some Retriever.no_information_available;
                        sources := Some [] |}, w')
       | (Raise _, w') => (HTTPException 500, w')
       end
  /\ generate_calls (trace (chat (Some cleared) ∅ request
                              (fresh_world answering_service)).2)
     = S (generate_calls (trace (fresh_world answering_service))).
Proof.
  apply (chat_after_clear pipeline_len ∅
           {| request_question := a_question; return_context := true |}
           (fresh_world answering_service) [len a_question]).
  - vm_compute. discriminate.
  - reflexivity.
  - reflexivity.
Defined.

End ApiFacts.


(** ** api.py: the index endpoint *)
Module ApiIndexFacts.
Import FaissStore Documents Indexing Api ApiIndex.

Section WithLibraries.
Context {U : Unicodedata} {FL : Floats} {E : Embedder}
        {BE : Embeddings.BatchEmbedder} {TT : GeminiLLM.TextTools}.

(** The texts of the store after a call of [index_documents] that
    returns. *)
Lemma index_documents_texts (self : RAGPipeline.t) (chunker : TextChunker.t)
    (h h' : gmap positive (gmap (list N) value)) (dir_exists : bool)
    (files : list file) (store' : FaissStore.t) :
  index_documents self chunker h dir_exists files = (Completed, (store', h')) ->
  texts store' = texts (RAGPipeline.vector_store self) ++ new_texts chunker files.
Proof.
  unfold index_documents. destruct dir_exists; [|done]. cbn [negb].
  rewrite DocumentsFacts.chunk_directory_spec.
  destruct (new_texts chunker files) as [|t0 ts] eqn:Hts.
  { intros [= <- _]. by rewrite app_nil_r. }
  destruct (Embeddings.embed_texts _ _) as [vectors|e]; [|done].
  destruct (alloc_all _ h) as [ls h1].
  destruct (add_vectors _ h1 vectors _ ls) as [[[]|e] [s2 h2]] eqn:Hadd; [|done].
  intros [= <- _].
  by destruct (FaissStoreFacts.add_vectors_ok_store _ _ _ _ _ _ _ Hadd)
    as (_ & Ht & _).
Qed.

(** X28: the index endpoint never answers 400: without a pipeline it
    answers 503, and a text directory that does not exist gives 500 with
    nothing changed, the exception of the check being caught by the
    endpoint's own handler.  When it answers with a number of documents,
    that number counts the texts held before and the chunks of the
    directory, and the index of the store is on disk under the index
    path. *)
Theorem index_endpoint_answers (chunker : TextChunker.t) (st : state)
    (dir_exists : bool) (files : list file) (mkdir : result unit)
    (index_file metadata_file : pystr) :
  let answer := index_endpoint chunker st dir_exists files mkdir
                  index_file metadata_file in
  answer.1 <> HTTPException 400
  /\ (pipeline st = None -> answer = (HTTPException 503, st))
  /\ (is_Some (pipeline st) -> dir_exists = false ->
      answer = (HTTPException 500, st))
  /\ forall num_docs, answer.1 = Response num_docs ->
       exists p p',
         pipeline st = Some p /\ pipeline answer.2 = Some p'
         /\ num_docs
            = Z.of_nat (length (texts (RAGPipeline.vector_store p))
                        + length (new_texts chunker files))
         /\ texts (RAGPipeline.vector_store p')
            = texts (RAGPipeline.vector_store p) ++ new_texts chunker files
         /\ index_files (files_on_disk answer.2) !! index_file
            = Some (index (RAGPipeline.vector_store p')).
Proof.
  cbv zeta. unfold index_endpoint.
  destruct (pipeline st) as [p|] eqn:Hp.
  2:{ split; [done|]. split; [done|]. split; [by intros [? ?]|done]. }
  unfold try_block. destruct dir_exists; cbn [negb].
  2:{ split; [done|]. split; [done|]. split; [done|done]. }
  destruct (index_documents p chunker (records st) true files)
    as [o [store h]] eqn:Hrun.
  destruct o.
  2,3: by (split; [done|]; split; [done|]; split; [done|]).
  apply index_documents_texts in Hrun.
  unfold save_index. destruct mkdir as [[]|e].
  2:{ by (split; [done|]; split; [done|]; split; [done|]). }
  cbn [fst snd]. split; [done|]. split; [done|]. split; [done|].
  intros num_docs [= <-]. exists p. eexists. split; [done|].
  cbn [pipeline files_on_disk with_store RAGPipeline.vector_store texts index].
  split; [done|]. split; [by rewrite Hrun, length_app|]. split; [done|].
  unfold save. cbn [index_path metadata_path index_files index].
  apply lookup_insert_eq.
Qed.

End WithLibraries.

Import Instances.

Lemma index_endpoint_answers_witness :
  let answer := index_endpoint (BE := batch_by_len) small_chunker serving_len
                  true a_directory (Ok tt) (lit "index.faiss")
                  (lit "metadata.json") in
  exists p p',
    pipeline serving_len = Some p /\ pipeline answer.2 = Some p'
    /\ 5 = Z.of_nat (length (texts (RAGPipeline.vector_store p))
                     + length (new_texts small_chunker a_directory))
    /\ texts (RAGPipeline.vector_store p')
       = texts (RAGPipeline.vector_store p) ++ new_texts small_chunker a_directory
    /\ index_files (files_on_disk answer.2) !! lit "index.faiss"
       = Some (index (RAGPipeline.vector_store p')).
Proof.
  destruct (index_endpoint_answers (BE := batch_by_len) small_chunker serving_len
              true a_directory (Ok tt) (lit "index.faiss") (lit "metadata.json"))
    as (_ & _ & _ & Hnum).
  apply Hnum. vm_compute. reflexivity.
Defined.

End ApiIndexFacts.
